(** * theano/scan_module/scan.py: the [scan] construction routine

    A shallow embedding of [scan] (src/theano/scan_module/scan.py) and the
    properties of its input normalisation, trip-count resolution, tap
    classification, single-step shortcut, probe check and result unpacking.

    The routine only builds a symbolic graph.  Graph nodes are terms of
    [expr]; Python dictionaries with a fixed set of keys are records with
    optional fields; Python exceptions are values of [exn]; the calls that
    leave the routine (the step function, the probe compilation, the loop
    operator) are recorded in a log of [event]s.  Debug names and test
    values, which never influence control flow, are left out
    ([config.compute_test_value] is taken to be ['off']). *)

From stdpp Require Import gmap strings list.
From Stdlib Require Import ZArith Lia.

Open Scope Z_scope.

(** ** Python values that reach [scan] *)

(** A Python float: not-a-number, an infinity, or the finite value
    [m * 2^e]. *)
Inductive pyfloat :=
| FNaN
| FInf (negative : bool)
| FFinite (m e : Z).

Inductive scalar :=
| SInt (z : Z)
| SFloat (f : pyfloat).

(** Where a fresh placeholder variable is created in [scan]: two
    placeholders created at different places are different variables. *)
Inductive site :=
| SiteSeq (i j : nat)      (* tap number j of sequence i, line 421 *)
| SiteSit (i : nat)        (* output i with taps [-1], line 549 *)
| SiteMit (i j : nat)      (* tap number j of output i, line 607 *)
| SiteShared (j : nat)     (* shared variable with an update, line 787 *)
| SiteNonSeq (j : nat)     (* non sequence, line 824 *)
| SiteOtherShared (j : nat). (* shared variable without update, line 831 *)

(** Graph nodes. *)
Inductive expr :=
| EVar (name : string)                        (* a tensor variable *)
| EShared (name : string)                     (* a SharedVariable *)
| EConstant (v : scalar)                      (* a constant *)
| ENew (s : site) (like : expr)               (* x.type(), safe_new(x) *)
| EIndex (e : expr) (k : Z)                   (* e[k] *)
| ESlice (e : expr) (start stop : option Z)   (* e[start:stop] *)
| EReverse (e : expr)                         (* e[::-1] *)
| EShape0 (e : expr)                          (* e.shape[0] *)
| EMinimum (a b : expr)                       (* tensor.minimum(a, b) *)
| EShapePadLeft (e : expr)                    (* tensor.shape_padleft(e) *)
| EUnbroadcast (e : expr) (axis : nat)        (* tensor.unbroadcast(e, axis) *)
| EExpand (e n : expr)                        (* scan_utils.expand(e, n) *)
| EOp1 (op : string) (a : expr)               (* any other unary node *)
| EOp2 (op : string) (a b : expr).            (* any other binary node *)

Global Instance pyfloat_eq_dec : EqDecision pyfloat.
Proof. solve_decision. Defined.
Global Instance scalar_eq_dec : EqDecision scalar.
Proof. solve_decision. Defined.
Global Instance site_eq_dec : EqDecision site.
Proof. solve_decision. Defined.
Global Instance expr_eq_dec : EqDecision expr.
Proof. solve_decision. Defined.

(** [isinstance(x, SharedVariable)] and [isinstance(x, gof.Constant)]. *)
Definition is_shared (x : expr) : bool :=
  match x with EShared _ => true | _ => false end.

Definition is_constant (x : expr) : bool :=
  match x with EConstant _ => true | _ => false end.

(** An argument that may be [None], a single value or a list. *)
Inductive pyarg (A : Type) :=
| ArgNone
| ArgSingle (a : A)
| ArgList (l : list A).
Arguments ArgNone {A}.
Arguments ArgSingle {A} a.
Arguments ArgList {A} l.

(** The value stored under the key ['taps']. *)
Inductive taps_val :=
| TapsNone
| TapsInt (k : Z)
| TapsList (l : list Z).

Global Instance taps_val_eq_dec : EqDecision taps_val.
Proof. solve_decision. Defined.

(** A sequence given as a dictionary: ['input'] is mandatory, ['taps'] is
    [None] when the key is missing. *)
Record seq_dict := SeqD {
  seq_input : expr;
  seq_taps : option taps_val
}.

Inductive seq_entry :=
| SeqNode (e : expr)
| SeqDict (d : seq_dict).

(** An [outputs_info] dictionary.  Each field is [None] when the key is
    missing; for ['initial'] and ['return_steps'], which the code only reads
    through [.get(key, None)], a key holding [None] is the same as a missing
    key.  Initial states are graph nodes, which are true in a condition. *)
Record out_dict := OutD {
  out_initial : option expr;
  out_taps : option taps_val;
  out_return_steps : option Z
}.

Global Instance out_dict_eq_dec : EqDecision out_dict.
Proof. solve_decision. Defined.

Inductive out_entry :=
| OutNone
| OutNode (e : expr)
| OutDict (d : out_dict).

(** The value given for [n_steps]. *)
Inductive n_steps_arg :=
| NoneSteps
| IntSteps (z : Z)
| FloatSteps (f : pyfloat)
| NodeSteps (v : expr).

(** The update association returned by the step function, in order. *)
Definition update_dict := list (expr * expr).

(** The step function, already composed with
    [scan_utils.get_updates_and_outputs], which splits what the callable
    returns into a list of outputs and the updates. *)
Definition step_fn := list expr → list expr * update_dict.

(** ** Exceptions and the log of outside calls *)

Inductive exn :=
| ValueError (msg : string)
| OverflowError
| TypeError
| IndexError
| KeyError.

Global Instance exn_eq_dec : EqDecision exn.
Proof. solve_decision. Defined.

Definition is_ValueError (e : exn) : bool :=
  match e with ValueError _ => true | _ => false end.

Definition msg_n_steps_int : string := "n_steps must be an int".
Definition msg_nan_to_int : string := "cannot convert float NaN to integer".
Definition msg_need_initial : string :=
  "If you are using slices of an output you need to provide a initial state for it".
Definition msg_no_steps : string :=
  "No information about the number of steps provided".
Definition msg_future_taps : string := "Can not use future taps of outputs".
Definition msg_provide_none : string :=
  "Please provide None as output_info for any output that does not feed back into scan".
Definition msg_zero_size : string :=
  "zero-size array to reduction operation".

(** The configuration handed to the loop operator (the dictionary [info]). *)
Record scan_info := ScanInfo {
  info_tap_array : list (list Z);
  info_n_seqs : nat;
  info_n_mit_mot : nat;
  info_n_mit_mot_outs : nat;
  info_mit_mot_out_slices : list (list Z);
  info_n_mit_sot : nat;
  info_n_sit_sot : nat;
  info_n_shared_outs : nat;
  info_n_nit_sot : nat;
  info_truncate_gradient : Z;
  info_name : option string;
  info_mode : option string;
  info_inplace : bool;
  info_gpu : bool
}.

Inductive event :=
| EvWarning (i : nat)                          (* warning(...), line 374 *)
| EvCallFn (args : list expr)                  (* fn( *args ), line 683 *)
| EvCompileProbe (dummy_args outs : list expr) (* function(...), line 737 *)
| EvBuildScanOp (info : scan_info) (inner_inputs new_outs : list expr)
                                               (* scan_op.Scan(...), line 898 *)
| EvApplyScanOp (scan_inputs : list expr).     (* local_op(...), line 913 *)

(** A computation: the events so far, then an exception or a value. *)
Definition M (A : Type) : Type := list event * (exn + A).

Definition ret {A} (a : A) : M A := ([], inr a).
Definition raise {A} (e : exn) : M A := ([], inl e).
Definition emit (ev : event) : M unit := ([ev], inr tt).
Definition bind {A B} (m : M A) (k : A → M B) : M B :=
  match m with
  | (log, inl e) => (log, inl e)
  | (log, inr a) => let '(log', r) := k a in (log ++ log', r)
  end.

Notation "'do' x <- m ; k" := (bind m (fun x => k))
  (at level 10, x name, m at level 100, k at level 200).
Notation "'do' ' p <- m ; k" := (bind m (fun x => match x with p => k end))
  (at level 10, p pattern, m at level 100, k at level 200).

Definition trace {A} (m : M A) : list event := fst m.
Definition result {A} (m : M A) : exn + A := snd m.

(** Lifting a computation that produces no event. *)
Definition lift {A} (r : exn + A) : M A := ([], r).

(** Computations that produce no event. *)
Definition R (A : Type) : Type := (exn + A)%type.

Definition rbind {A B} (m : R A) (k : A → R B) : R B :=
  match m with inl e => inl e | inr a => k a end.

Notation "'let?' x := m 'in' k" := (rbind m (fun x => k))
  (at level 10, x name, m at level 100, k at level 200).

(** A Python [for] loop whose body may raise. *)
Fixpoint for_loop {A S} (body : A → S → R S) (l : list A) (s : S) : R S :=
  match l with
  | [] => inr s
  | a :: l' =>
      match body a s with
      | inl e => inl e
      | inr s' => for_loop body l' s'
      end
  end.

Definition enumerate {A} (l : list A) : list (nat * A) := imap pair l.

(** [l[i]] and [l[i] = x] on a Python list, with a non-negative index. *)
Definition list_get {A} (l : list A) (i : nat) : R A :=
  match l !! i with Some x => inr x | None => inl IndexError end.

Definition list_set {A} (l : list A) (i : nat) (x : A) : R (list A) :=
  if decide (i < length l)%nat then inr (<[i := x]> l) else inl IndexError.

(** [l[a:b]] on a Python list, for [0 <= a <= b]. *)
Definition list_slice {A} (l : list A) (a b : nat) : list A :=
  take (b - a) (drop a l).

(** ** Step 1: wrapping the inputs (lines 302-382) *)

Definition wrap_into_list {A} (x : pyarg A) : list A :=
  match x with
  | ArgNone => []
  | ArgSingle a => [a]
  | ArgList l => l
  end.

(** [int(x)] on a Python float. *)
Definition int_of_float (f : pyfloat) : R Z :=
  match f with
  | FNaN => inl (ValueError msg_nan_to_int)
  | FInf _ => inl OverflowError
  | FFinite m e =>
      inr (if decide (0 ≤ e) then m * 2 ^ e else Z.quot m (2 ^ (- e)))
  end.

(** [x == z] for a scalar [x] and a Python int [z]. *)
Definition scalar_eq_int (x : scalar) (z : Z) : bool :=
  match x with
  | SInt y => bool_decide (y = z)
  | SFloat (FFinite m e) =>
      if decide (0 ≤ e) then bool_decide (m * 2 ^ e = z)
      else bool_decide (m = z * 2 ^ (- e))
  | SFloat _ => false
  end.

(** [n_fixed_steps in [1, -1]]. *)
Definition in_1_m1 (n_fixed_steps : option scalar) : bool :=
  match n_fixed_steps with
  | None => false
  | Some x => scalar_eq_int x 1 || scalar_eq_int x (-1)
  end.

(** The truth value of what [d.get('taps', None)] returns. *)
Definition taps_truthy (t : option taps_val) : bool :=
  match t with
  | Some (TapsInt k) => bool_decide (k ≠ 0)
  | Some (TapsList (_ :: _)) => true
  | _ => false
  end.

(** [wrap_into_list] on a taps value that is true in a condition. *)
Definition wrap_taps (t : option taps_val) : list Z :=
  match t with
  | Some (TapsInt k) => [k]
  | Some (TapsList l) => l
  | _ => []
  end.

(** The body of the loop of lines 344-351. *)
Definition wrap_seq (s : seq_entry) : seq_dict :=
  match s with
  | SeqNode e => SeqD e (Some (TapsList [0]))
  | SeqDict d =>
      if taps_truthy (seq_taps d)
      then SeqD (seq_input d) (Some (TapsList (wrap_taps (seq_taps d))))
      else if bool_decide (seq_taps d = Some TapsNone)
           (* [.get('taps', True) is None]: the key holds [None] *)
           then SeqD (seq_input d) (Some (TapsList [0]))
           else d
  end.

Definition empty_out_dict : out_dict := OutD None None None.

(** The truth value of an [outputs_info] entry: [None] and the empty
    dictionary are false. *)
Definition entry_truthy (o : out_entry) : bool :=
  match o with
  | OutNone => false
  | OutNode _ => true
  | OutDict d => bool_decide (d ≠ empty_out_dict)
  end.

Definition record_return_steps (i : nat) (o : out_entry)
    (return_steps : gmap nat Z) : gmap nat Z :=
  match o with
  | OutDict d =>
      match out_return_steps d with
      | Some r => if decide (r ≠ 0) then <[i := r]> return_steps
                  else return_steps
      | None => return_steps
      end
  | _ => return_steps
  end.

(** The body of the loop of lines 354-382. *)
Definition wrap_out (i : nat) (o : out_entry) (return_steps : gmap nat Z)
    : M (out_dict * gmap nat Z) :=
  if entry_truthy o then
    let return_steps := record_return_steps i o return_steps in
    match o with
    | OutDict d =>
        if negb (bool_decide (is_Some (out_initial d)))
           && taps_truthy (out_taps d)
        then raise (ValueError msg_need_initial)
        else if bool_decide (is_Some (out_initial d))
                && negb (taps_truthy (out_taps d))
        then
          do _ <- (if bool_decide (is_Some (out_taps d))
                   then emit (EvWarning i) else ret tt);
          ret (OutD (out_initial d) (Some (TapsList [-1]))
                    (out_return_steps d), return_steps)
        else ret (d, return_steps)
    | OutNode e =>
        ret (OutD (Some e) (Some (TapsList [-1])) None, return_steps)
    | OutNone => ret (empty_out_dict, return_steps)
    end
  else ret (empty_out_dict, return_steps).

Fixpoint wrap_outs (i : nat) (os : list out_entry) (return_steps : gmap nat Z)
    : M (list out_dict * gmap nat Z) :=
  match os with
  | [] => ret ([], return_steps)
  | o :: os' =>
      do '(d, rs1) <- wrap_out i o return_steps;
      do '(ds, rs2) <- wrap_outs (S i) os' rs1;
      ret (d :: ds, rs2)
  end.

(** ** Step 2: time slices of the sequences (lines 396-465) *)

Record seq_state := SeqState {
  scan_seqs : list expr;     (* passed to the scan op *)
  inner_seqs : list expr;    (* passed to the inner function *)
  inner_slices : list expr;  (* actual slices if scan is removed *)
  n_seqs : nat
}.

(** [numpy.min] and [numpy.max] of a non-empty list [k :: l]. *)
Definition numpy_min (k : Z) (l : list Z) : Z := foldl Z.min k l.
Definition numpy_max (k : Z) (l : list Z) : Z := foldl Z.max k l.

(** The body of the loop over the taps of one sequence, lines 408-465. *)
Definition seq_tap (go_backwards : bool) (i : nat) (input : expr)
    (mintap maxtap : Z) (jk : nat * Z) (st : seq_state) : R seq_state :=
  let '(j, k) := jk in
  let actual_slice := EIndex input (k - mintap) in
  let nw_slice := ENew (SiteSeq i j) (EIndex input (k - mintap)) in
  let offset := if decide (maxtap < 0) then Z.abs maxtap else 0 in
  let nw_seq :=
    if decide (maxtap = mintap ∧ maxtap ≠ 0)
    then ESlice input None (Some (Z.abs maxtap))
    else if decide (maxtap - k ≠ 0)
    then ESlice input (Some (offset + k - mintap)) (Some (- (maxtap - k)))
    else ESlice input (Some (offset + k - mintap)) None in
  let nw_seq := if go_backwards then EReverse nw_seq else nw_seq in
  inr (SeqState (scan_seqs st ++ [nw_seq])
                (inner_seqs st ++ [nw_slice])
                (inner_slices st ++ [actual_slice])
                (S (n_seqs st))).

(** The body of the loop over the sequences, lines 401-465. *)
Definition seq_slices (go_backwards : bool) (iseq : nat * seq_dict)
    (st : seq_state) : R seq_state :=
  let '(i, seq) := iseq in
  match seq_taps seq with
  | None => inr st                               (* 'taps' not in seq *)
  | Some (TapsList []) => inl (ValueError msg_zero_size)  (* numpy.min([]) *)
  | Some (TapsList (k0 :: l)) =>
      let mintap := numpy_min k0 l in
      let maxtap := numpy_max k0 l in
      for_loop (seq_tap go_backwards i (seq_input seq) mintap maxtap)
               (enumerate (k0 :: l)) st
  | Some (TapsInt _) => inl TypeError            (* for k in an int *)
  | Some TapsNone => inl TypeError               (* for k in None *)
  end.

Definition empty_seq_state : seq_state := SeqState [] [] [] 0.

(** ** The collaborators of [scan]

    What [scan] consumes from the rest of Theano and only uses through its
    interface. *)
Record theano := Theano {
  (* str(x.dtype) *)
  dtype_of : expr → string;
  (* opt.get_constant_value(x); None when it raises *)
  get_constant_value : expr → option scalar;
  (* isinstance(x.type, tensor.TensorType) *)
  is_tensor_type : expr → bool;
  (* gof.graph.inputs(outputs) *)
  graph_inputs : list expr → list expr;
  (* dummy_f.maker.expanded_inputs: each variable with its update, if any *)
  expanded_inputs : list expr → list expr → update_dict → list (expr * option expr);
  (* scan_utils.clone(outs, replace = givens) *)
  clone : list expr → list (expr * expr) → list expr;
  (* cuda.cuda_available, isinstance(x.type, cuda.CudaNdarrayType), traverse *)
  cuda_available : bool;
  is_cuda_type : expr → bool;
  traverse : expr → expr → expr → list (expr * expr) → list (expr * expr);
  (* safe_to_cpu(x) *)
  safe_to_cpu : expr → expr;
  (* scan_op.Scan(inner_inputs, new_outs, info)( *scan_inputs ), as a list *)
  scan_op_apply : scan_info → list expr → list expr → list expr → list expr
}.

(** The arguments of one call of [scan]. *)
Record scan_call := ScanCall {
  fn : step_fn;
  sequences : pyarg seq_entry;
  outputs_info : pyarg out_entry;
  non_sequences : pyarg expr;
  n_steps : n_steps_arg;
  truncate_gradient : Z;
  go_backwards : bool;
  mode : option string;
  name : option string
}.

(** What [scan] returns as its first component: [None], one node, or a
    list; a slot of the list that was never assigned holds [None]. *)
Inductive scan_outputs :=
| OutsNone
| OutsSingle (o : option expr)
| OutsList (l : list (option expr)).

Section Scan.

Context (T : theano).

(** Lines 322-330. *)
Definition n_fixed_steps_of (n : n_steps_arg) : R (option scalar) :=
  match n with
  | IntSteps z => inr (Some (SInt z))
  | FloatSteps f => let? z := int_of_float f in inr (Some (SInt z))
  | NodeSteps v => inr (get_constant_value T v)
  | NoneSteps => inr None
  end.

(** Lines 333-336: only a value with a [dtype] attribute is checked. *)
Definition check_n_steps_dtype (n : n_steps_arg) : R unit :=
  match n with
  | NodeSteps v =>
      let p := String.substring 0 3 (dtype_of T v) in
      if bool_decide (p = "uin" ∨ p = "int") then inr tt
      else inl (ValueError msg_n_steps_int)
  | _ => inr tt
  end.

Definition float_nan_or_inf (f : pyfloat) : bool :=
  match f with FFinite _ _ => false | _ => true end.

(** Modelled from the spec: [scan_utils.isNaN_or_Inf_or_None], which is not
    part of this file.  The documentation of [n_steps] reads: if it "is not
    provided, or is a constant that evaluates to None, inf or NaN", the
    sequences determine the number of steps. *)
Definition isNaN_or_Inf_or_None (n : n_steps_arg) : bool :=
  match n with
  | NoneSteps => true
  | IntSteps _ => false
  | FloatSteps f => float_nan_or_inf f
  | NodeSteps v =>
      match get_constant_value T v with
      | Some (SFloat f) => float_nan_or_inf f
      | _ => false
      end
  end.

(** [tensor.as_tensor(n_steps)]. *)
Definition as_tensor (n : n_steps_arg) : R expr :=
  match n with
  | NoneSteps => inl TypeError
  | IntSteps z => inr (EConstant (SInt z))
  | FloatSteps f => inr (EConstant (SFloat f))
  | NodeSteps v => inr v
  end.

(** Lines 470-476. *)
Definition lengths_vec_of (scan_seqs : list expr) (n : n_steps_arg)
    : R (list expr) :=
  let lengths_vec := map EShape0 scan_seqs in
  if negb (isNaN_or_Inf_or_None n)
  then let? t := as_tensor n in inr (lengths_vec ++ [t])
  else inr lengths_vec.

(** Lines 470-493: the trip count. *)
Definition actual_n_steps_of (scan_seqs : list expr) (n : n_steps_arg)
    : R expr :=
  let? lengths_vec := lengths_vec_of scan_seqs n in
  match lengths_vec with
  | [] => inl (ValueError msg_no_steps)
  | first :: rest =>
      if isNaN_or_Inf_or_None n
      then inr (foldl EMinimum first rest)
      else as_tensor n
  end.

(** ** Step 2, continued: time slices of the outputs (lines 519-634) *)

Record out_state := OutState {
  n_mit_sot : nat;
  mit_sot_scan_inputs : list expr;
  mit_sot_inner_inputs : list expr;
  mit_sot_inner_slices : list expr;
  mit_sot_return_steps : gmap nat Z;
  mit_sot_tap_array : list (list Z);
  mit_sot_rightOrder : list nat;
  n_sit_sot : nat;
  sit_sot_scan_inputs : list expr;
  sit_sot_inner_inputs : list expr;
  sit_sot_inner_slices : list expr;
  sit_sot_return_steps : gmap nat Z;
  sit_sot_rightOrder : list nat
}.

Definition empty_out_state : out_state :=
  OutState 0 [] [] [] ∅ [] [] 0 [] [] [] ∅ [].

(** [if i in return_steps: d[n] = return_steps[i]]. *)
Definition copy_return_steps (return_steps : gmap nat Z) (i n : nat)
    (d : gmap nat Z) : gmap nat Z :=
  match return_steps !! i with
  | Some r => <[n := r]> d
  | None => d
  end.

(** Lines 546-580: an output with taps [-1]. *)
Definition add_sit_sot (actual_n_steps : expr) (return_steps : gmap nat Z)
    (i : nat) (actual_arg : expr) (st : out_state) : out_state :=
  let arg := ENew (SiteSit i) actual_arg in
  OutState (n_mit_sot st) (mit_sot_scan_inputs st) (mit_sot_inner_inputs st)
    (mit_sot_inner_slices st) (mit_sot_return_steps st)
    (mit_sot_tap_array st) (mit_sot_rightOrder st)
    (S (n_sit_sot st))
    (sit_sot_scan_inputs st ++
       [EExpand (EUnbroadcast (EShapePadLeft actual_arg) 0) actual_n_steps])
    (sit_sot_inner_inputs st ++ [arg])
    (sit_sot_inner_slices st ++ [actual_arg])
    (copy_return_steps return_steps i (n_sit_sot st) (sit_sot_return_steps st))
    (sit_sot_rightOrder st ++ [i]).

(** Lines 589-631: an output with a list of taps other than [-1]. *)
Definition add_mit_sot (actual_n_steps : expr) (return_steps : gmap nat Z)
    (i : nat) (initial : expr) (k0 : Z) (l : list Z) (st : out_state)
    : out_state :=
  let mintap := Z.abs (numpy_min k0 l) in
  OutState (S (n_mit_sot st))
    (mit_sot_scan_inputs st ++
       [EExpand (ESlice initial None (Some mintap)) actual_n_steps])
    (mit_sot_inner_inputs st ++
       imap (λ j k, ENew (SiteMit i j) (EIndex initial (k + mintap))) (k0 :: l))
    (mit_sot_inner_slices st ++
       map (λ k, EIndex initial (k + mintap)) (k0 :: l))
    (copy_return_steps return_steps i (n_mit_sot st) (mit_sot_return_steps st))
    (mit_sot_tap_array st ++ [k0 :: l])
    (mit_sot_rightOrder st ++ [i])
    (n_sit_sot st) (sit_sot_scan_inputs st) (sit_sot_inner_inputs st)
    (sit_sot_inner_slices st) (sit_sot_return_steps st)
    (sit_sot_rightOrder st).

(** The body of the loop of lines 539-634. *)
Definition classify_out (actual_n_steps : expr) (return_steps : gmap nat Z)
    (iout : nat * out_dict) (st : out_state) : R out_state :=
  let '(i, init_out) := iout in
  if bool_decide (out_taps init_out = Some (TapsList [-1])) then
    match out_initial init_out with
    | None => inl KeyError
    | Some actual_arg =>
        inr (add_sit_sot actual_n_steps return_steps i actual_arg st)
    end
  else if taps_truthy (out_taps init_out) then
    match out_taps init_out with
    | Some (TapsList (k0 :: l)) =>
        if existsb (λ t, bool_decide (t > 0)) (k0 :: l)
        then inl (ValueError msg_future_taps)
        else match out_initial init_out with
             | None => inl KeyError
             | Some initial =>
                 inr (add_mit_sot actual_n_steps return_steps i initial k0 l st)
             end
    | Some (TapsInt k) =>
        if bool_decide (k > 0) then inl (ValueError msg_future_taps)
        else match out_initial init_out with
             | None => inl KeyError
             | Some _ => inl TypeError           (* for k in an int *)
             end
    | _ => inr st
    end
  else inr st.

Definition classify_outs (actual_n_steps : expr) (return_steps : gmap nat Z)
    (outs_info : list out_dict) : R out_state :=
  for_loop (classify_out actual_n_steps return_steps)
           (enumerate outs_info) empty_out_state.

(** ** Re-ordering the arguments of the step function (lines 636-679) *)

(** [numpy.max([-1] + l) + 1]. *)
Definition max_plus_1 (l : list nat) : nat :=
  Z.to_nat (numpy_max (-1) (Z.of_nat <$> l) + 1).

(** Lines 642-650. *)
Definition order_mit_sot (collapsible : bool) (st : out_state) (idx : nat)
    (acc : nat * list (list expr)) : R (nat * list (list expr)) :=
  let '(offset, _ordered_args) := acc in
  let? taps := list_get (mit_sot_tap_array st) idx in
  let n_inputs := length taps in
  let? pos := list_get (mit_sot_rightOrder st) idx in
  let chosen := if collapsible then mit_sot_inner_slices st
                else mit_sot_inner_inputs st in
  let? oa := list_set _ordered_args pos
               (list_slice chosen offset (offset + n_inputs)) in
  inr ((offset + n_inputs)%nat, oa).

(** Lines 652-658. *)
Definition order_sit_sot (collapsible : bool) (st : out_state) (idx : nat)
    (_ordered_args : list (list expr)) : R (list (list expr)) :=
  let? pos := list_get (sit_sot_rightOrder st) idx in
  let? x := list_get (if collapsible then sit_sot_inner_slices st
                      else sit_sot_inner_inputs st) idx in
  list_set _ordered_args pos [x].

(** Lines 637-671: the arguments given to the step function. *)
Definition step_args (collapsible : bool) (sq : seq_state) (st : out_state)
    (non_seqs : list expr) : R (list expr) :=
  let max_mit_sot := max_plus_1 (mit_sot_rightOrder st) in
  let max_sit_sot := max_plus_1 (sit_sot_rightOrder st) in
  let n_elems := Nat.max max_mit_sot max_sit_sot in
  let _ordered_args := replicate n_elems [] in
  let? acc := for_loop (order_mit_sot collapsible st)
                       (seq 0 (n_mit_sot st)) (0%nat, _ordered_args) in
  let? _ordered_args := for_loop (order_sit_sot collapsible st)
                                 (seq 0 (n_sit_sot st)) (snd acc) in
  let ordered_args := concat _ordered_args in
  inr ((if collapsible then inner_slices sq else inner_seqs sq)
         ++ ordered_args ++ non_seqs).

(** ** Step 3: one step only (lines 689-707) *)

Definition pad_output (return_steps : gmap nat Z) (pos : nat)
    (inner_out : expr) : expr :=
  if is_tensor_type T inner_out
     && bool_decide (default 0 (return_steps !! pos) ≠ 1)
  then EUnbroadcast (EShapePadLeft inner_out) 0
  else inner_out.

Definition single_step_outputs (return_steps : gmap nat Z)
    (outputs : list expr) : scan_outputs :=
  match imap (pad_output return_steps) outputs with
  | [o] => OutsSingle (Some o)
  | l => OutsList (Some <$> l)
  end.

(** ** Step 4: the probe (lines 725-741) *)

(** Lines 725-731. *)
Definition extra_inputs_of (outputs args : list expr) : list expr :=
  let all_inputs :=
    filter (λ x, is_shared x = false ∧ is_constant x = false)
           (graph_inputs T outputs) in
  filter (λ x, x ∉ args) all_inputs.

(** Modelled from the spec: [len(dummy_f.maker.outputs)], a field of the
    compiled probe, which is not part of this file.  The probe's output
    count is the number of outputs actually returned by the step function. *)
Definition probe_output_count (outputs : list expr) : nat := length outputs.

(** ** Step 5: the strict order of the inputs (lines 756-836) *)

(** Lines 756-763. *)
Definition check_outputs (outputs : list expr) (outs_info : list out_dict)
    : R (list out_dict) :=
  let n_outs := length outs_info in
  if negb (bool_decide (probe_output_count outputs = n_outs)
           || bool_decide (outs_info = []))
  then inl (ValueError msg_provide_none)
  else if bool_decide (outs_info = [])
       then inr (replicate (probe_output_count outputs) empty_out_dict)
       else inr outs_info.

(** Lines 768-776: [outputs[i]] for every entry that satisfies [P]. *)
Definition pick_outputs (P : out_dict → bool) (outputs : list expr)
    (outs_info : list out_dict) : R (list expr) :=
  for_loop (λ '(i, out) acc,
              if P out then let? o := list_get outputs i in inr (acc ++ [o])
              else inr acc)
           (enumerate outs_info) [].

Definition taps_not_m1 (out : out_dict) : bool :=
  bool_decide (is_Some (out_taps out))
  && negb (bool_decide (out_taps out = Some (TapsList [-1]))).

Definition taps_m1 (out : out_dict) : bool :=
  bool_decide (is_Some (out_taps out))
  && bool_decide (out_taps out = Some (TapsList [-1])).

(** [d[k] = v] on a dictionary kept as an association list. *)
Definition dict_set (d : list (expr * expr)) (k v : expr) : list (expr * expr) :=
  if decide (k ∈ d.*1)
  then (λ p, if decide (p.1 = k) then (k, v) else p) <$> d
  else d ++ [(k, v)].

Definition dict_update (d new : list (expr * expr)) : list (expr * expr) :=
  foldl (λ d p, dict_set d p.1 p.2) d new.

Record shared_state := SharedState {
  givens : list (expr * expr);
  n_shared_outs : nat;
  shared_scan_inputs : list expr;
  shared_inner_inputs : list expr;
  shared_inner_outputs : list expr
}.

(** Lines 785-794. *)
Definition add_shared (jin : nat * (expr * option expr)) (sh : shared_state)
    : shared_state :=
  let '(j, (variable, update)) := jin in
  match update with
  | Some upd =>
      if is_shared variable then
        let new_var := ENew (SiteShared j) variable in
        SharedState (dict_set (givens sh) variable new_var)
                    (S (n_shared_outs sh))
                    (shared_scan_inputs sh ++ [variable])
                    (shared_inner_inputs sh ++ [new_var])
                    (shared_inner_outputs sh ++ [upd])
      else sh
  | None => sh
  end.

Record nit_state := NitState {
  n_nit_sot : nat;
  nit_sot_inner_outputs : list expr;
  nit_sot_return_steps : gmap nat Z;
  nit_sot_rightOrder : list nat
}.

(** Lines 801-807. *)
Definition add_nit_sot (outputs : list expr) (return_steps : gmap nat Z)
    (iout : nat * out_dict) (ns : nit_state) : R nit_state :=
  let '(i, out) := iout in
  if bool_decide (is_Some (out_taps out)) then inr ns
  else
    let? o := list_get outputs i in
    inr (NitState (S (n_nit_sot ns))
                  (nit_sot_inner_outputs ns ++ [o])
                  (copy_return_steps return_steps i (n_nit_sot ns)
                                     (nit_sot_return_steps ns))
                  (nit_sot_rightOrder ns ++ [i])).

(** Lines 856-872. *)
Definition new_givens_of (givens : list (expr * expr)) (inner_outs : list expr)
    : list (expr * expr) :=
  if cuda_available T then
    foldl (λ new_givens '(w, w_copy),
             if is_cuda_type T w && is_tensor_type T w_copy
             then foldl (λ ng o, traverse T o w w_copy ng) new_givens inner_outs
             else dict_set new_givens w w_copy)
          [] givens
  else givens.

(** ** Step 9: unpacking the outputs of the scan op (lines 922-958) *)

(** The body of the loop of [remove_dimensions]: what is appended to
    [out_ls] for the output [out] at position [idx]. *)
Definition remove_dimension (steps_return : gmap nat Z)
    (offsets : option (list Z)) (idx : nat) (out : expr) : R expr :=
  match steps_return !! idx with
  | Some k =>
      if decide (k > 1)
      then inr (ESlice out (Some (- k)) None)
      else inr (EIndex out (-1))
  | None =>
      match offsets with
      | None => inr out
      | Some offs =>
          let? off := list_get offs idx in
          inr (ESlice out (Some off) None)
      end
  end.

Definition remove_dimensions (outs : list expr) (steps_return : gmap nat Z)
    (offsets : option (list Z)) : R (list expr) :=
  for_loop (λ '(idx, out) out_ls,
              let? o := remove_dimension steps_return offsets idx out in
              inr (out_ls ++ [o]))
           (enumerate outs) [].

(** [abs(numpy.min(x))] for the entries of [mit_sot_tap_array]. *)
Definition tap_offset (x : list Z) : R Z :=
  match x with
  | [] => inl (ValueError msg_zero_size)
  | k0 :: l => inr (Z.abs (numpy_min k0 l))
  end.

Fixpoint tap_offsets (xs : list (list Z)) : R (list Z) :=
  match xs with
  | [] => inr []
  | x :: xs' =>
      let? o := tap_offset x in
      let? os := tap_offsets xs' in
      inr (o :: os)
  end.

(** ** Step 10: the order expected by the user (lines 960-974) *)

(** Lines 968-970. *)
Definition scatter (rightOrder : list nat) (_scan_out_list : list expr)
    : R (list (option expr)) :=
  for_loop (λ '(idx, pos) scan_out_list,
              let? x := list_get _scan_out_list idx in
              list_set scan_out_list pos (Some x))
           (enumerate rightOrder)
           (replicate (length rightOrder) None).

(** Lines 971-974. *)
Definition unwrap_outputs (scan_out_list : list (option expr)) : scan_outputs :=
  match scan_out_list with
  | [] => OutsNone
  | [o] => OutsSingle o
  | l => OutsList l
  end.

(** ** The whole routine *)

(** What steps 1 and 2 hand over to the rest of [scan]. *)
Record prepared := Prepared {
  p_n_fixed_steps : option scalar;
  p_outs_info : list out_dict;
  p_return_steps : gmap nat Z;
  p_seqs : list seq_dict;
  p_sq : seq_state;
  p_actual_n_steps : expr;
  p_st : out_state;
  p_non_seqs : list expr;
  p_args : list expr
}.

(** Lines 313-671. *)
Definition scan_prepare (c : scan_call) : M prepared :=
  let seqs := wrap_into_list (sequences c) in
  let outs_info := wrap_into_list (outputs_info c) in
  let non_seqs := wrap_into_list (non_sequences c) in
  do n_fixed_steps <- lift (n_fixed_steps_of (n_steps c));
  do _ <- lift (check_n_steps_dtype (n_steps c));
  let seqs := wrap_seq <$> seqs in
  do '(outs_info, return_steps) <- wrap_outs 0 outs_info ∅;
  do sq <- lift (for_loop (seq_slices (go_backwards c)) (enumerate seqs)
                          empty_seq_state);
  do actual_n_steps <- lift (actual_n_steps_of (scan_seqs sq) (n_steps c));
  do st <- lift (classify_outs actual_n_steps return_steps outs_info);
  do args <- lift (step_args (in_1_m1 n_fixed_steps) sq st non_seqs);
  ret (Prepared n_fixed_steps outs_info return_steps seqs sq actual_n_steps
                st non_seqs args).

(** What steps 5 to 8 hand over to the scan op and to step 9. *)
Record arranged := Arranged {
  a_sh : shared_state;
  a_ns : nit_state;
  a_info : scan_info;
  a_inner_inputs : list expr;
  a_new_outs : list expr;
  a_scan_inputs : list expr
}.

(** Lines 756-912: steps 5 to 8, up to the call of the scan op. *)
Definition arrange (c : scan_call) (p : prepared) (outputs : list expr)
    (extra_inputs : list expr) (dummy_inputs : list (expr * option expr))
    : R arranged :=
  let sq := p_sq p in
  let st := p_st p in
  let return_steps := p_return_steps p in
  let actual_n_steps := p_actual_n_steps p in
  let non_seqs := p_non_seqs p ++ extra_inputs in
  (* Step 5 *)
  let? outs_info := check_outputs outputs (p_outs_info p) in
  let? mit_sot_inner_outputs := pick_outputs taps_not_m1 outputs outs_info in
  let? sit_sot_inner_outputs := pick_outputs taps_m1 outputs outs_info in
  let sh := foldl (λ sh jin, add_shared jin sh) (SharedState [] 0 [] [] [])
                  (enumerate dummy_inputs) in
  let? ns := for_loop (add_nit_sot outputs return_steps)
                      (enumerate outs_info) (NitState 0 [] ∅ []) in
  let other_scan_args := filter (λ arg, is_shared arg = false) non_seqs in
  let other_inner_args := imap (λ j arg, ENew (SiteNonSeq j) arg)
                               other_scan_args in
  let givens := dict_update (givens sh) (zip other_scan_args other_inner_args) in
  let other_shared_scan_args :=
    (fst <$> filter (λ arg, is_shared arg.1 = true ∧ arg.2 = None)
                    dummy_inputs) in
  let other_shared_inner_args :=
    imap (λ j arg, ENew (SiteOtherShared j) arg) other_shared_scan_args in
  let givens := dict_update givens
                  (zip other_shared_scan_args other_shared_inner_args) in
  (* Step 6 *)
  let inner_inputs := inner_seqs sq ++ mit_sot_inner_inputs st
                      ++ sit_sot_inner_inputs st ++ shared_inner_inputs sh
                      ++ other_shared_inner_args ++ other_inner_args in
  let inner_outs := mit_sot_inner_outputs ++ sit_sot_inner_outputs
                    ++ nit_sot_inner_outputs ns ++ shared_inner_outputs sh in
  let new_outs := clone T inner_outs (new_givens_of givens inner_outs) in
  (* Step 7 *)
  let tap_array := mit_sot_tap_array st ++ replicate (n_sit_sot st) [-1] in
  let info := ScanInfo tap_array (n_seqs sq) 0 0 [] (n_mit_sot st)
                       (n_sit_sot st) (n_shared_outs sh) (n_nit_sot ns)
                       (truncate_gradient c) (name c) (mode c) false false in
  (* Step 8 *)
  let scan_inputs := scan_seqs sq ++ mit_sot_scan_inputs st
                     ++ sit_sot_scan_inputs st ++ shared_scan_inputs sh
                     ++ replicate (n_nit_sot ns) actual_n_steps
                     ++ other_shared_scan_args ++ other_scan_args in
  let scan_inputs := safe_to_cpu T <$> (actual_n_steps :: scan_inputs) in
  inr (Arranged sh ns info inner_inputs new_outs scan_inputs).

(** Lines 921-974: steps 9 and 10, on the outputs of the scan op. *)
Definition unpack (p : prepared) (a : arranged) (scan_outs : list expr)
    : R (scan_outputs * update_dict) :=
  let st := p_st p in
  let sh := a_sh a in
  let ns := a_ns a in
  (* Step 9 *)
  let offset := 0%nat in
  let? offsets := tap_offsets (mit_sot_tap_array st) in
  let? mit_sot_outs :=
    remove_dimensions (list_slice scan_outs offset (offset + n_mit_sot st))
                      (mit_sot_return_steps st) (Some offsets) in
  let offset := (offset + n_mit_sot st)%nat in
  let offsets := replicate (n_sit_sot st) 1 in
  let? sit_sot_outs :=
    remove_dimensions (list_slice scan_outs offset (offset + n_sit_sot st))
                      (sit_sot_return_steps st) (Some offsets) in
  let offset := (offset + n_sit_sot st)%nat in
  let? nit_sot_outs :=
    remove_dimensions (list_slice scan_outs offset (offset + n_nit_sot ns))
                      (nit_sot_return_steps ns) None in
  let offset := (offset + n_nit_sot ns)%nat in
  let? update_map :=
    for_loop (λ '(idx, update_rule) update_map,
                let? k := list_get (shared_scan_inputs sh) idx in
                inr (dict_set update_map k update_rule))
             (enumerate (list_slice scan_outs offset
                                    (offset + n_shared_outs sh)))
             [] in
  (* Step 10 *)
  let _scan_out_list := mit_sot_outs ++ sit_sot_outs ++ nit_sot_outs in
  let rightOrder := mit_sot_rightOrder st ++ sit_sot_rightOrder st
                    ++ nit_sot_rightOrder ns in
  let? scan_out_list := scatter rightOrder _scan_out_list in
  inr (unwrap_outputs scan_out_list, update_map).

(** Lines 725-974: the path through the scan op. *)
Definition scan_loop (c : scan_call) (p : prepared) (outputs : list expr)
    (updates : update_dict) : M (scan_outputs * update_dict) :=
  (* Step 4 *)
  let extra_inputs := extra_inputs_of outputs (p_args p) in
  let dummy_args := filter (λ arg, is_shared arg = false) (p_args p)
                    ++ extra_inputs in
  do _ <- emit (EvCompileProbe dummy_args outputs);
  let dummy_inputs := expanded_inputs T dummy_args outputs updates in
  (* Steps 5 to 8 *)
  do a <- lift (arrange c p outputs extra_inputs dummy_inputs);
  do _ <- emit (EvBuildScanOp (a_info a) (a_inner_inputs a) (a_new_outs a));
  do _ <- emit (EvApplyScanOp (a_scan_inputs a));
  let scan_outs := scan_op_apply T (a_info a) (a_inner_inputs a)
                                 (a_new_outs a) (a_scan_inputs a) in
  (* Steps 9 and 10 *)
  lift (unpack p a scan_outs).

(** [scan], lines 68-976. *)
Definition scan (c : scan_call) : M (scan_outputs * update_dict) :=
  do p <- scan_prepare c;
  do _ <- emit (EvCallFn (p_args p));
  let '(outputs, updates) := fn c (p_args p) in
  if in_1_m1 (p_n_fixed_steps p)
  then ret (single_step_outputs (p_return_steps p) outputs, updates)
  else scan_loop c p outputs updates.

End Scan.

(** ** The meaning of the graph nodes

    The values that the nodes built by [scan] denote, for the nodes whose
    meaning the properties below depend on: indexing, slicing and reversing
    along the leading axis, the length of the leading axis and the minimum
    of two integers, all as Python and numpy define them. *)

Local Unset Elimination Schemes.
Inductive tval :=
| TScalar (z : Z)
| TArray (items : list tval).
Local Set Elimination Schemes.

(** [l[k]] for a possibly negative [k]. *)
Definition py_index {A} (l : list A) (k : Z) : option A :=
  if decide (0 ≤ k) then l !! Z.to_nat k
  else if decide (0 ≤ k + Z.of_nat (length l))
       then l !! Z.to_nat (k + Z.of_nat (length l))
       else None.

(** The position a slice bound stands for in a list of length [n]. *)
Definition slice_bound (n : nat) (dflt : nat) (b : option Z) : nat :=
  match b with
  | None => dflt
  | Some k =>
      if decide (0 ≤ k) then Nat.min (Z.to_nat k) n
      else Z.to_nat (Z.max 0 (k + Z.of_nat n))
  end.

(** [l[start:stop]]. *)
Definition py_slice {A} (l : list A) (start stop : option Z) : list A :=
  let n := length l in
  let a := slice_bound n 0%nat start in
  let b := slice_bound n n stop in
  take (b - a) (drop a l).

Fixpoint eval (env : string → option tval) (e : expr) : option tval :=
  match e with
  | EVar x => env x
  | EShared x => env x
  | EConstant (SInt z) => Some (TScalar z)
  | EIndex a k =>
      match eval env a with
      | Some (TArray l) => py_index l k
      | _ => None
      end
  | ESlice a start stop =>
      match eval env a with
      | Some (TArray l) => Some (TArray (py_slice l start stop))
      | _ => None
      end
  | EReverse a =>
      match eval env a with
      | Some (TArray l) => Some (TArray (reverse l))
      | _ => None
      end
  | EShape0 a =>
      match eval env a with
      | Some (TArray l) => Some (TScalar (Z.of_nat (length l)))
      | _ => None
      end
  | EMinimum a b =>
      match eval env a, eval env b with
      | Some (TScalar x), Some (TScalar y) => Some (TScalar (Z.min x y))
      | _, _ => None
      end
  | _ => None
  end.

(** The number of axes of a value; an empty array counts its one axis. *)
Fixpoint ndim (v : tval) : nat :=
  match v with
  | TScalar _ => 0
  | TArray [] => 1
  | TArray (x :: _) => S (ndim x)
  end.

(** ** Vocabulary of the properties *)

(** An event that builds or runs something outside [scan]. *)
Definition is_warning (ev : event) : bool :=
  match ev with EvWarning _ => true | _ => false end.

(** An event of the path through the loop operator. *)
Definition loop_event (ev : event) : bool :=
  match ev with
  | EvCompileProbe _ _ | EvBuildScanOp _ _ _ | EvApplyScanOp _ => true
  | _ => false
  end.

(** The output found at position [pos] of what [scan] returns. *)
Definition nth_output (r : scan_outputs) (pos : nat) : option expr :=
  match r with
  | OutsNone => None
  | OutsSingle o => if decide (pos = 0%nat) then o else None
  | OutsList l => mjoin (l !! pos)
  end.

(** The categories of a wrapped [outputs_info] entry, as the loops of
    lines 539-634 and 801-807 tell them apart. *)
Definition is_sit_sot (d : out_dict) : bool :=
  bool_decide (out_taps d = Some (TapsList [-1])).

Definition is_mit_sot (d : out_dict) : bool :=
  negb (is_sit_sot d) && taps_truthy (out_taps d).

Definition is_nit_sot (d : out_dict) : bool :=
  negb (bool_decide (is_Some (out_taps d))).

Definition classified (d : out_dict) : bool :=
  is_sit_sot d || is_mit_sot d || is_nit_sot d.

(** An entry that the loop of lines 354-382 lets through: taps come with an
    initial state. *)
Definition wrapped_out (d : out_dict) : Prop :=
  taps_truthy (out_taps d) = true → is_Some (out_initial d).

(** What the loop of lines 354-382 turns an entry into, when it does not
    raise. *)
Definition wrapped (o : out_entry) : out_dict :=
  match o with
  | OutNone => empty_out_dict
  | OutNode e => OutD (Some e) (Some (TapsList [-1])) None
  | OutDict d =>
      if bool_decide (is_Some (out_initial d)) && negb (taps_truthy (out_taps d))
      then OutD (out_initial d) (Some (TapsList [-1])) (out_return_steps d)
      else d
  end.

(** The positions of the entries of [l] that satisfy [P], in order. *)
Definition positions {A} (P : A → bool) (l : list A) : list nat :=
  (filter (λ p, P p.2 = true) (enumerate l)).*1.

(** The return_steps that entry [o] declares, as line 357 reads it. *)
Definition declared_return_steps (o : out_entry) : option Z :=
  match o with
  | OutDict d =>
      match out_return_steps d with
      | Some r => if decide (r ≠ 0) then Some r else None
      | None => None
      end
  | _ => None
  end.

(** ** Concrete collaborators and calls

    A plain instance of the collaborators: constants fold to their value,
    every node is a tensor, nothing is shared or on a device, and the scan
    op returns one buffer per output. *)
Definition plain_theano : theano :=
  Theano (λ e, match e with
               | EConstant (SFloat _) => "float64"
               | EVar name => if decide (name = "steps_f") then "float32"
                              else "int64"
               | _ => "int64"
               end%string)
         (λ e, match e with EConstant v => Some v | _ => None end)
         (λ _, true) (λ _, []) (λ _ _ _, []) (λ outs _, outs)
         false (λ _, false) (λ _ _ _ g, g) (λ x, x)
         (λ info _ _ _,
            (λ i, EOp1 "scan_out" (EConstant (SInt (Z.of_nat i))))
              <$> seq 0 (info_n_mit_sot info + info_n_sit_sot info
                         + info_n_nit_sot info + info_n_shared_outs info)).

(** [lambda x_t, acc_prev: acc_prev + x_t] *)
Definition add_fn : step_fn := λ args,
  match args with
  | [x; acc] => ([EOp2 "add" acc x], [])
  | _ => ([], [])
  end.

(** [scan(add_fn, sequences=[x], outputs_info=[acc0], n_steps=n)] *)
Definition running_sum (n : n_steps_arg) : scan_call :=
  ScanCall add_fn (ArgList [SeqNode (EVar "x")])
           (ArgList [OutNode (EVar "acc0")]) ArgNone n (-1) false None None.

(** The value of [n_steps] is of an integral type. *)
Definition integral_n_steps (T : theano) (n : n_steps_arg) : bool :=
  match n with
  | NoneSteps => true
  | IntSteps _ => true
  | FloatSteps _ => false
  | NodeSteps v =>
      let p := String.substring 0 3 (dtype_of T v) in
      bool_decide (p = "uin" ∨ p = "int")
  end.

(** The reading of the specification: any supplied [n_steps] that is not
    of an integral type makes [scan] raise a configuration error. *)
Definition non_integral_n_steps_rejected : Prop :=
  ∀ T c, n_steps c ≠ NoneSteps → integral_n_steps T (n_steps c) = false →
    ∃ tr msg, scan T c = (tr, inl (ValueError msg)).

(** The reading of the specification for a call with sequences and an
    [n_steps] that is a graph node without a constant value: in every
    environment, the trip count denotes the minimum of [n_steps] and the
    lengths of the windowed sequences. *)
Definition trip_count_is_minimum : Prop :=
  ∀ T c v tr p env lens k,
    n_steps c = NodeSteps v →
    get_constant_value T v = None →
    wrap_into_list (sequences c) ≠ [] →
    scan_prepare T c = (tr, inr p) →
    Forall2 (λ s len, eval env (EShape0 s) = Some (TScalar len))
            (scan_seqs (p_sq p)) lens →
    eval env v = Some (TScalar k) →
    eval env (p_actual_n_steps p) = Some (TScalar (numpy_min k lens)).

(** An environment where [x] has three rows and the scalar [n] is 5. *)
Definition env_3_rows_5_steps (name : string) : option tval :=
  if decide (name = "x") then Some (TArray [TScalar 7; TScalar 8; TScalar 9])
  else if decide (name = "n") then Some (TScalar 5)
  else None.

(** What the loop of lines 539-634 has built after the first [k] entries
    of the wrapped [outputs_info] list [l]. *)
Definition out_state_inv (l : list out_dict) (rs : gmap nat Z) (k : nat)
    (st : out_state) : Prop :=
  mit_sot_rightOrder st = positions is_mit_sot (take k l)
  ∧ sit_sot_rightOrder st = positions is_sit_sot (take k l)
  ∧ n_mit_sot st = length (mit_sot_rightOrder st)
  ∧ n_sit_sot st = length (sit_sot_rightOrder st)
  ∧ length (mit_sot_tap_array st) = n_mit_sot st
  ∧ Forall (λ x, x ≠ []) (mit_sot_tap_array st)
  ∧ (∀ j, mit_sot_return_steps st !! j
          = mit_sot_rightOrder st !! j ≫= (rs !!.))
  ∧ (∀ j, sit_sot_return_steps st !! j
          = sit_sot_rightOrder st !! j ≫= (rs !!.)).

(** The same for the loop of lines 801-807. *)
Definition nit_state_inv (l : list out_dict) (rs : gmap nat Z)
    (outputs : list expr) (k : nat) (ns : nit_state) : Prop :=
  nit_sot_rightOrder ns = positions is_nit_sot (take k l)
  ∧ n_nit_sot ns = length (nit_sot_rightOrder ns)
  ∧ length (nit_sot_inner_outputs ns) = n_nit_sot ns
  ∧ (∀ j, nit_sot_inner_outputs ns !! j
          = nit_sot_rightOrder ns !! j ≫= (outputs !!.))
  ∧ (∀ j, nit_sot_return_steps ns !! j
          = nit_sot_rightOrder ns !! j ≫= (rs !!.)).

(** [scan(add_fn, sequences=[x], outputs_info=[acc0, None], n_steps=n)]:
    two outputs are declared and the step function returns one. *)
Definition two_declared_one_returned (n : n_steps_arg) : scan_call :=
  ScanCall (λ args, ([EOp2 "add" (EVar "a") (EVar "b")], []))
           (ArgList [SeqNode (EVar "x")])
           (ArgList [OutNode (EVar "acc0"); OutNone]) ArgNone n (-1) false
           None None.

(** [r] is what [remove_dimensions] can make of the buffer [buf]: the
    buffer itself, one of its slices [buf[a:]], or its last entry. *)
Definition trimmed (buf r : expr) : Prop :=
  r = buf ∨ (∃ a, r = ESlice buf (Some a) None) ∨ r = EIndex buf (-1).

(** The last clause of the claim on the returned outputs, as written:
    whenever no output is declared, [scan] returns [None] for them. *)
Definition none_declared_returns_none : Prop :=
  ∀ T c tr out upd,
    wrap_into_list (outputs_info c) = [] →
    scan T c = (tr, inr (out, upd)) →
    out = OutsNone.

(** [scan(lambda x_t: 2 * x_t, sequences=[x], n_steps=n)] *)
Definition double_each (n : n_steps_arg) : scan_call :=
  ScanCall (λ args, match args with
                    | [x] => ([EOp2 "mul" (EConstant (SInt 2)) x], [])
                    | _ => ([], [])
                    end)
           (ArgList [SeqNode (EVar "x")]) ArgNone ArgNone n (-1)
           false None None.

(** [scan(fn, sequences=[x], outputs_info=[None, dict(initial=y0,
    taps=[-2, -1]), acc0], n_steps=n)] with a step function of three
    outputs: one entry of each category. *)
Definition one_of_each : scan_call :=
  ScanCall (λ args, ([EOp1 "f" (EVar "a"); EOp1 "g" (EVar "b");
                      EOp1 "h" (EVar "c")], []))
           (ArgList [SeqNode (EVar "x")])
           (ArgList [OutNone;
                     OutDict (OutD (Some (EVar "y0"))
                                   (Some (TapsList [-2; -1])) None);
                     OutNode (EVar "acc0")])
           ArgNone (NodeSteps (EVar "n")) (-1) false None None.

(** [scan(add_fn, sequences=seqs, outputs_info=outs, n_steps=n)] *)
Definition plain_call (seqs : pyarg seq_entry) (outs : pyarg out_entry)
    (n : n_steps_arg) : scan_call :=
  ScanCall add_fn seqs outs ArgNone n (-1) false None None.

(** An [outputs_info] entry for which line 374 logs a warning: a
    dictionary with an initial state whose key ['taps'] is present and
    holds a value that is false in a condition. *)
Definition warned (o : out_entry) : bool :=
  match o with
  | OutDict d =>
      bool_decide (is_Some (out_initial d))
      && negb (taps_truthy (out_taps d))
      && bool_decide (is_Some (out_taps d))
  | _ => false
  end.

(** The taps of a wrapped sequence, when it has some. *)
Definition seq_tap_list (d : seq_dict) : list Z :=
  match seq_taps d with
  | Some (TapsList l) => l
  | _ => []
  end.

(** The window of [input] that lines 447-458 hand to the scan op for the
    tap [k] of a sequence whose least and greatest taps are [mintap] and
    [maxtap]. *)
Definition seq_window (go_backwards : bool) (input : expr)
    (mintap maxtap k : Z) : expr :=
  let offset := if decide (maxtap < 0) then Z.abs maxtap else 0 in
  let w :=
    if decide (maxtap = mintap ∧ maxtap ≠ 0)
    then ESlice input None (Some (Z.abs maxtap))
    else if decide (maxtap - k ≠ 0)
    then ESlice input (Some (offset + k - mintap)) (Some (- (maxtap - k)))
    else ESlice input (Some (offset + k - mintap)) None in
  if go_backwards then EReverse w else w.

(** The arguments that sequence number [i] contributes to the step
    function: the actual slices on the single-step path, placeholders
    otherwise. *)
Definition seq_placeholders (single_step : bool) (i : nat) (d : seq_dict)
    : list expr :=
  match seq_tap_list d with
  | [] => []
  | k0 :: l =>
      imap (λ j k,
              let slice := EIndex (seq_input d) (k - numpy_min k0 l) in
              if single_step then slice else ENew (SiteSeq i j) slice)
           (k0 :: l)
  end.

(** The windows that sequence [d] contributes to the inputs of the scan
    op. *)
Definition seq_windows (go_backwards : bool) (d : seq_dict) : list expr :=
  match seq_tap_list d with
  | [] => []
  | k0 :: l =>
      seq_window go_backwards (seq_input d) (numpy_min k0 l) (numpy_max k0 l)
        <$> (k0 :: l)
  end.

(** The arguments that entry number [i] of the wrapped [outputs_info]
    contributes to the step function (lines 546-606): the actual slices of
    the initial state on the single-step path, placeholders otherwise; an
    entry without initial state or without taps contributes none. *)
Definition out_placeholders (single_step : bool) (i : nat) (d : out_dict)
    : list expr :=
  match out_initial d with
  | None => []
  | Some initial =>
      if is_sit_sot d
      then [if single_step then initial else ENew (SiteSit i) initial]
      else if taps_truthy (out_taps d) then
        match out_taps d with
        | Some (TapsList (k0 :: l)) =>
            let mintap := Z.abs (numpy_min k0 l) in
            imap (λ j k, let slice := EIndex initial (k + mintap) in
                         if single_step then slice
                         else ENew (SiteMit i j) slice)
                 (k0 :: l)
        | _ => []
        end
      else []
  end.

(** The entries of [l] that satisfy [P], with their positions. *)
Definition entries {A} (P : A → bool) (l : list A) : list (nat * A) :=
  filter (λ p, P p.2 = true) (enumerate l).

(** What the loop of lines 539-634 has collected for the step function
    after the first [k] entries of [l]. *)
Definition chunks_inv (l : list out_dict) (k : nat) (st : out_state) : Prop :=
  ∀ b : bool,
    (if b then mit_sot_inner_slices st else mit_sot_inner_inputs st)
    = concat ((λ p, out_placeholders b p.1 p.2)
                <$> entries is_mit_sot (take k l))
    ∧ length <$> mit_sot_tap_array st
      = (λ p, length (out_placeholders b p.1 p.2))
          <$> entries is_mit_sot (take k l)
    ∧ (λ x, [x]) <$> (if b then sit_sot_inner_slices st
                      else sit_sot_inner_inputs st)
      = (λ p, out_placeholders b p.1 p.2) <$> entries is_sit_sot (take k l).

(** What the loops of lines 642-658 have put into [_ordered_args] once the
    entries [done] are dealt with. *)
Definition ordered_inv (b : bool) (l : list out_dict) (n : nat)
    (done : list (nat * out_dict)) (oa : list (list expr)) : Prop :=
  length oa = n
  ∧ (∀ i x, oa !! i = Some x →
            x = [] ∨ ∃ d, l !! i = Some d ∧ x = out_placeholders b i d)
  ∧ (∀ i d, (i, d) ∈ done →
            l !! i = Some d ∧ oa !! i = Some (out_placeholders b i d)).

(** Two runs that raise the same exception, or return related results. *)
Definition sum_rel {A B} (Rel : A → B → Prop) (r : R A) (r' : R B) : Prop :=
  match r, r' with
  | inl e, inl e' => e = e'
  | inr a, inr b => Rel a b
  | _, _ => False
  end.

(** Two states of the loop of lines 539-634 that differ at most in what
    they hold for the scan op. *)
Definition same_inner (st st' : out_state) : Prop :=
  n_mit_sot st = n_mit_sot st'
  ∧ mit_sot_inner_inputs st = mit_sot_inner_inputs st'
  ∧ mit_sot_inner_slices st = mit_sot_inner_slices st'
  ∧ mit_sot_return_steps st = mit_sot_return_steps st'
  ∧ mit_sot_tap_array st = mit_sot_tap_array st'
  ∧ mit_sot_rightOrder st = mit_sot_rightOrder st'
  ∧ n_sit_sot st = n_sit_sot st'
  ∧ sit_sot_inner_inputs st = sit_sot_inner_inputs st'
  ∧ sit_sot_inner_slices st = sit_sot_inner_slices st'
  ∧ sit_sot_return_steps st = sit_sot_return_steps st'
  ∧ sit_sot_rightOrder st = sit_sot_rightOrder st'.

(** [scan(fn, sequences, outputs_info, non_sequences, n_steps=-1,
    truncate_gradient=5, go_backwards=True, mode='m', name='nm')] for the
    running sum. *)
Definition running_sum_backwards : scan_call :=
  ScanCall add_fn (ArgList [SeqNode (EVar "x")])
           (ArgList [OutNode (EVar "acc0")]) ArgNone (IntSteps (-1)) 5 true
           (Some "m"%string) (Some "nm"%string).

(** The plain collaborators, with a probe whose expanded inputs are the
    variables updated by the step function, each with its update. *)
Definition updating_theano : theano :=
  Theano (dtype_of plain_theano) (get_constant_value plain_theano)
         (is_tensor_type plain_theano) (graph_inputs plain_theano)
         (λ _ _ updates, (λ p, (p.1, Some p.2)) <$> updates)
         (clone plain_theano) false (is_cuda_type plain_theano)
         (traverse plain_theano) (safe_to_cpu plain_theano)
         (scan_op_apply plain_theano).

(** [scan(lambda: {count: count + 1}, n_steps=5)] for a shared variable
    [count]. *)
Definition counter : scan_call :=
  ScanCall (λ _, ([], [(EShared "count",
                        EOp2 "add" (EShared "count") (EConstant (SInt 1)))]))
           ArgNone ArgNone ArgNone (IntSteps 5) (-1) false None None.

(** [len(scan_out_list)] before lines 971-974 unwrap the list. *)
Definition outputs_count (r : scan_outputs) : nat :=
  match r with
  | OutsNone => 0
  | OutsSingle _ => 1
  | OutsList l => length l
  end.

(** [scan(fn, outputs_info=[y0, dict(taps=None)], n_steps=5)] with a step
    function of two outputs: the second entry has the key ['taps'] and no
    initial state. *)
Definition one_entry_without_category : scan_call :=
  ScanCall (λ args, ([EOp1 "f" (EVar "a"); EOp1 "g" (EVar "b")], []))
           ArgNone
           (ArgList [OutNode (EVar "y0");
                     OutDict (OutD None (Some TapsNone) None)])
           ArgNone (IntSteps 5) (-1) false None None.

(** The plain collaborators, with a scan op whose outputs are the entries
    of the variable [scan_outs]: output number [i] is [scan_outs[i]]. *)
Definition buffers_theano : theano :=
  Theano (dtype_of plain_theano) (get_constant_value plain_theano)
         (is_tensor_type plain_theano) (graph_inputs plain_theano)
         (expanded_inputs plain_theano) (clone plain_theano) false
         (is_cuda_type plain_theano) (traverse plain_theano)
         (safe_to_cpu plain_theano)
         (λ info _ _ _,
            (λ i, EIndex (EVar "scan_outs") (Z.of_nat i))
              <$> seq 0 (info_n_mit_sot info + info_n_sit_sot info
                         + info_n_nit_sot info + info_n_shared_outs info)).

(** [scan(lambda *args: y_next, sequences=[x],
    outputs_info=[dict(initial=y0, taps=taps, return_steps=rs)],
    n_steps=2)]: one recurrent output, computed for two steps. *)
Definition history_call (taps : list Z) (rs : option Z) : scan_call :=
  ScanCall (λ _, ([EVar "y_next"], [])) (ArgList [SeqNode (EVar "x")])
           (ArgList [OutDict (OutD (Some (EVar "y0")) (Some (TapsList taps))
                                   rs)])
           ArgNone (IntSteps 2) (-1) false None None.

(** The value of the one output that [scan] returns for the call [c]. *)
Definition returned_value (T : theano) (c : scan_call)
    (env : string → option tval) : option tval :=
  match scan T c with
  | (_, inr (OutsSingle (Some r), _)) => eval env r
  | _ => None
  end.

(** ** Basic facts about computations *)

Lemma bind_lift_inr {A B} (a : A) (k : A → M B) : bind (lift (inr a)) k = k a.
Proof. unfold bind, lift. by destruct (k a). Qed.

Lemma bind_lift_inl {A B} (e : exn) (k : A → M B) :
  bind (lift (inl e)) k = ([], inl e).
Proof. done. Qed.

Lemma bind_ok {A B} (tr : list event) (a : A) (k : A → M B) :
  bind (tr, inr a) k = (tr ++ (k a).1, (k a).2).
Proof. unfold bind. by destruct (k a). Qed.

Lemma bind_err {A B} (tr : list event) (e : exn) (k : A → M B) :
  bind (tr, inl e) k = (tr, inl e).
Proof. done. Qed.

Lemma bind_inv_ok {A B} (m : M A) (k : A → M B) tr b :
  bind m k = (tr, inr b) →
  ∃ tr1 a tr2, m = (tr1, inr a) ∧ k a = (tr2, inr b) ∧ tr = tr1 ++ tr2.
Proof.
  destruct m as [tr1 [e|a]]; simpl; [done|].
  destruct (k a) as [tr2 r] eqn:Hk. intros [= <- ->]. by exists tr1, a, tr2.
Qed.

Lemma lift_inv_ok {A} (r : R A) tr (a : A) :
  lift r = (tr, inr a) → r = inr a ∧ tr = [].
Proof. unfold lift. by intros [= <- ->]. Qed.

Section Facts.

Context (T : theano).

(** What a successful run of steps 1 and 2 has established. *)
Lemma scan_prepare_inv c tr p :
  scan_prepare T c = (tr, inr p) →
  n_fixed_steps_of T (n_steps c) = inr (p_n_fixed_steps p)
  ∧ check_n_steps_dtype T (n_steps c) = inr tt
  ∧ wrap_outs 0 (wrap_into_list (outputs_info c)) ∅
    = (tr, inr (p_outs_info p, p_return_steps p))
  ∧ p_seqs p = wrap_seq <$> wrap_into_list (sequences c)
  ∧ for_loop (seq_slices (go_backwards c)) (enumerate (p_seqs p))
             empty_seq_state = inr (p_sq p)
  ∧ actual_n_steps_of T (scan_seqs (p_sq p)) (n_steps c)
    = inr (p_actual_n_steps p)
  ∧ classify_outs (p_actual_n_steps p) (p_return_steps p) (p_outs_info p)
    = inr (p_st p)
  ∧ p_non_seqs p = wrap_into_list (non_sequences c)
  ∧ step_args (in_1_m1 (p_n_fixed_steps p)) (p_sq p) (p_st p) (p_non_seqs p)
    = inr (p_args p).
Proof.
  unfold scan_prepare. intros H.
  apply bind_inv_ok in H as (t1 & nf & t1' & H1 & H & ->).
  apply lift_inv_ok in H1 as [H1 ->].
  apply bind_inv_ok in H as (t2 & [] & t2' & H2 & H & ->).
  apply lift_inv_ok in H2 as [H2 ->].
  apply bind_inv_ok in H as (t3 & [oi rs] & t3' & H3 & H & ->).
  apply bind_inv_ok in H as (t4 & sq & t4' & H4 & H & ->).
  apply lift_inv_ok in H4 as [H4 ->].
  apply bind_inv_ok in H as (t5 & ans & t5' & H5 & H & ->).
  apply lift_inv_ok in H5 as [H5 ->].
  apply bind_inv_ok in H as (t6 & st & t6' & H6 & H & ->).
  apply lift_inv_ok in H6 as [H6 ->].
  apply bind_inv_ok in H as (t7 & args & t7' & H7 & H & ->).
  apply lift_inv_ok in H7 as [H7 ->].
  unfold ret in H. injection H as <- <-. simpl.
  rewrite !app_nil_r. rewrite H3. done.
Qed.

(** ** Step 1: the wrapped outputs *)

Lemma wrap_out_cases i o rs :
  wrap_out i o rs = ([], inl (ValueError msg_need_initial))
  ∨ ∃ tr,
      wrap_out i o rs
      = (tr, inr (wrapped o, match declared_return_steps o with
                             | Some r => <[i := r]> rs
                             | None => rs
                             end))
      ∧ Forall (λ ev, is_warning ev = true) tr
      ∧ wrapped_out (wrapped o).
Proof.
  unfold wrap_out, wrapped_out, wrapped.
  destruct o as [|e|d]; simpl.
  - right. exists []. split_and!; [done|done|done].
  - right. exists []. split_and!; [done|done|]. simpl. eauto.
  - case_bool_decide as Hd; simpl.
    + unfold record_return_steps.
      assert (match out_return_steps d with
              | Some r => if decide (r ≠ 0) then <[i:=r]> rs else rs
              | None => rs
              end
              = match match out_return_steps d with
                      | Some r => if decide (r ≠ 0) then Some r else None
                      | None => None
                      end with
                | Some r => <[i:=r]> rs
                | None => rs
                end) as ->.
      { destruct (out_return_steps d); [|done]. by case_decide. }
      destruct (out_initial d) as [ini|] eqn:Hini; simpl.
      * right.
        destruct (taps_truthy (out_taps d)) eqn:Htr; simpl.
        -- exists []. split_and!; [done|done|]. rewrite Hini. eauto.
        -- case_bool_decide; simpl.
           ++ eexists [EvWarning i]. split_and!; [done| |done].
              repeat constructor.
           ++ eexists []. split_and!; [done|done|done].
      * destruct (taps_truthy (out_taps d)) eqn:Htr; simpl.
        -- by left.
        -- right. exists []. split_and!; done.
    + right. exists [].
      assert (d = empty_out_dict) as ->
        by (by destruct (decide (d = empty_out_dict))).
      split_and!; done.
Qed.

(** Step 1 logs nothing but warnings. *)
Lemma wrap_outs_trace os : ∀ i rs,
  Forall (λ ev, is_warning ev = true) (trace (wrap_outs i os rs)).
Proof.
  induction os as [|o os IH]; intros i rs; simpl; [done|].
  destruct (wrap_out_cases i o rs) as [->|(tr & -> & Htr & _)]; [done|].
  rewrite bind_ok. simpl.
  match goal with |- context [wrap_outs (S i) os ?r] =>
    specialize (IH (S i) r); destruct (wrap_outs (S i) os r) as [tr2 [e|[ds rs2]]]
  end; simpl in *; rewrite ?app_nil_r; by apply Forall_app.
Qed.

(** Taps without an initial state stop step 1. *)
Lemma wrap_outs_need_initial os : ∀ i rs j d,
  os !! j = Some (OutDict d) →
  out_initial d = None →
  taps_truthy (out_taps d) = true →
  result (wrap_outs i os rs) = inl (ValueError msg_need_initial).
Proof.
  induction os as [|o os IH]; intros i rs j d Hj Hini Htaps; [done|].
  simpl. destruct j as [|j]; simpl in Hj.
  - injection Hj as ->. unfold wrap_out. simpl.
    rewrite bool_decide_true.
    2:{ intros ->. done. }
    rewrite Hini, Htaps. done.
  - destruct (wrap_out_cases i o rs) as [->|(tr & -> & _ & _)]; [done|].
    rewrite bind_ok. simpl.
    match goal with |- context [wrap_outs (S i) os ?r] =>
      specialize (IH (S i) r j d Hj Hini Htaps);
      destruct (wrap_outs (S i) os r) as [tr2 [e|[ds rs2]]]
    end; simpl in *; congruence.
Qed.

(** What a successful step 1 returns. *)
Lemma wrap_outs_ok os : ∀ i rs tr ds rs',
  wrap_outs i os rs = (tr, inr (ds, rs')) →
  ds = wrapped <$> os
  ∧ ∀ j, rs' !! j
         = match (if decide (i ≤ j)%nat
                  then os !! (j - i)%nat ≫= declared_return_steps
                  else None) with
           | Some r => Some r
           | None => rs !! j
           end.
Proof.
  induction os as [|o os IH]; intros i rs tr ds rs' H; simpl in H.
  - injection H as <- <- <-. split; [done|]. intros j. by case_decide.
  - destruct (wrap_out_cases i o rs) as [Hw|(tr1 & Hw & _ & _)];
      rewrite Hw in H; [done|].
    rewrite bind_ok in H. simpl in H.
    match type of H with context [wrap_outs (S i) os ?r] =>
      specialize (IH (S i) r);
      destruct (wrap_outs (S i) os r) as [tr2 [e|[ds2 rs2]]]; [done|]
    end.
    simpl in H. injection H as <- <- <-.
    destruct (IH _ _ _ eq_refl) as [-> Hrs]. split; [done|].
    intros j. rewrite Hrs.
    destruct (decide (S i ≤ j)%nat) as [Hle|Hnle].
    + rewrite decide_True by lia.
      replace (j - i)%nat with (S (j - S i)) by lia. simpl.
      destruct (os !! (j - S i)%nat ≫= declared_return_steps); [done|].
      destruct (declared_return_steps o); [|done].
      rewrite lookup_insert_ne by lia. done.
    + destruct (decide (i ≤ j)%nat) as [Hle|Hnle'].
      * assert (j = i) as -> by lia. rewrite Nat.sub_diag. simpl.
        destruct (declared_return_steps o); [|done].
        by rewrite lookup_insert_eq.
      * destruct (declared_return_steps o); [|done].
        rewrite lookup_insert_ne by lia. done.
Qed.

Lemma trace_bind {A B} (m : M A) (k : A → M B) :
  trace (bind m k)
  = trace m ++ match result m with inl _ => [] | inr a => trace (k a) end.
Proof.
  destruct m as [tr [e|a]]; simpl; [by rewrite app_nil_r|].
  by destruct (k a).
Qed.

Lemma result_bind {A B} (m : M A) (k : A → M B) :
  result (bind m k)
  = match result m with inl e => inl e | inr a => result (k a) end.
Proof. destruct m as [tr [e|a]]; simpl; [done|]. by destruct (k a). Qed.

Lemma trace_lift {A} (r : R A) : trace (lift r) = [].
Proof. done. Qed.

Lemma result_lift {A} (r : R A) : result (lift r) = r.
Proof. done. Qed.

Lemma scan_prepare_trace c :
  Forall (λ ev, is_warning ev = true) (trace (scan_prepare T c)).
Proof.
  unfold scan_prepare. cbv zeta.
  rewrite trace_bind, trace_lift, result_lift.
  destruct (n_fixed_steps_of T (n_steps c)) as [e|nf]; [done|].
  rewrite trace_bind, trace_lift, result_lift.
  destruct (check_n_steps_dtype T (n_steps c)) as [e|[]]; [done|].
  rewrite trace_bind. cbn [app].
  apply Forall_app. split; [apply wrap_outs_trace|].
  destruct (result (wrap_outs 0 (wrap_into_list (outputs_info c)) ∅))
    as [e|[oi rs]]; [done|].
  repeat (rewrite trace_bind, trace_lift, result_lift; cbn [app];
          match goal with
          | |- context [match ?x with inl _ => _ | inr _ => _ end] =>
              destruct x; [done|]
          end).
  done.
Qed.

(** ** The check of [n_steps] *)

(** C8, as written, fails: in [scan(lambda x_t: 2 * x_t, sequences=[x],
    n_steps=1.0)] the Python float is accepted; line 325 truncates it to 1
    and [scan] returns the single step. *)
Lemma float_n_steps_accepted : ¬ non_integral_n_steps_rejected.
Proof.
  intros H.
  destruct (H plain_theano (double_each (FloatSteps (FFinite 1 0))))
    as (tr & msg & Hs); [done|done|].
  vm_compute in Hs. discriminate Hs.
Qed.

(** C8, amended: a graph node given for [n_steps] whose dtype does not
    start with "int" or "uin" makes [scan] raise a ValueError before
    anything else is done; a Python float has no dtype and passes this
    check. *)
Theorem n_steps_dtype_checked c v :
  n_steps c = NodeSteps v →
  integral_n_steps T (n_steps c) = false →
  scan T c = ([], inl (ValueError msg_n_steps_int))
  ∧ ∀ f, check_n_steps_dtype T (FloatSteps f) = inr tt.
Proof.
  intros Hn Hint. split; [|done].
  unfold scan, scan_prepare. cbv zeta. rewrite Hn in *. simpl in Hint.
  simpl n_fixed_steps_of. rewrite bind_lift_inr.
  unfold check_n_steps_dtype. rewrite Hint. done.
Qed.

(** ** Step 1: sequences and outputs *)

(** C9: the code does not do what the claim, the comment of line 350 and
    the documentation of [taps] ("Default value is [0]") say.  A sequence
    given as a dictionary without the key ['taps'] keeps no taps: line 349
    tests [.get('taps', True) is None], which holds for a key set to [None]
    and not for a missing key.  Such a sequence then contributes no time
    slice, and alone it leaves [scan] without a number of steps.  A bare
    node and a dictionary whose ['taps'] is [None] do get [[0]]. *)
Theorem seq_dict_without_taps_keeps_none T' f x ns tg gb m nm :
  wrap_seq (SeqDict (SeqD x None)) = SeqD x None
  ∧ for_loop (seq_slices gb) (enumerate [wrap_seq (SeqDict (SeqD x None))])
             empty_seq_state = inr empty_seq_state
  ∧ scan T' (ScanCall f (ArgList [SeqDict (SeqD x None)]) ArgNone ns
                      NoneSteps tg gb m nm)
    = ([], inl (ValueError msg_no_steps))
  ∧ wrap_seq (SeqNode x) = SeqD x (Some (TapsList [0]))
  ∧ wrap_seq (SeqDict (SeqD x (Some TapsNone))) = SeqD x (Some (TapsList [0])).
Proof. done. Qed.

Lemma scan_prepare_fails c tr e :
  scan_prepare T c = (tr, inl e) → scan T c = (tr, inl e).
Proof. intros H. unfold scan. by rewrite H. Qed.

Lemma n_fixed_steps_error n e :
  n_fixed_steps_of T n = inl e →
  (n = FloatSteps FNaN ∧ e = ValueError msg_nan_to_int)
  ∨ (∃ b, n = FloatSteps (FInf b) ∧ e = OverflowError).
Proof.
  destruct n as [|z|[|b|m ex]|v]; simpl; intros [= <-]; eauto.
Qed.

Lemma check_n_steps_dtype_error n e :
  check_n_steps_dtype T n = inl e → e = ValueError msg_n_steps_int.
Proof.
  destruct n as [|z|f|v]; simpl; try done. case_bool_decide; [done|].
  by intros [= <-].
Qed.

(** C7: an [outputs_info] dictionary with taps and without an initial
    state makes [scan] raise a ValueError before the step function is
    called or anything is built; only warnings may have been logged.  When
    [n_steps] passes its own checks, the error is the one of line 366.
    (An infinite Python float for [n_steps] is left aside: [int()] raises
    OverflowError on it at line 325.) *)
Theorem taps_without_initial_rejected c j d :
  wrap_into_list (outputs_info c) !! j = Some (OutDict d) →
  out_initial d = None →
  taps_truthy (out_taps d) = true →
  (∀ b, n_steps c ≠ FloatSteps (FInf b)) →
  ∃ tr msg,
    scan T c = (tr, inl (ValueError msg))
    ∧ Forall (λ ev, is_warning ev = true) tr
    ∧ (∀ nf, n_fixed_steps_of T (n_steps c) = inr nf →
             check_n_steps_dtype T (n_steps c) = inr tt →
             msg = msg_need_initial).
Proof.
  intros Hj Hini Htaps Hinf.
  pose proof (scan_prepare_trace c) as Htr.
  assert (∃ msg, result (scan_prepare T c) = inl (ValueError msg)
                 ∧ (∀ nf, n_fixed_steps_of T (n_steps c) = inr nf →
                          check_n_steps_dtype T (n_steps c) = inr tt →
                          msg = msg_need_initial)) as (msg & Hres & Hmsg).
  { unfold scan_prepare. cbv zeta.
    rewrite result_bind, result_lift.
    destruct (n_fixed_steps_of T (n_steps c)) as [e|nf] eqn:Hnf.
    { apply n_fixed_steps_error in Hnf as [[_ ->]|(b & Hb & _)].
      - by eexists.
      - by destruct (Hinf b). }
    rewrite result_bind, result_lift.
    destruct (check_n_steps_dtype T (n_steps c)) as [e|[]] eqn:Hdt.
    { apply check_n_steps_dtype_error in Hdt as ->. by eexists. }
    rewrite result_bind.
    rewrite (wrap_outs_need_initial _ _ _ j d Hj Hini Htaps).
    by eexists. }
  destruct (scan_prepare T c) as [tr r] eqn:Hp. simpl in Hres, Htr. subst r.
  exists tr, msg. split_and!; [|done|done].
  by apply scan_prepare_fails.
Qed.

(** ** Step 2: the taps of the outputs *)


(** ** The trip count *)

Lemma eval_foldl_minimum env rest : ∀ lens e x,
  eval env e = Some (TScalar x) →
  Forall2 (λ s len, eval env s = Some (TScalar len)) rest lens →
  eval env (foldl EMinimum e rest) = Some (TScalar (foldl Z.min x lens)).
Proof.
  induction rest as [|s rest IH]; intros lens e x He Hall.
  - by apply Forall2_nil_inv_l in Hall as ->.
  - apply Forall2_cons_inv_l in Hall as (len & lens' & Hs & Hall & ->).
    simpl. apply IH; [|done]. simpl. by rewrite He, Hs.
Qed.

(** C1, as written, fails: with [sequences=[x]], [x] of three rows, and
    [n_steps] a graph node whose value is 5, the trip count is 5, not the
    minimum 3. *)
Lemma trip_count_ignores_lengths : ¬ trip_count_is_minimum.
Proof.
  intros H.
  specialize (H plain_theano (running_sum (NodeSteps (EVar "n"))) (EVar "n")
                _ _ env_3_rows_5_steps [3] 5 eq_refl eq_refl
                ltac:(discriminate) eq_refl).
  simpl in H. vm_compute in H.
  assert (Some (TScalar 5) = Some (TScalar 3)) as Habs; [|discriminate Habs].
  apply H; [|done]. repeat constructor.
Qed.

(** C1, amended: when [n_steps] is supplied (it is not None, NaN or inf),
    compile-time constant or not, the trip count is [n_steps] itself as a
    tensor, whatever the lengths of the sequences (lines 488-493: "do that
    regardless"); the minimum of the lengths of the windowed sequences is
    the trip count only when [n_steps] is not supplied. *)
Theorem trip_count_is_n_steps c tr p :
  scan_prepare T c = (tr, inr p) →
  (isNaN_or_Inf_or_None T (n_steps c) = false →
   as_tensor (n_steps c) = inr (p_actual_n_steps p)
   ∧ ∀ v, n_steps c = NodeSteps v → p_actual_n_steps p = v)
  ∧ (isNaN_or_Inf_or_None T (n_steps c) = true →
     ∃ s0 ss, scan_seqs (p_sq p) = s0 :: ss
       ∧ ∀ env len0 lens,
           Forall2 (λ s len, eval env (EShape0 s) = Some (TScalar len))
                   (s0 :: ss) (len0 :: lens) →
           eval env (p_actual_n_steps p)
           = Some (TScalar (numpy_min len0 lens))).
Proof.
  intros Hp. apply scan_prepare_inv in Hp as (_ & _ & _ & _ & _ & Ha & _).
  unfold actual_n_steps_of, lengths_vec_of in Ha.
  destruct (isNaN_or_Inf_or_None T (n_steps c)) eqn:Hnan; simpl in Ha.
  - split; [done|]. intros _.
    destruct (scan_seqs (p_sq p)) as [|s0 ss]; [done|].
    simpl in Ha. injection Ha as <-.
    exists s0, ss. split; [done|]. intros env len0 lens Hall.
    apply Forall2_cons_1 in Hall as [H0 Hall].
    unfold numpy_min. apply eval_foldl_minimum; [done|].
    by apply Forall2_fmap_l.
  - split; [|done]. intros _.
    destruct (as_tensor (n_steps c)) as [e|t] eqn:Ht; [done|].
    simpl in Ha.
    assert (t = p_actual_n_steps p) as <-.
    { destruct (map EShape0 (scan_seqs (p_sq p)) ++ [t]) eqn:Hl.
      - by destruct (map EShape0 (scan_seqs (p_sq p))).
      - congruence. }
    split; [done|]. intros v Hv. rewrite Hv in Ht. simpl in Ht. congruence.
Qed.

(** ** Loops over [enumerate] *)

Lemma enumerate_shift {A} (l : list A) n :
  imap (λ i x, (n + S i, x)%nat) l = imap (λ i x, (S n + i, x)%nat) l.
Proof. apply imap_ext. intros i x _. f_equal. lia. Qed.

(** An invariant that every successful pass of the body preserves holds
    after the loop. *)
Lemma for_loop_enumerate_inv {A St} (body : nat * A → St → R St)
    (I : nat → St → Prop) (l : list A) : ∀ n s s',
  I n s →
  (∀ i x s1 s2, l !! i = Some x → I (n + i)%nat s1 →
                body ((n + i)%nat, x) s1 = inr s2 → I (S (n + i)) s2) →
  for_loop body (imap (λ i x, ((n + i)%nat, x)) l) s = inr s' →
  I (n + length l)%nat s'.
Proof.
  induction l as [|a l IH]; intros n s s' Hs Hbody Hloop; simpl in *.
  - injection Hloop as <-. by rewrite Nat.add_0_r.
  - rewrite Nat.add_0_r in Hloop.
    destruct (body (n, a) s) as [e|s1] eqn:Hb; [done|].
    unfold compose in Hloop. rewrite enumerate_shift in Hloop.
    replace (n + S (length l))%nat with (S n + length l)%nat by lia.
    apply (IH (S n) s1 s'); [| |done].
    + specialize (Hbody 0%nat a s s1). rewrite Nat.add_0_r in Hbody.
      by apply Hbody.
    + intros i x s2 s3 Hi Hinv Hb'.
      replace (S n + i)%nat with (n + S i)%nat in * by lia.
      by apply (Hbody (S i) x s2 s3).
Qed.

(** A body that cannot fail under the invariant makes the loop succeed. *)
Lemma for_loop_enumerate_ok {A St} (body : nat * A → St → R St)
    (I : nat → St → Prop) (l : list A) : ∀ n s,
  I n s →
  (∀ i x s1, l !! i = Some x → I (n + i)%nat s1 →
             ∃ s2, body ((n + i)%nat, x) s1 = inr s2 ∧ I (S (n + i)) s2) →
  ∃ s', for_loop body (imap (λ i x, ((n + i)%nat, x)) l) s = inr s'
        ∧ I (n + length l)%nat s'.
Proof.
  induction l as [|a l IH]; intros n s Hs Hbody; simpl in *.
  - exists s. by rewrite Nat.add_0_r.
  - rewrite Nat.add_0_r.
    destruct (Hbody 0%nat a s eq_refl) as (s1 & Hb & Hs1);
      [by rewrite Nat.add_0_r|].
    rewrite Nat.add_0_r in Hb, Hs1. rewrite Hb.
    unfold compose. rewrite enumerate_shift.
    replace (n + S (length l))%nat with (S n + length l)%nat by lia.
    apply (IH (S n) s1); [done|].
    intros i x s2 Hi Hinv.
    replace (S n + i)%nat with (n + S i)%nat in * by lia.
    by apply (Hbody (S i) x s2).
Qed.

Lemma enumerate_eq {A} (l : list A) :
  enumerate l = imap (λ i x, ((0 + i)%nat, x)) l.
Proof. done. Qed.

(** ** Slices of Python lists *)

Lemma py_slice_from {A} (l : list A) (off : Z) :
  0 ≤ off → py_slice l (Some off) None = drop (Z.to_nat off) l.
Proof.
  intros Hoff. unfold py_slice, slice_bound.
  rewrite decide_True by done.
  destruct (decide (Z.to_nat off ≤ length l)%nat).
  - rewrite Nat.min_l by done. apply take_ge. rewrite length_drop. lia.
  - rewrite Nat.min_r by lia. rewrite !drop_ge by lia. by rewrite take_nil.
Qed.

Lemma py_slice_last {A} (l : list A) (k : Z) :
  k > 0 → py_slice l (Some (- k)) None = drop (length l - Z.to_nat k) l.
Proof.
  intros Hk. unfold py_slice, slice_bound.
  rewrite decide_False by lia.
  replace (Z.to_nat (Z.max 0 (- k + Z.of_nat (length l))))
    with (length l - Z.to_nat k)%nat by lia.
  apply take_ge. rewrite length_drop. lia.
Qed.

Lemma py_index_last {A} (l : list A) : py_index l (-1) = last l.
Proof.
  unfold py_index. rewrite decide_False by lia. rewrite last_lookup.
  case_decide.
  - f_equal. lia.
  - destruct l; [done|]. simpl in *. lia.
Qed.

(** ** [remove_dimensions] *)

Lemma remove_dimensions_inv outs steps_return offsets res :
  remove_dimensions outs steps_return offsets = inr res →
  length res = length outs
  ∧ ∀ idx out, outs !! idx = Some out →
      ∃ r, remove_dimension steps_return offsets idx out = inr r
           ∧ res !! idx = Some r.
Proof.
  unfold remove_dimensions. rewrite enumerate_eq. intros H.
  apply (for_loop_enumerate_inv _
           (λ k acc, length acc = k
                     ∧ ∀ idx out, (idx < k)%nat → outs !! idx = Some out →
                         ∃ r, remove_dimension steps_return offsets idx out = inr r
                              ∧ acc !! idx = Some r)) in H.
  - destruct H as [Hlen H]. split; [done|]. intros idx out Hout.
    apply H; [|done]. simpl. by apply lookup_lt_Some in Hout.
  - split; [done|]. intros; lia.
  - simpl. intros i x s1 s2 Hx [Hlen Hinv] Hbody.
    destruct (remove_dimension steps_return offsets i x) as [e|r] eqn:Hr;
      [done|].
    simpl in Hbody. injection Hbody as <-. split.
    + rewrite length_app. simpl. lia.
    + intros idx out Hidx Hout. destruct (decide (idx = i)) as [->|Hne].
      * exists r. rewrite Hx in Hout. injection Hout as <-. split; [done|].
        rewrite lookup_app_r by lia. by rewrite Hlen, Nat.sub_diag.
      * destruct (Hinv idx out) as (r' & Hr' & Hacc); [lia|done|].
        exists r'. split; [done|]. by rewrite lookup_app_l by lia.
Qed.

Lemma remove_dimensions_ok outs steps_return offsets :
  (∀ idx out, outs !! idx = Some out →
      ∃ r, remove_dimension steps_return offsets idx out = inr r) →
  ∃ res, remove_dimensions outs steps_return offsets = inr res.
Proof.
  intros Hok. unfold remove_dimensions. rewrite enumerate_eq.
  destruct (for_loop_enumerate_ok
              (λ '(idx, out) out_ls,
                 let? o := remove_dimension steps_return offsets idx out in
                 inr (out_ls ++ [o]))
              (λ _ _, True) outs 0%nat []) as (res & Hres & _); [done| |eauto].
  intros i x s1 Hx _. simpl. destruct (Hok i x Hx) as [r ->]. simpl. eauto.
Qed.

(** What [remove_dimensions] (lines 922-935) returns for the buffer [out]
    at position [idx].  For a recorded [return_steps = K > 1] it is
    [out[-K:]], the last [K] entries of the buffer as the scan op returned
    it; the padding is not dropped first, and this is the last [K] entries
    of the history without its padding whenever [K] does not exceed the
    number of computed steps.  For a recorded [return_steps] of 1 (or
    less) it is [out[-1]], the last entry itself, with one axis fewer.
    Without [return_steps] it is [out[offset:]], the buffer without its
    [offset] entries of padding. *)
Theorem remove_dimensions_returns outs steps_return offsets res idx out env buf :
  remove_dimensions outs steps_return (Some offsets) = inr res →
  outs !! idx = Some out →
  eval env out = Some (TArray buf) →
  ∃ r, res !! idx = Some r ∧
    match steps_return !! idx with
    | Some K =>
        if decide (K > 1) then
          r = ESlice out (Some (- K)) None
          ∧ eval env r = Some (TArray (drop (length buf - Z.to_nat K) buf))
          ∧ ∀ off, offsets !! idx = Some off → 0 ≤ off →
                   K ≤ Z.of_nat (length buf) - off →
                   drop (length buf - Z.to_nat K) buf
                   = py_slice (py_slice buf (Some off) None) (Some (- K)) None
        else
          r = EIndex out (-1)
          ∧ eval env r = last buf
          ∧ ∀ v d, last buf = Some v → Forall (λ x, ndim x = d) buf →
                   ndim v = d
                   ∧ ∀ K', K' > 1 →
                       ndim (TArray (drop (length buf - Z.to_nat K') buf)) = S d
    | None =>
        ∃ off, offsets !! idx = Some off
               ∧ r = ESlice out (Some off) None
               ∧ (0 ≤ off →
                  eval env r = Some (TArray (drop (Z.to_nat off) buf)))
    end.
Proof.
  intros Hrd Hout Hev.
  apply remove_dimensions_inv in Hrd as [_ Hrd].
  destruct (Hrd idx out Hout) as (r & Hr & Hres). exists r. split; [done|].
  unfold remove_dimension in Hr.
  destruct (steps_return !! idx) as [K|].
  - case_decide as HK.
    + injection Hr as <-. split_and!; [done| |].
      * simpl. rewrite Hev. by rewrite py_slice_last by lia.
      * intros off Hoff Hpos Hle.
        rewrite (py_slice_from buf off) by done. rewrite py_slice_last by lia.
        rewrite drop_drop, length_drop. f_equal. lia.
    + injection Hr as <-. split_and!; [done| |].
      * simpl. rewrite Hev. apply py_index_last.
      * intros v d Hlast Hall. split.
        -- rewrite last_lookup in Hlast.
           by apply (Forall_lookup_1 _ _ _ _ Hall Hlast).
        -- intros K' HK'.
           destruct (drop (length buf - Z.to_nat K') buf) as [|x rest] eqn:Hd.
           { apply (f_equal length) in Hd. rewrite length_drop in Hd.
             simpl in Hd. destruct buf; [done|]. simpl in Hd. lia. }
           simpl. f_equal.
           assert (x ∈ buf) as Hx.
           { apply (subseteq_drop (length buf - Z.to_nat K') buf).
             rewrite Hd. by left. }
           by apply (proj1 (Forall_forall _ _) Hall).
  - destruct (list_get offsets idx) as [e|off] eqn:Hoff; [done|].
    simpl in Hr. injection Hr as <-.
    unfold list_get in Hoff. destruct (offsets !! idx) as [off'|]; [|done].
    injection Hoff as ->. exists off. split_and!; [done|done|].
    intros Hpos. simpl. rewrite Hev. by rewrite py_slice_from.
Qed.

(** ** One step only *)

Lemma nth_output_single_step rs outputs pos :
  nth_output (single_step_outputs T rs outputs) pos
  = pad_output T rs pos <$> outputs !! pos.
Proof.
  unfold single_step_outputs. rewrite <- list_lookup_imap.
  destruct (imap (pad_output T rs) outputs) as [|o [|o' l]]; simpl.
  - by rewrite lookup_nil.
  - by destruct pos.
  - rewrite <- !fmap_cons, list_lookup_fmap.
    by destruct ((o :: o' :: l) !! pos).
Qed.

Lemma warning_not_loop_event tr :
  Forall (λ ev, is_warning ev = true) tr →
  Forall (λ ev, loop_event ev = false) tr.
Proof. intros H. eapply Forall_impl; [done|]. by intros []. Qed.

Lemma scan_prepared c tr0 p :
  scan_prepare T c = (tr0, inr p) →
  scan T c
  = (tr0 ++ EvCallFn (p_args p)
         :: trace (if in_1_m1 (p_n_fixed_steps p)
                   then ret (single_step_outputs T (p_return_steps p)
                               (fn c (p_args p)).1, (fn c (p_args p)).2)
                   else scan_loop T c p (fn c (p_args p)).1 (fn c (p_args p)).2),
     result (if in_1_m1 (p_n_fixed_steps p)
             then ret (single_step_outputs T (p_return_steps p)
                         (fn c (p_args p)).1, (fn c (p_args p)).2)
             else scan_loop T c p (fn c (p_args p)).1 (fn c (p_args p)).2)).
Proof.
  intros Hp. unfold scan. rewrite Hp, bind_ok. unfold emit.
  rewrite bind_ok. simpl.
  destruct (fn c (p_args p)) as [outputs updates]. simpl.
  by destruct (in_1_m1 (p_n_fixed_steps p)).
Qed.

(** C2: when [n_steps] is a constant equal to 1 or -1, [scan] logs no
    probe and no scan op.  Once steps 1 and 2 have accepted the call, it
    calls the step function once and returns: the updates are those of
    that call, and the output at each position is the one of that call,
    padded by [unbroadcast(shape_padleft(.), 0)] exactly when it is of
    tensor type and the [return_steps] declared at that position is not
    1. *)
Theorem single_step_shortcut c nf :
  n_fixed_steps_of T (n_steps c) = inr nf →
  in_1_m1 nf = true →
  Forall (λ ev, loop_event ev = false) (trace (scan T c))
  ∧ ∀ tr0 p, scan_prepare T c = (tr0, inr p) →
      ∃ outputs updates,
        fn c (p_args p) = (outputs, updates)
        ∧ scan T c
          = (tr0 ++ [EvCallFn (p_args p)],
             inr (single_step_outputs T (p_return_steps p) outputs, updates))
        ∧ Forall (λ ev, is_warning ev = true) tr0
        ∧ ∀ pos o, outputs !! pos = Some o →
            nth_output (single_step_outputs T (p_return_steps p) outputs) pos
            = Some (if is_tensor_type T o
                       && bool_decide (wrap_into_list (outputs_info c) !! pos
                                         ≫= declared_return_steps ≠ Some 1)
                    then EUnbroadcast (EShapePadLeft o) 0
                    else o).
Proof.
  intros Hnf Hin.
  assert (∀ tr0 p, scan_prepare T c = (tr0, inr p) →
            scan T c
            = (tr0 ++ [EvCallFn (p_args p)],
               inr (single_step_outputs T (p_return_steps p)
                      (fn c (p_args p)).1, (fn c (p_args p)).2))) as Hscan.
  { intros tr0 p Hp. rewrite (scan_prepared _ _ _ Hp).
    apply scan_prepare_inv in Hp as (Hnf' & _).
    rewrite Hnf in Hnf'. injection Hnf' as <-. by rewrite Hin. }
  split.
  - pose proof (scan_prepare_trace c) as Htr.
    destruct (scan_prepare T c) as [tr [e|p]] eqn:Hp.
    + rewrite (scan_prepare_fails _ _ _ Hp). by apply warning_not_loop_event.
    + rewrite (Hscan _ _ eq_refl). simpl. apply Forall_app. split.
      * by apply warning_not_loop_event.
      * by repeat constructor.
  - intros tr0 p Hp. specialize (Hscan _ _ Hp).
    pose proof (scan_prepare_trace c) as Htr. rewrite Hp in Htr.
    destruct (fn c (p_args p)) as [outputs updates] eqn:Hfn.
    exists outputs, updates. split_and!; [done|done|done|].
    intros pos o Ho. rewrite nth_output_single_step, Ho. simpl. f_equal.
    unfold pad_output.
    apply scan_prepare_inv in Hp as (_ & _ & Hw & _).
    apply wrap_outs_ok in Hw as [_ Hrs]. rewrite (Hrs pos).
    rewrite decide_True by lia. rewrite Nat.sub_0_r, lookup_empty.
    destruct (wrap_into_list (outputs_info c) !! pos ≫= declared_return_steps)
      as [r|]; simpl.
    + destruct (is_tensor_type T o); [|done]. simpl.
      destruct (decide (r = 1)) as [->|Hr].
      * rewrite !bool_decide_false; [done|naive_solver|naive_solver].
      * rewrite !bool_decide_true; [done|naive_solver|done].
    + destruct (is_tensor_type T o); done.
Qed.

(** ** Positions of the entries of a category *)

Lemma positions_snoc {A} (P : A → bool) (l : list A) (x : A) :
  positions P (l ++ [x])
  = positions P l ++ (if P x then [length l] else []).
Proof.
  unfold positions, enumerate. rewrite imap_app, filter_app, fmap_app.
  f_equal. simpl. rewrite Nat.add_0_r.
  rewrite filter_cons. simpl. destruct (P x); [|by rewrite decide_False].
  by rewrite decide_True.
Qed.

Lemma positions_take_S {A} (P : A → bool) (l : list A) k x :
  l !! k = Some x →
  positions P (take (S k) l)
  = positions P (take k l) ++ (if P x then [k] else []).
Proof.
  intros Hx. rewrite (take_S_r _ _ _ Hx), positions_snoc.
  rewrite length_take_le; [done|]. apply lookup_lt_Some in Hx. lia.
Qed.

Lemma enumerate_fst {A} (l : list A) : (enumerate l).*1 = seq 0 (length l).
Proof.
  unfold enumerate. rewrite fmap_imap.
  assert (∀ n, imap (λ i (_ : A), (n + i)%nat) l = seq n (length l)) as H.
  { induction l as [|x l IH]; intros n; [done|].
    simpl. f_equal; [lia|]. rewrite <- (IH (S n)). apply imap_ext.
    intros; simpl; lia. }
  rewrite <- (H 0%nat). by apply imap_ext.
Qed.

(** Three tests of which exactly one holds of every entry split the
    positions of a list. *)
Lemma positions_partition {A} (P Q R : A → bool) (l : list A) :
  Forall (λ x, (P x = true ∧ Q x = false ∧ R x = false)
               ∨ (P x = false ∧ Q x = true ∧ R x = false)
               ∨ (P x = false ∧ Q x = false ∧ R x = true)) l →
  positions P l ++ positions Q l ++ positions R l ≡ₚ seq 0 (length l).
Proof.
  induction l as [|x l IH] using rev_ind; intros Hall; [done|].
  apply Forall_app in Hall as [Hall Hx]. rewrite Forall_singleton in Hx.
  simpl in Hx.
  rewrite !positions_snoc, length_app, Nat.add_1_r, seq_S. simpl.
  rewrite <- (IH Hall).
  destruct Hx as [(-> & -> & ->)|[(-> & -> & ->)|(-> & -> & ->)]];
    rewrite ?app_nil_r.
  - rewrite <- !app_assoc.
    rewrite (Permutation_app_comm [length l] (positions Q l ++ positions R l)).
    by rewrite <- !app_assoc.
  - rewrite <- !app_assoc. do 2 f_equiv.
    apply Permutation_app_comm.
  - by rewrite <- !app_assoc.
Qed.

(** ** The categories built by the loops over the outputs *)

Lemma copy_return_steps_lookup (rs : gmap nat Z) i (order : list nat)
    (d : gmap nat Z) :
  (∀ j, d !! j = order !! j ≫= (rs !!.)) →
  ∀ j, copy_return_steps rs i (length order) d !! j
       = (order ++ [i]) !! j ≫= (rs !!.).
Proof.
  intros Hd j. unfold copy_return_steps.
  destruct (decide (j < length order)%nat) as [Hlt|Hge].
  - rewrite lookup_app_l by done.
    destruct (rs !! i); [|done]. rewrite lookup_insert_ne by lia. done.
  - rewrite lookup_app_r by lia.
    destruct (decide (j = length order)) as [->|Hne].
    + rewrite Nat.sub_diag. simpl.
      destruct (rs !! i) eqn:Hi; [by rewrite lookup_insert_eq|].
      rewrite Hd, lookup_ge_None_2; [done|lia].
    + replace (j - length order)%nat with (S (j - length order - 1)) by lia.
      simpl.
      destruct (rs !! i); [rewrite lookup_insert_ne by lia|];
        rewrite Hd, lookup_ge_None_2; done || lia.
Qed.

Lemma classify_outs_inv actual rs l st :
  classify_outs actual rs l = inr st → out_state_inv l rs (length l) st.
Proof.
  unfold classify_outs. rewrite enumerate_eq. intros H.
  apply (for_loop_enumerate_inv _ (out_state_inv l rs)) in H; [done| |].
  { unfold out_state_inv. simpl. split_and!; done. }
  simpl. intros i x s1 s2 Hx (Hm & Hs & Hnm & Hns & Hta & Hne & Hrm & Hrs) Hb.
  unfold out_state_inv. rewrite !(positions_take_S _ _ _ _ Hx).
  unfold classify_out in Hb.
  change (bool_decide (out_taps x = Some (TapsList [-1])))
    with (is_sit_sot x) in Hb.
  assert (is_mit_sot x = negb (is_sit_sot x) && taps_truthy (out_taps x))
    as -> by done.
  destruct (is_sit_sot x) eqn:Hsit.
  - destruct (out_initial x) as [ini|]; [|done]. injection Hb as <-. simpl.
    rewrite app_nil_r, length_app, <- Hm, <- Hs. simpl.
    split_and!; try done; try lia.
    rewrite Hns. by apply copy_return_steps_lookup.
  - simpl. destruct (taps_truthy (out_taps x)) eqn:Htr.
    + destruct (out_taps x) as [[|k|[|k0 l']]|] eqn:Htaps; try done.
      * destruct (bool_decide (k > 0)); [done|]. by destruct (out_initial x).
      * destruct (bool_decide (k0 > 0) || existsb _ _); [done|].
        destruct (out_initial x) as [ini|]; [|done]. injection Hb as <-.
        simpl. rewrite app_nil_r, !length_app, <- Hm, <- Hs. simpl.
        split_and!; try done; try lia.
        -- apply Forall_app. split; [done|]. by repeat constructor.
        -- rewrite Hnm. by apply copy_return_steps_lookup.
    + injection Hb as <-. rewrite !app_nil_r. split_and!; done.
Qed.

Lemma nit_sot_loop outputs rs l :
  (length l ≤ length outputs)%nat →
  ∃ ns, for_loop (add_nit_sot outputs rs) (enumerate l) (NitState 0 [] ∅ [])
        = inr ns
        ∧ nit_state_inv l rs outputs (length l) ns.
Proof.
  intros Hlen. rewrite enumerate_eq.
  apply (for_loop_enumerate_ok (add_nit_sot outputs rs)
           (nit_state_inv l rs outputs) l 0%nat).
  { unfold nit_state_inv. simpl. split_and!; done. }
  simpl. intros i x s1 Hx (Ho & Hn & Hl & Hio & Hr).
  unfold nit_state_inv. rewrite (positions_take_S _ _ _ _ Hx).
  unfold add_nit_sot.
  assert (is_nit_sot x = negb (bool_decide (is_Some (out_taps x)))) as ->
    by done.
  case_bool_decide as Htaps; simpl.
  - exists s1. rewrite app_nil_r. split_and!; done.
  - destruct (lookup_lt_is_Some_2 outputs i) as [o Hoi].
    { apply lookup_lt_Some in Hx. lia. }
    unfold list_get. rewrite Hoi. simpl. eexists. split; [done|]. simpl.
    rewrite !length_app, <- Ho. simpl. split_and!; try done; try lia.
    + intros j.
      assert (length (nit_sot_inner_outputs s1)
              = length (nit_sot_rightOrder s1)) as Hll by lia.
      destruct (decide (j < length (nit_sot_rightOrder s1))%nat).
      * rewrite !lookup_app_l by lia. apply Hio.
      * rewrite !lookup_app_r by lia. rewrite Hll.
        destruct (j - length (nit_sot_rightOrder s1))%nat; simpl; done.
    + rewrite Hn. by apply copy_return_steps_lookup.
Qed.

Lemma pick_outputs_ok P outputs l :
  (length l ≤ length outputs)%nat →
  ∃ r, pick_outputs P outputs l = inr r.
Proof.
  intros Hlen. unfold pick_outputs. rewrite enumerate_eq.
  destruct (for_loop_enumerate_ok
              (λ '(i, out) acc,
                 if P out then let? o := list_get outputs i in inr (acc ++ [o])
                 else inr acc)
              (λ _ _, True) l 0%nat []) as (r & Hr & _); [done| |eauto].
  simpl. intros i x s1 Hx _. destruct (P x); [|eauto].
  destruct (lookup_lt_is_Some_2 outputs i) as [o Hoi].
  { apply lookup_lt_Some in Hx. lia. }
  unfold list_get. rewrite Hoi. simpl. eauto.
Qed.

(** ** The path through the scan op *)

Lemma scan_loop_unfold c p outputs updates :
  scan_loop T c p outputs updates
  = let extra_inputs := extra_inputs_of T outputs (p_args p) in
    let dummy_args := filter (λ arg, is_shared arg = false) (p_args p)
                      ++ extra_inputs in
    match arrange T c p outputs extra_inputs
                  (expanded_inputs T dummy_args outputs updates) with
    | inl e => ([EvCompileProbe dummy_args outputs], inl e)
    | inr a =>
        ([EvCompileProbe dummy_args outputs;
          EvBuildScanOp (a_info a) (a_inner_inputs a) (a_new_outs a);
          EvApplyScanOp (a_scan_inputs a)],
         unpack p a (scan_op_apply T (a_info a) (a_inner_inputs a)
                                   (a_new_outs a) (a_scan_inputs a)))
    end.
Proof.
  unfold scan_loop. cbv zeta.
  by destruct (arrange T c p outputs _ _) as [e|a].
Qed.

Lemma arrange_mismatch c p outputs extra_inputs dummy_inputs :
  p_outs_info p ≠ [] →
  length outputs ≠ length (p_outs_info p) →
  arrange T c p outputs extra_inputs dummy_inputs
  = inl (ValueError msg_provide_none).
Proof.
  intros Hne Hlen. unfold arrange, check_outputs, probe_output_count.
  cbv zeta. rewrite !bool_decide_false by done. done.
Qed.

Lemma shared_foldl_length l : ∀ sh,
  length (shared_scan_inputs sh) = n_shared_outs sh →
  length (shared_scan_inputs (foldl (λ sh jin, add_shared jin sh) sh l))
  = n_shared_outs (foldl (λ sh jin, add_shared jin sh) sh l).
Proof.
  induction l as [|[j [variable update]] l IH]; intros sh Hsh; [done|].
  simpl. apply IH. destruct update as [upd|]; [|done].
  destruct (is_shared variable); [|done]. simpl.
  rewrite length_app. simpl. lia.
Qed.

(** Steps 5 to 8 succeed once the number of outputs has been accepted. *)
Lemma arrange_ok c p outputs extra_inputs dummy_inputs :
  length outputs = length (p_outs_info p) ∨ p_outs_info p = [] →
  ∃ a oi,
    arrange T c p outputs extra_inputs dummy_inputs = inr a
    ∧ check_outputs outputs (p_outs_info p) = inr oi
    ∧ length oi = length outputs
    ∧ nit_state_inv oi (p_return_steps p) outputs (length oi) (a_ns a)
    ∧ info_n_mit_sot (a_info a) = n_mit_sot (p_st p)
    ∧ info_n_sit_sot (a_info a) = n_sit_sot (p_st p)
    ∧ info_n_nit_sot (a_info a) = n_nit_sot (a_ns a)
    ∧ info_n_shared_outs (a_info a) = n_shared_outs (a_sh a)
    ∧ length (shared_scan_inputs (a_sh a)) = n_shared_outs (a_sh a).
Proof.
  intros Hcount. unfold arrange. cbv zeta.
  assert (∃ oi, check_outputs outputs (p_outs_info p) = inr oi
                ∧ length oi = length outputs) as (oi & Hoi & Hlen).
  { unfold check_outputs, probe_output_count.
    destruct (decide (p_outs_info p = [])) as [He|Hne].
    - rewrite !(bool_decide_true (p_outs_info p = [])) by done.
      rewrite orb_true_r. simpl. eexists. split; [done|].
      by rewrite length_replicate.
    - destruct Hcount as [Hc|Hc]; [|done].
      rewrite bool_decide_true by done. simpl.
      rewrite bool_decide_false by done. eauto. }
  rewrite Hoi. simpl.
  destruct (pick_outputs_ok taps_not_m1 outputs oi) as [mo ->]; [lia|].
  destruct (pick_outputs_ok taps_m1 outputs oi) as [so ->]; [lia|].
  simpl.
  destruct (nit_sot_loop outputs (p_return_steps p) oi) as (ns & -> & Hns);
    [lia|].
  simpl. eexists _, oi. split; [done|]. simpl.
  split_and!; try done.
  by apply shared_foldl_length.
Qed.

Lemma positions_all {A} (P : A → bool) (l : list A) :
  Forall (λ x, P x = true) l → positions P l = seq 0 (length l).
Proof.
  induction l as [|x l IH] using rev_ind; intros Hall; [done|].
  apply Forall_app in Hall as [Hall Hx]. rewrite Forall_singleton in Hx.
  rewrite positions_snoc, Hx, (IH Hall), length_app, Nat.add_1_r, seq_S.
  done.
Qed.

Lemma wrap_outs_length c tr p :
  scan_prepare T c = (tr, inr p) →
  p_outs_info p = wrapped <$> wrap_into_list (outputs_info c).
Proof.
  intros Hp. apply scan_prepare_inv in Hp as (_ & _ & Hw & _).
  by apply wrap_outs_ok in Hw as [-> _].
Qed.

(** C6: on the path through the scan op (steps 1 and 2 have accepted the
    call and [n_steps] is not a constant 1 or -1), when [outputs_info] is
    not empty and the step function returns another number of outputs,
    [scan] raises the ValueError of line 757 right after compiling the
    probe; when [outputs_info] is empty, the scan op is configured with as
    many nit_sot outputs as the step function returned, in their order,
    and no mit_sot or sit_sot output. *)
Theorem probe_output_count_checked c tr0 p outputs updates :
  scan_prepare T c = (tr0, inr p) →
  in_1_m1 (p_n_fixed_steps p) = false →
  fn c (p_args p) = (outputs, updates) →
  (wrap_into_list (outputs_info c) ≠ [] →
   length outputs ≠ length (wrap_into_list (outputs_info c)) →
   ∃ dummy_args,
     scan T c = (tr0 ++ [EvCallFn (p_args p); EvCompileProbe dummy_args outputs],
                 inl (ValueError msg_provide_none)))
  ∧ (wrap_into_list (outputs_info c) = [] →
     ∃ a tr1 r,
       scan T c = (tr0 ++ EvCallFn (p_args p) :: tr1, r)
       ∧ EvBuildScanOp (a_info a) (a_inner_inputs a) (a_new_outs a) ∈ tr1
       ∧ info_n_nit_sot (a_info a) = length outputs
       ∧ info_n_mit_sot (a_info a) = 0%nat
       ∧ info_n_sit_sot (a_info a) = 0%nat
       ∧ nit_sot_rightOrder (a_ns a) = seq 0 (length outputs)
       ∧ nit_sot_inner_outputs (a_ns a) = outputs).
Proof.
  intros Hp Hin Hfn.
  pose proof (scan_prepared _ _ _ Hp) as Hscan.
  rewrite Hin, Hfn in Hscan. simpl in Hscan.
  rewrite scan_loop_unfold in Hscan. cbv zeta in Hscan.
  pose proof (wrap_outs_length _ _ _ Hp) as Hoi.
  split.
  - intros Hne Hlen. eexists. rewrite Hscan.
    rewrite arrange_mismatch.
    + simpl. done.
    + rewrite Hoi. by destruct (wrap_into_list (outputs_info c)).
    + by rewrite Hoi, length_fmap.
  - intros Hempty. rewrite Hempty in Hoi. simpl in Hoi.
    match type of Hscan with context [arrange T c p outputs ?e ?d] =>
      destruct (arrange_ok c p outputs e d) as
        (a & oi & Ha & Hc & Hlen & (Hro & Hn & Hl & Hio & _) & Hm & Hs & Hnn & _);
        [by right|]; rewrite Ha in Hscan
    end.
    simpl in Hscan. eexists a, _, _. split; [exact Hscan|].
    assert (oi = replicate (length outputs) empty_out_dict) as ->.
    { unfold check_outputs in Hc. rewrite Hoi in Hc. simpl in Hc.
      rewrite orb_true_r in Hc. simpl in Hc. by injection Hc as <-. }
    rewrite length_replicate in *.
    rewrite take_ge in Hro by (by rewrite length_replicate).
    rewrite positions_all in Hro
      by (apply Forall_forall; by intros x [-> _]%elem_of_replicate).
    rewrite length_replicate in Hro.
    assert (p_st p = empty_out_state) as Hst.
    { apply scan_prepare_inv in Hp as (_ & _ & _ & _ & _ & _ & Hcl & _).
      rewrite Hoi in Hcl. unfold classify_outs in Hcl. simpl in Hcl.
      by injection Hcl as <-. }
    rewrite Hst in Hm, Hs. simpl in Hm, Hs.
    split_and!; try done.
    + set_solver.
    + rewrite Hnn, Hn, Hro. by rewrite length_seq.
    + apply list_eq. intros j. rewrite Hio, Hro.
      destruct (decide (j < length outputs)%nat).
      * by rewrite lookup_seq_lt.
      * rewrite lookup_seq_ge by lia. simpl. by rewrite lookup_ge_None_2 by lia.
Qed.

(** C10: with [outputs_info] not empty and a step function that returns
    another number of outputs, a call whose [n_steps] is a constant 1 or
    -1 returns the single step without any error, whereas otherwise the
    same mismatch raises the ValueError of line 757: line 707 returns
    before the check of line 756. *)
Theorem single_step_skips_count_check c tr0 p outputs updates :
  scan_prepare T c = (tr0, inr p) →
  fn c (p_args p) = (outputs, updates) →
  wrap_into_list (outputs_info c) ≠ [] →
  length outputs ≠ length (wrap_into_list (outputs_info c)) →
  (in_1_m1 (p_n_fixed_steps p) = true →
   scan T c = (tr0 ++ [EvCallFn (p_args p)],
               inr (single_step_outputs T (p_return_steps p) outputs, updates)))
  ∧ (in_1_m1 (p_n_fixed_steps p) = false →
     result (scan T c) = inl (ValueError msg_provide_none)).
Proof.
  intros Hp Hfn Hne Hlen.
  pose proof (scan_prepared _ _ _ Hp) as Hscan. rewrite Hfn in Hscan.
  simpl in Hscan. split; intros Hin; rewrite Hin in Hscan.
  - done.
  - rewrite scan_loop_unfold in Hscan. cbv zeta in Hscan.
    pose proof (wrap_outs_length _ _ _ Hp) as Hoi.
    rewrite arrange_mismatch in Hscan.
    + by rewrite Hscan.
    + rewrite Hoi. by destruct (wrap_into_list (outputs_info c)).
    + by rewrite Hoi, length_fmap.
Qed.

(** ** Steps 9 and 10 *)

Lemma tap_offsets_ok xs :
  Forall (λ x, x ≠ []) xs →
  ∃ offs, tap_offsets xs = inr offs ∧ length offs = length xs.
Proof.
  induction xs as [|x xs IH]; intros Hall; [by exists []|].
  apply Forall_cons in Hall as [Hx Hall].
  destruct (IH Hall) as (offs & Hoffs & Hlen).
  destruct x as [|k0 l]; [done|]. simpl. rewrite Hoffs. simpl.
  eexists. split; [done|]. simpl. by rewrite Hlen.
Qed.

Lemma remove_dimension_trimmed steps_return offsets idx out r :
  remove_dimension steps_return offsets idx out = inr r → trimmed out r.
Proof.
  unfold remove_dimension, trimmed. intros H.
  destruct (steps_return !! idx) as [k|].
  - case_decide; injection H as <-; eauto.
  - destruct offsets as [offs|]; [|injection H as <-; eauto].
    destruct (list_get offs idx); [done|]. simpl in H. injection H as <-.
    eauto.
Qed.

Lemma remove_dimensions_trimmed outs steps_return offsets :
  match offsets with
  | None => True
  | Some offs => (length outs ≤ length offs)%nat
  end →
  ∃ res, remove_dimensions outs steps_return offsets = inr res
         ∧ length res = length outs
         ∧ ∀ idx out, outs !! idx = Some out →
             ∃ r, res !! idx = Some r ∧ trimmed out r.
Proof.
  intros Hoffs.
  destruct (remove_dimensions_ok outs steps_return offsets) as [res Hres].
  { intros idx out Hout. unfold remove_dimension.
    destruct (steps_return !! idx) as [k|]; [case_decide; eauto|].
    destruct offsets as [offs|]; [|eauto].
    destruct (lookup_lt_is_Some_2 offs idx) as [off Hoff].
    { apply lookup_lt_Some in Hout. lia. }
    unfold list_get. rewrite Hoff. simpl. eauto. }
  exists res. split; [done|].
  apply remove_dimensions_inv in Hres as [Hlen Hres]. split; [done|].
  intros idx out Hout. destruct (Hres idx out Hout) as (r & Hr & Hlook).
  exists r. split; [done|]. by eapply remove_dimension_trimmed.
Qed.

Lemma update_map_loop_ok (outs keys : list expr) :
  (length outs ≤ length keys)%nat →
  ∃ um, for_loop (λ '(idx, update_rule) update_map,
                    let? k := list_get keys idx in
                    inr (dict_set update_map k update_rule))
                 (enumerate outs) [] = inr um.
Proof.
  intros Hlen. rewrite enumerate_eq.
  destruct (for_loop_enumerate_ok
              (λ '(idx, update_rule) update_map,
                 let? k := list_get keys idx in
                 inr (dict_set update_map k update_rule))
              (λ _ _, True) outs 0%nat []) as (um & Hum & _); [done| |eauto].
  simpl. intros i x s1 Hx _.
  destruct (lookup_lt_is_Some_2 keys i) as [k Hk].
  { apply lookup_lt_Some in Hx. lia. }
  unfold list_get. rewrite Hk. simpl. eauto.
Qed.

(** The scatter of lines 968-970 fills position [rightOrder[idx]] with
    entry [idx], when [rightOrder] repeats no position and stays within
    its own length. *)
Lemma scatter_ok rightOrder xs :
  NoDup rightOrder →
  Forall (λ pos, pos < length rightOrder)%nat rightOrder →
  (length rightOrder ≤ length xs)%nat →
  ∃ res, scatter rightOrder xs = inr res
         ∧ length res = length rightOrder
         ∧ ∀ idx pos, rightOrder !! idx = Some pos →
             ∃ x, xs !! idx = Some x ∧ res !! pos = Some (Some x).
Proof.
  intros Hnd Hlt Hlen. unfold scatter. rewrite enumerate_eq.
  destruct (for_loop_enumerate_ok
              (λ '(idx, pos) scan_out_list,
                 let? x := list_get xs idx in
                 list_set scan_out_list pos (Some x))
              (λ k acc, length acc = length rightOrder
                        ∧ ∀ idx pos, (idx < k)%nat →
                            rightOrder !! idx = Some pos →
                            ∃ x, xs !! idx = Some x
                                 ∧ acc !! pos = Some (Some x))
              rightOrder 0%nat (replicate (length rightOrder) None))
    as (res & Hres & Hl & Hinv).
  - split; [by rewrite length_replicate|]. intros; lia.
  - simpl. intros i pos acc Hpos [Hl Hinv].
    destruct (lookup_lt_is_Some_2 xs i) as [x Hx].
    { apply lookup_lt_Some in Hpos. lia. }
    unfold list_get, list_set. rewrite Hx. simpl.
    assert (pos < length rightOrder)%nat as Hposlt.
    { by apply (Forall_lookup_1 _ _ _ _ Hlt Hpos). }
    rewrite decide_True by lia. eexists. split; [done|]. split.
    + by rewrite length_insert.
    + intros idx pos' Hidx Hpos'. destruct (decide (idx = i)) as [->|Hne].
      * rewrite Hpos in Hpos'. injection Hpos' as <-. exists x.
        split; [done|]. rewrite list_lookup_insert_eq by lia. done.
      * destruct (Hinv idx pos') as (x' & Hx' & Hacc); [lia|done|].
        exists x'. split; [done|]. rewrite list_lookup_insert_ne; [done|].
        intros ->. apply Hne. by eapply NoDup_lookup.
  - exists res. split; [done|]. split; [done|].
    intros idx pos Hpos. apply (Hinv idx pos); [|done].
    simpl. by apply lookup_lt_Some in Hpos.
Qed.

Lemma list_slice_full {A} (l : list A) a n :
  (a + n ≤ length l)%nat →
  length (list_slice l a (a + n)) = n
  ∧ ∀ i, (i < n)%nat → list_slice l a (a + n) !! i = l !! (a + i)%nat.
Proof.
  intros Hlen. unfold list_slice.
  replace (a + n - a)%nat with n by lia. split.
  - rewrite length_take, length_drop. lia.
  - intros i Hi. rewrite lookup_take_lt by done. by rewrite lookup_drop.
Qed.

Lemma list_slice_length {A} (l : list A) a b :
  (length (list_slice l a b) ≤ b - a)%nat.
Proof. unfold list_slice. rewrite length_take. lia. Qed.

Lemma remove_dimensions_Forall2 outs steps_return offsets :
  match offsets with
  | None => True
  | Some offs => (length outs ≤ length offs)%nat
  end →
  ∃ res, remove_dimensions outs steps_return offsets = inr res
         ∧ Forall2 trimmed outs res.
Proof.
  intros Hoffs.
  destruct (remove_dimensions_trimmed outs steps_return offsets Hoffs)
    as (res & Hres & Hlen & Htr).
  exists res. split; [done|].
  apply Forall2_same_length_lookup. split; [done|].
  intros i x y Hx Hy. destruct (Htr i x Hx) as (r & Hr & Ht). congruence.
Qed.

Lemma unpack_ok p a scan_outs :
  Forall (λ x, x ≠ []) (mit_sot_tap_array (p_st p)) →
  length (mit_sot_tap_array (p_st p)) = n_mit_sot (p_st p) →
  length (shared_scan_inputs (a_sh a)) = n_shared_outs (a_sh a) →
  let rightOrder := mit_sot_rightOrder (p_st p) ++ sit_sot_rightOrder (p_st p)
                    ++ nit_sot_rightOrder (a_ns a) in
  length rightOrder
  = (n_mit_sot (p_st p) + n_sit_sot (p_st p) + n_nit_sot (a_ns a))%nat →
  NoDup rightOrder →
  Forall (λ pos, pos < length rightOrder)%nat rightOrder →
  (length rightOrder ≤ length scan_outs)%nat →
  ∃ res um,
    unpack p a scan_outs = inr (unwrap_outputs res, um)
    ∧ length res = length rightOrder
    ∧ ∀ idx pos, rightOrder !! idx = Some pos →
        ∃ buf r, scan_outs !! idx = Some buf ∧ trimmed buf r
                 ∧ res !! pos = Some (Some r).
Proof.
  intros Hne Hta Hsh rightOrder Hlen Hnd Hlt Houts. subst rightOrder.
  set (n1 := n_mit_sot (p_st p)) in *.
  set (n2 := n_sit_sot (p_st p)) in *.
  set (n3 := n_nit_sot (a_ns a)) in *.
  unfold unpack. cbv zeta. fold n1 n2 n3.
  destruct (tap_offsets_ok _ Hne) as (offs & -> & Hoffs). cbn [rbind].
  destruct (list_slice_full scan_outs 0 n1) as [Hl1 _]; [lia|].
  destruct (list_slice_full scan_outs (0 + n1) n2) as [Hl2 _]; [lia|].
  destruct (list_slice_full scan_outs (0 + n1 + n2) n3) as [Hl3 _]; [lia|].
  destruct (remove_dimensions_Forall2 (list_slice scan_outs 0 (0 + n1))
              (mit_sot_return_steps (p_st p)) (Some offs)) as (r1 & -> & H1).
  { rewrite Hl1. lia. }
  cbn [rbind].
  destruct (remove_dimensions_Forall2
              (list_slice scan_outs (0 + n1) (0 + n1 + n2))
              (sit_sot_return_steps (p_st p)) (Some (replicate n2 1)))
    as (r2 & -> & H2).
  { rewrite Hl2, length_replicate. lia. }
  cbn [rbind].
  destruct (remove_dimensions_Forall2
              (list_slice scan_outs (0 + n1 + n2) (0 + n1 + n2 + n3))
              (nit_sot_return_steps (a_ns a)) None) as (r3 & -> & H3); [done|].
  cbn [rbind].
  destruct (update_map_loop_ok
              (list_slice scan_outs (0 + n1 + n2 + n3)
                          (0 + n1 + n2 + n3 + n_shared_outs (a_sh a)))
              (shared_scan_inputs (a_sh a))) as (um & ->).
  { rewrite Hsh.
    etrans; [apply list_slice_length|]. lia. }
  cbn [rbind].
  assert (Forall2 trimmed (take (n1 + n2 + n3) scan_outs) (r1 ++ r2 ++ r3))
    as Hall.
  { rewrite <- (take_take_drop scan_outs (n1 + n2) n3).
    rewrite <- (take_take_drop scan_outs n1 n2).
    rewrite <- app_assoc.
    unfold list_slice in H1, H2, H3. simpl in H1, H2, H3.
    replace (n1 - 0)%nat with n1 in H1 by lia.
    replace (n1 + n2 - n1)%nat with n2 in H2 by lia.
    replace (n1 + n2 + n3 - (n1 + n2))%nat with n3 in H3 by lia.
    by repeat apply Forall2_app. }
  destruct (scatter_ok _ (r1 ++ r2 ++ r3) Hnd Hlt)
    as (res & -> & Hres & Hsc).
  { rewrite <- (Forall2_length _ _ _ Hall), length_take. lia. }
  cbn [rbind]. exists res, um. split; [done|]. split; [done|].
  intros idx pos Hpos. destruct (Hsc idx pos Hpos) as (x & Hx & Hr).
  destruct (Forall2_lookup_r _ _ _ _ _ Hall Hx) as (buf & Hbuf & Htr).
  exists buf, x. split_and!; [|done|done].
  rewrite lookup_take_Some in Hbuf. by destruct Hbuf.
Qed.

Lemma classified_cases d :
  classified d = true →
  (is_mit_sot d = true ∧ is_sit_sot d = false ∧ is_nit_sot d = false)
  ∨ (is_mit_sot d = false ∧ is_sit_sot d = true ∧ is_nit_sot d = false)
  ∨ (is_mit_sot d = false ∧ is_sit_sot d = false ∧ is_nit_sot d = true).
Proof.
  unfold classified, is_mit_sot, is_nit_sot, is_sit_sot.
  destruct (out_taps d) as [[|k|[|k0 l]]|]; simpl;
    repeat case_bool_decide; simpl; naive_solver.
Qed.

Lemma positions_none {A} (P : A → bool) (l : list A) :
  Forall (λ x, P x = false) l → positions P l = [].
Proof.
  induction l as [|x l IH] using rev_ind; intros Hall; [done|].
  apply Forall_app in Hall as [Hall Hx]. rewrite Forall_singleton in Hx.
  by rewrite positions_snoc, Hx, (IH Hall).
Qed.

Lemma check_outputs_positions outputs l oi :
  check_outputs outputs l = inr oi →
  Forall (λ d, classified d = true) l →
  Forall (λ d, classified d = true) oi
  ∧ positions is_mit_sot oi = positions is_mit_sot l
  ∧ positions is_sit_sot oi = positions is_sit_sot l.
Proof.
  unfold check_outputs. intros H Hall.
  destruct (negb _); [done|]. case_bool_decide as Hl.
  - injection H as <-. subst l.
    split_and!.
    + apply Forall_forall. by intros x [-> _]%elem_of_replicate.
    + apply positions_none, Forall_forall.
      by intros x [-> _]%elem_of_replicate.
    + apply positions_none, Forall_forall.
      by intros x [-> _]%elem_of_replicate.
  - by injection H as <-.
Qed.

(** C4, as written, fails in its last clause: with no output declared and
    a step function that returns one output, [scan] returns that output,
    not [None] (lines 761-763 take the number of outputs from the step
    function). *)
Lemma undeclared_output_returned : ¬ none_declared_returns_none.
Proof.
  intros H.
  specialize (H plain_theano (double_each NoneSteps) _ _ _ eq_refl eq_refl).
  discriminate H.
Qed.

(** C4, amended: on the path through the scan op, when every entry of
    [outputs_info] falls in one of the categories mit_sot, sit_sot and
    nit_sot, [rightOrder] is a permutation of the positions of the
    outputs, and the list returned holds at position [rightOrder[idx]] the
    (trimmed) buffer number [idx] of the scan op, so that every output is
    at its original position.  The number of outputs is that of the
    declared entries or, when none is declared, the number the step
    function returned: with one output a single value is returned, with
    none [None], and otherwise the list. *)
Theorem outputs_scattered_in_order c tr0 p outputs updates :
  scan_prepare T c = (tr0, inr p) →
  in_1_m1 (p_n_fixed_steps p) = false →
  fn c (p_args p) = (outputs, updates) →
  length outputs = length (p_outs_info p) ∨ p_outs_info p = [] →
  Forall (λ d, classified d = true) (p_outs_info p) →
  (∀ info ii no si,
     (info_n_mit_sot info + info_n_sit_sot info + info_n_nit_sot info
      ≤ length (scan_op_apply T info ii no si))%nat) →
  ∃ oi a tr res upd,
    check_outputs outputs (p_outs_info p) = inr oi
    ∧ scan T c = (tr, inr (unwrap_outputs res, upd))
    ∧ EvBuildScanOp (a_info a) (a_inner_inputs a) (a_new_outs a) ∈ tr
    ∧ length res = length outputs
    ∧ (let rightOrder := positions is_mit_sot oi ++ positions is_sit_sot oi
                         ++ positions is_nit_sot oi in
       let scan_outs := scan_op_apply T (a_info a) (a_inner_inputs a)
                                      (a_new_outs a) (a_scan_inputs a) in
       rightOrder ≡ₚ seq 0 (length outputs)
       ∧ ∀ idx pos, rightOrder !! idx = Some pos →
           ∃ buf r, scan_outs !! idx = Some buf ∧ trimmed buf r
                    ∧ res !! pos = Some (Some r))
    ∧ (length outputs = 0%nat → unwrap_outputs res = OutsNone)
    ∧ (length outputs = 1%nat → ∃ o, unwrap_outputs res = OutsSingle (Some o))
    ∧ ((2 ≤ length outputs)%nat →
       unwrap_outputs res = OutsList res ∧ Forall is_Some res).
Proof.
  intros Hp Hin Hfn Hcount Hcl Hop.
  pose proof (scan_prepared _ _ _ Hp) as Hscan.
  rewrite Hin, Hfn in Hscan. simpl in Hscan.
  rewrite scan_loop_unfold in Hscan. cbv zeta in Hscan.
  match type of Hscan with context [arrange T c p outputs ?e ?d] =>
    destruct (arrange_ok c p outputs e d Hcount) as
      (a & oi & Ha & Hc & Hlen & (Hro & Hn & Hl & Hio & Hrs)
         & Hm & Hs & Hnn & Hns & Hsh);
      rewrite Ha in Hscan
  end.
  assert (out_state_inv (p_outs_info p) (p_return_steps p)
            (length (p_outs_info p)) (p_st p))
    as (Hmo & Hso & Hnm & Hnsit & Hta & Hne & _ & _).
  { apply scan_prepare_inv in Hp as (_ & _ & _ & _ & _ & _ & Hclo & _).
    by eapply classify_outs_inv. }
  rewrite take_ge in Hmo, Hso, Hro by done.
  destruct (check_outputs_positions _ _ _ Hc Hcl) as (Hcl' & Hpm & Hps).
  rewrite <- Hpm in Hmo. rewrite <- Hps in Hso.
  set (rightOrder := positions is_mit_sot oi ++ positions is_sit_sot oi
                     ++ positions is_nit_sot oi).
  assert (rightOrder ≡ₚ seq 0 (length outputs)) as Hperm.
  { rewrite <- Hlen. apply positions_partition.
    eapply Forall_impl; [exact Hcl'|]. apply classified_cases. }
  assert (length rightOrder = length outputs) as Hrlen.
  { by rewrite Hperm, length_seq. }
  destruct (unpack_ok p a
              (scan_op_apply T (a_info a) (a_inner_inputs a) (a_new_outs a)
                             (a_scan_inputs a)))
    as (res & um & Hun & Hreslen & Hres); try done.
  - rewrite Hmo, Hso, Hro. fold rightOrder.
    rewrite Hnm, Hnsit, Hn, Hmo, Hso, Hro. unfold rightOrder.
    by rewrite !length_app, Nat.add_assoc.
  - rewrite Hmo, Hso, Hro. fold rightOrder. rewrite Hperm. apply NoDup_seq.
  - rewrite Hmo, Hso, Hro. fold rightOrder. rewrite Hrlen.
    apply Forall_forall. intros pos Hpos. rewrite Hperm in Hpos.
    apply elem_of_seq in Hpos. lia.
  - rewrite Hmo, Hso, Hro. fold rightOrder. rewrite Hrlen.
    etrans; [|apply Hop]. rewrite Hm, Hs, Hnn, Hnm, Hnsit, Hn, Hmo, Hso, Hro.
    rewrite <- Hrlen. unfold rightOrder. rewrite !length_app. lia.
  - rewrite Hmo, Hso, Hro in Hreslen, Hres. fold rightOrder in Hreslen, Hres.
    rewrite Hun in Hscan.
    assert (∀ pos, (pos < length outputs)%nat → ∃ r, res !! pos = Some (Some r))
      as Hfull.
    { intros pos Hpos.
      assert (pos ∈ rightOrder) as Hin'.
      { rewrite Hperm. apply elem_of_seq. lia. }
      apply list_elem_of_lookup in Hin' as [idx Hidx].
      destruct (Hres idx pos Hidx) as (buf & r & _ & _ & Hr). eauto. }
    eexists oi, a, _, res, um. split_and!; try done.
    + apply elem_of_app. right. do 2 apply list_elem_of_further.
      apply list_elem_of_here.
    + lia.
    + intros H0. destruct res; [done|]. simpl in Hreslen. lia.
    + intros H1. destruct (Hfull 0%nat) as [r Hr]; [lia|].
      destruct res as [|o [|o' res]]; simpl in *; [done| |lia].
      injection Hr as ->. eauto.
    + intros H2. split.
      * destruct res as [|o [|o' res]]; simpl in *; [lia|lia|done].
      * apply Forall_lookup. intros pos x Hx.
        destruct (Hfull pos) as [r Hr].
        { apply lookup_lt_Some in Hx. lia. }
        rewrite Hx in Hr. injection Hr as ->. eauto.
Qed.

(** ** Further properties of steps 1 and 2 *)

(** The outcome of steps 1 and 2, without the log. *)
Lemma scan_prepare_result c :
  result (scan_prepare T c)
  = let? nf := n_fixed_steps_of T (n_steps c) in
    let? _ := check_n_steps_dtype T (n_steps c) in
    match result (wrap_outs 0 (wrap_into_list (outputs_info c)) ∅) with
    | inl e => inl e
    | inr (outs_info, return_steps) =>
        let seqs := wrap_seq <$> wrap_into_list (sequences c) in
        let? sq := for_loop (seq_slices (go_backwards c)) (enumerate seqs)
                            empty_seq_state in
        let? actual_n_steps := actual_n_steps_of T (scan_seqs sq) (n_steps c) in
        let? st := classify_outs actual_n_steps return_steps outs_info in
        let? args := step_args (in_1_m1 nf) sq st
                               (wrap_into_list (non_sequences c)) in
        inr (Prepared nf outs_info return_steps seqs sq actual_n_steps st
                      (wrap_into_list (non_sequences c)) args)
    end.
Proof.
  unfold scan_prepare. cbv zeta.
  rewrite result_bind, result_lift.
  destruct (n_fixed_steps_of T (n_steps c)) as [e|nf]; [done|]. cbn [rbind].
  rewrite result_bind, result_lift.
  destruct (check_n_steps_dtype T (n_steps c)) as [e|[]]; [done|]. cbn [rbind].
  rewrite result_bind.
  destruct (result (wrap_outs 0 (wrap_into_list (outputs_info c)) ∅))
    as [e|[oi rs]]; [done|].
  repeat (rewrite result_bind, result_lift;
          match goal with
          | |- context [rbind ?x _] => destruct x; [done|]; cbn [rbind]
          end).
  done.
Qed.

(** A failure of steps 1 and 2 is the outcome of [scan], and nothing but
    warnings has been logged by then. *)
Lemma scan_fails_before_fn c e :
  result (scan_prepare T c) = inl e →
  ∃ tr, scan T c = (tr, inl e) ∧ Forall (λ ev, is_warning ev = true) tr.
Proof.
  intros He. pose proof (scan_prepare_trace c) as Htr.
  destruct (scan_prepare T c) as [tr r] eqn:Hp. simpl in *. subst r.
  exists tr. split; [by apply scan_prepare_fails|done].
Qed.

Lemma wrap_outs_error os : ∀ i rs e,
  result (wrap_outs i os rs) = inl e → e = ValueError msg_need_initial.
Proof.
  induction os as [|o os IH]; intros i rs e; simpl; [done|].
  destruct (wrap_out_cases i o rs) as [->|(tr & -> & _ & _)].
  - simpl. by intros [= <-].
  - rewrite result_bind. simpl.
    match goal with |- context [wrap_outs (S i) os ?r] =>
      specialize (IH (S i) r);
      destruct (wrap_outs (S i) os r) as [tr2 [e'|[ds rs2]]]
    end; simpl in *; [|done].
    intros [= <-]. by apply IH.
Qed.

(** A loop fails as soon as one of its elements makes the body fail in
    every state. *)
Lemma for_loop_some_fails {A St} (body : A → St → R St) (l : list A) : ∀ s,
  (∃ a, a ∈ l ∧ ∀ s', ∃ e, body a s' = inl e) →
  ∃ e, for_loop body l s = inl e.
Proof.
  induction l as [|a l IH]; intros s (b & Hb & Hfail).
  - by apply elem_of_nil in Hb.
  - simpl. destruct (body a s) as [e|s1] eqn:Hbody; [eauto|].
    apply IH. exists b. split; [|done].
    apply elem_of_cons in Hb as [->|Hb]; [|done].
    destruct (Hfail s) as [e He]. congruence.
Qed.

Lemma elem_of_enumerate {A} (l : list A) i x :
  l !! i = Some x → (i, x) ∈ enumerate l.
Proof.
  intros Hx. unfold enumerate. apply list_elem_of_lookup. exists i.
  by rewrite list_lookup_imap, Hx.
Qed.

Lemma seq_slices_no_taps gb (l : list seq_dict) :
  Forall (λ d, seq_taps d = None) l →
  for_loop (seq_slices gb) (enumerate l) empty_seq_state = inr empty_seq_state.
Proof.
  intros Hall. rewrite enumerate_eq.
  destruct (for_loop_enumerate_ok (seq_slices gb)
              (λ _ st, st = empty_seq_state) l 0%nat empty_seq_state)
    as (st & Hst & ->); [done| |done].
  simpl. intros i x s1 Hx ->. exists empty_seq_state. split; [|done].
  by rewrite (Forall_lookup_1 _ _ _ _ Hall Hx).
Qed.

(** X1 (lines 479-484): when [n_steps] is not given and no sequence has
    taps (there is no sequence at all, or only dictionaries left without
    the key ['taps']), [scan] raises a ValueError before the step function
    is called: the one of line 481, "No information about the number of
    steps", unless step 1 has already raised the one of line 366. *)
Theorem no_step_information c :
  n_steps c = NoneSteps →
  Forall (λ s, seq_taps (wrap_seq s) = None) (wrap_into_list (sequences c)) →
  ∃ tr msg,
    scan T c = (tr, inl (ValueError msg))
    ∧ Forall (λ ev, is_warning ev = true) tr
    ∧ (msg = msg_need_initial ∨ msg = msg_no_steps)
    ∧ (∀ r, result (wrap_outs 0 (wrap_into_list (outputs_info c)) ∅) = inr r →
            msg = msg_no_steps).
Proof.
  intros Hn Hseqs.
  assert (∃ msg, result (scan_prepare T c) = inl (ValueError msg)
                 ∧ (msg = msg_need_initial ∨ msg = msg_no_steps)
                 ∧ (∀ r, result (wrap_outs 0 (wrap_into_list (outputs_info c)) ∅)
                         = inr r → msg = msg_no_steps))
    as (msg & Hres & Hmsg & Hok).
  { rewrite scan_prepare_result, Hn. simpl.
    destruct (result (wrap_outs 0 (wrap_into_list (outputs_info c)) ∅))
      as [e|[oi rs]] eqn:Hw.
    - apply wrap_outs_error in Hw as ->. exists msg_need_initial.
      split_and!; [done|by left|done].
    - cbv zeta. rewrite seq_slices_no_taps by (by apply Forall_fmap).
      simpl. exists msg_no_steps. split_and!; [done|by right|done]. }
  destruct (scan_fails_before_fn c _ Hres) as (tr & Hscan & Htr).
  by exists tr, msg.
Qed.

(** X2 (lines 324-325): a Python float given for [n_steps] that is NaN or
    infinite makes [scan] raise at once, when line 325 converts it with
    [int()]: ValueError for NaN and OverflowError for an infinity.  The
    test [isNaN_or_Inf_or_None] of line 474 is never reached for them. *)
Theorem non_finite_float_n_steps c f :
  n_steps c = FloatSteps f →
  float_nan_or_inf f = true →
  scan T c = ([], inl (match f with
                       | FNaN => ValueError msg_nan_to_int
                       | _ => OverflowError
                       end)).
Proof.
  intros Hn Hf. unfold scan, scan_prepare. cbv zeta. rewrite Hn.
  by destruct f.
Qed.

(** X3 (lines 344-351, 404-408): a sequence dictionary whose ['taps'] is
    the empty list or the integer 0 is left as it is by step 1 (it is
    false in a condition and is not [None]) and makes [scan] fail before
    the step function is called. *)
Theorem falsy_sequence_taps_fail c j d :
  wrap_into_list (sequences c) !! j = Some (SeqDict d) →
  seq_taps d = Some (TapsList []) ∨ seq_taps d = Some (TapsInt 0) →
  wrap_seq (SeqDict d) = d
  ∧ ∃ tr e, scan T c = (tr, inl e)
            ∧ Forall (λ ev, is_warning ev = true) tr.
Proof.
  intros Hj Htaps.
  assert (wrap_seq (SeqDict d) = d) as Hw.
  { unfold wrap_seq. destruct Htaps as [Ht|Ht]; rewrite Ht; simpl;
      by destruct d. }
  split; [done|].
  assert (∃ e, result (scan_prepare T c) = inl e) as [e He].
  { rewrite scan_prepare_result.
    destruct (n_fixed_steps_of T (n_steps c)) as [e|nf]; [eauto|].
    cbn [rbind].
    destruct (check_n_steps_dtype T (n_steps c)) as [e|[]]; [eauto|].
    cbn [rbind].
    destruct (result (wrap_outs 0 (wrap_into_list (outputs_info c)) ∅))
      as [e|[oi rs]]; [eauto|].
    cbv zeta.
    destruct (for_loop_some_fails (seq_slices (go_backwards c))
                (enumerate (wrap_seq <$> wrap_into_list (sequences c)))
                empty_seq_state) as [e ->]; [|eauto].
    exists (j, d). split.
    - apply elem_of_enumerate. rewrite list_lookup_fmap, Hj.
      exact (f_equal Some Hw).
    - intros s'. unfold seq_slices.
      destruct Htaps as [->| ->]; eauto. }
  destruct (scan_fails_before_fn c e He) as (tr & Hscan & Htr). eauto.
Qed.

(** X4 (lines 348, 582-602): an integer given for ['taps'] is wrapped
    into a list for a sequence, but not for an output: a non-zero integer
    as the taps of an [outputs_info] dictionary makes [scan] fail before
    the step function is called. *)
Theorem integer_output_taps_fail c j d k x :
  wrap_into_list (outputs_info c) !! j = Some (OutDict d) →
  out_taps d = Some (TapsInt k) →
  k ≠ 0 →
  wrap_seq (SeqDict (SeqD x (Some (TapsInt k)))) = SeqD x (Some (TapsList [k]))
  ∧ ∃ tr e, scan T c = (tr, inl e)
            ∧ Forall (λ ev, is_warning ev = true) tr.
Proof.
  intros Hj Htaps Hk. split.
  { unfold wrap_seq. simpl. by rewrite bool_decide_true. }
  assert (∃ e, result (scan_prepare T c) = inl e) as [e He].
  { rewrite scan_prepare_result.
    destruct (n_fixed_steps_of T (n_steps c)) as [e|nf]; [eauto|].
    cbn [rbind].
    destruct (check_n_steps_dtype T (n_steps c)) as [e|[]]; [eauto|].
    cbn [rbind].
    destruct (wrap_outs 0 (wrap_into_list (outputs_info c)) ∅)
      as [tr [e|[oi rs]]] eqn:Hw; [simpl; eauto|].
    apply wrap_outs_ok in Hw as [-> _]. simpl result. cbv zeta.
    destruct (for_loop _ _ _) as [e|sq]; [eauto|]. cbn [rbind].
    destruct (actual_n_steps_of _ _ _) as [e|ans]; [eauto|]. cbn [rbind].
    unfold classify_outs.
    destruct (for_loop_some_fails (classify_out ans rs)
                (enumerate (wrapped <$> wrap_into_list (outputs_info c)))
                empty_out_state) as [e ->]; [|eauto].
    exists (j, wrapped (OutDict d)). split.
    - apply elem_of_enumerate. by rewrite list_lookup_fmap, Hj.
    - intros s'.
      assert (taps_truthy (out_taps d) = true) as Htr.
      { rewrite Htaps. simpl. by rewrite bool_decide_true. }
      assert (wrapped (OutDict d) = d) as ->.
      { unfold wrapped. by rewrite Htr, andb_false_r. }
      unfold classify_out. rewrite Htaps.
      rewrite bool_decide_false by done. cbn [taps_truthy].
      rewrite (bool_decide_true (k ≠ 0)) by done.
      case_bool_decide; [eauto|]. destruct (out_initial d); eauto. }
  destruct (scan_fails_before_fn c e He) as (tr & Hscan & Htr). eauto.
Qed.

(** ** The log of [scan] *)

(** The four ways a call of [scan] can go. *)
Lemma scan_cases c :
  (∃ tr e, scan_prepare T c = (tr, inl e) ∧ scan T c = (tr, inl e))
  ∨ ∃ tr0 p outputs updates,
      scan_prepare T c = (tr0, inr p)
      ∧ fn c (p_args p) = (outputs, updates)
      ∧ ((in_1_m1 (p_n_fixed_steps p) = true
          ∧ scan T c
            = (tr0 ++ [EvCallFn (p_args p)],
               inr (single_step_outputs T (p_return_steps p) outputs, updates)))
         ∨ (in_1_m1 (p_n_fixed_steps p) = false
            ∧ let extra_inputs := extra_inputs_of T outputs (p_args p) in
              let dummy_args :=
                filter (λ arg, is_shared arg = false) (p_args p)
                ++ extra_inputs in
              let dummy_inputs :=
                expanded_inputs T dummy_args outputs updates in
              (∃ e, arrange T c p outputs extra_inputs dummy_inputs = inl e
                    ∧ scan T c
                      = (tr0 ++ [EvCallFn (p_args p);
                                 EvCompileProbe dummy_args outputs], inl e))
              ∨ (∃ a, arrange T c p outputs extra_inputs dummy_inputs = inr a
                      ∧ scan T c
                        = (tr0 ++ [EvCallFn (p_args p);
                                   EvCompileProbe dummy_args outputs;
                                   EvBuildScanOp (a_info a) (a_inner_inputs a)
                                                 (a_new_outs a);
                                   EvApplyScanOp (a_scan_inputs a)],
                           unpack p a
                             (scan_op_apply T (a_info a) (a_inner_inputs a)
                                (a_new_outs a) (a_scan_inputs a)))))).
Proof.
  destruct (scan_prepare T c) as [tr [e|p]] eqn:Hp.
  { left. exists tr, e. split; [done|]. by apply scan_prepare_fails. }
  right. destruct (fn c (p_args p)) as [outputs updates] eqn:Hfn.
  exists tr, p, outputs, updates. split; [done|]. split; [done|].
  rewrite (scan_prepared _ _ _ Hp), Hfn. simpl.
  destruct (in_1_m1 (p_n_fixed_steps p)); [by left|]. right.
  split; [done|]. rewrite scan_loop_unfold. cbv zeta.
  destruct (arrange T c p outputs _ _) as [e|a]; [left|right]; eauto.
Qed.

(** X5 (lines 683-913): whatever the call, the log of [scan] is a run of
    warnings followed by nothing, or by the one call of the step function,
    or by that call and the compilation of the probe, or by these two and
    the construction and the application of the scan op, in this order.
    So the step function is never called twice, the probe is never
    compiled before it, and no scan op is built without a probe; the log
    stops before the scan op only when [scan] raises or takes the
    single-step return. *)
Theorem scan_log_order c :
  ∃ ws rest,
    trace (scan T c) = ws ++ rest
    ∧ Forall (λ ev, is_warning ev = true) ws
    ∧ ((rest = [] ∧ ∃ e, result (scan T c) = inl e)
       ∨ (∃ args, rest = [EvCallFn args]
                  ∧ ∃ r, result (scan T c) = inr r)
       ∨ (∃ args dummy_args outs,
            rest = [EvCallFn args; EvCompileProbe dummy_args outs]
            ∧ outs = (fn c args).1
            ∧ ∃ e, result (scan T c) = inl e)
       ∨ (∃ args dummy_args outs info inner_inputs new_outs scan_inputs,
            rest = [EvCallFn args; EvCompileProbe dummy_args outs;
                    EvBuildScanOp info inner_inputs new_outs;
                    EvApplyScanOp scan_inputs]
            ∧ outs = (fn c args).1)).
Proof.
  pose proof (scan_prepare_trace c) as Htr.
  destruct (scan_cases c) as
    [(tr & e & Hp & ->)
    |(tr0 & p & outputs & updates & Hp & Hfn
        & [[Hin ->]|[Hin [(e & Ha & ->)|(a & Ha & ->)]]])];
    rewrite Hp in Htr; simpl in Htr; simpl.
  - exists tr, []. rewrite app_nil_r. split_and!; [done|done|]. left. eauto.
  - exists tr0, [EvCallFn (p_args p)]. split_and!; [done|done|].
    right. left. eauto.
  - eexists tr0, _. split_and!; [done|done|].
    right. right. left. eexists _, _, _. split; [done|].
    rewrite Hfn. eauto.
  - eexists tr0, _. split_and!; [done|done|].
    right. right. right. eexists _, _, _, _, _, _, _. split; [done|].
    by rewrite Hfn.
Qed.

Lemma not_warning_in_app ev (ws rest : list event) :
  Forall (λ ev, is_warning ev = true) ws →
  is_warning ev = false → ev ∈ ws ++ rest → ev ∈ rest.
Proof.
  intros Hws Hev [Hin|Hin]%elem_of_app; [|done].
  apply (proj1 (Forall_forall _ _) Hws) in Hin. congruence.
Qed.

(** X6 (lines 673-741): the probe is compiled on the outputs of the call
    of the step function, and its inputs are the arguments of that call
    that are not shared variables, followed by the inputs of the graph of
    the outputs that are neither shared, nor constant, nor among the
    arguments: no shared variable is ever an explicit input of the probe. *)
Theorem probe_inputs c dummy_args outs :
  EvCompileProbe dummy_args outs ∈ trace (scan T c) →
  ∃ args updates,
    EvCallFn args ∈ trace (scan T c)
    ∧ fn c args = (outs, updates)
    ∧ Forall (λ x, is_shared x = false) dummy_args
    ∧ (∀ x, x ∈ dummy_args ↔
            ((x ∈ args ∧ is_shared x = false)
             ∨ (x ∈ graph_inputs T outs ∧ (x ∉ args)
                ∧ is_shared x = false ∧ is_constant x = false))).
Proof.
  intros Hin. pose proof (scan_prepare_trace c) as Htr.
  destruct (scan_cases c) as
    [(tr & e & Hp & Hs)
    |(tr0 & p & outputs & updates & Hp & Hfn
        & [[_ Hs]|[_ [(e & _ & Hs)|(a & _ & Hs)]]])];
    rewrite Hp in Htr; rewrite Hs in Hin |- *; simpl in *.
  - apply (Forall_forall _ _) with (x := EvCompileProbe dummy_args outs) in Htr;
      done.
  - apply not_warning_in_app in Hin; [|done|done].
    apply list_elem_of_singleton in Hin. done.
  - apply not_warning_in_app in Hin; [|done|done].
    assert (dummy_args
            = filter (λ arg, is_shared arg = false) (p_args p)
              ++ extra_inputs_of T outputs (p_args p) ∧ outs = outputs)
      as [-> ->].
    { apply elem_of_cons in Hin as [?|Hin]; [done|].
      apply list_elem_of_singleton in Hin. by injection Hin as -> ->. }
    exists (p_args p), updates.
    split_and!; [apply elem_of_app; right; apply list_elem_of_here|done| |].
    + apply Forall_app. split; apply Forall_forall; intros x Hx.
      * by apply list_elem_of_filter in Hx as [Hx _].
      * unfold extra_inputs_of in Hx.
        apply list_elem_of_filter in Hx as [_ Hx].
        by apply list_elem_of_filter in Hx as [[Hx _] _].
    + intros x. unfold extra_inputs_of.
      rewrite elem_of_app, !list_elem_of_filter. tauto.
  - apply not_warning_in_app in Hin; [|done|done].
    assert (dummy_args
            = filter (λ arg, is_shared arg = false) (p_args p)
              ++ extra_inputs_of T outputs (p_args p) ∧ outs = outputs)
      as [-> ->].
    { apply elem_of_cons in Hin as [?|Hin]; [done|].
      apply elem_of_cons in Hin as [Hin|Hin]; [by injection Hin as -> ->|].
      apply elem_of_cons in Hin as [?|Hin]; [done|].
      by apply list_elem_of_singleton in Hin. }
    exists (p_args p), updates.
    split_and!; [apply elem_of_app; right; apply list_elem_of_here|done| |].
    + apply Forall_app. split; apply Forall_forall; intros x Hx.
      * by apply list_elem_of_filter in Hx as [Hx _].
      * unfold extra_inputs_of in Hx.
        apply list_elem_of_filter in Hx as [_ Hx].
        by apply list_elem_of_filter in Hx as [[Hx _] _].
    + intros x. unfold extra_inputs_of.
      rewrite elem_of_app, !list_elem_of_filter. tauto.
Qed.

(** ** Further properties of step 1 *)

Lemma wrap_out_trace i o rs tr x :
  wrap_out i o rs = (tr, inr x) →
  tr = if warned o then [EvWarning i] else [].
Proof.
  unfold wrap_out, warned. destruct o as [|e|d]; simpl.
  - by intros [= <- _].
  - by intros [= <- _].
  - case_bool_decide as Hd; simpl.
    2:{ assert (d = empty_out_dict) as ->
          by (by destruct (decide (d = empty_out_dict))).
        by intros [= <- _]. }
    destruct (out_initial d) as [ini|]; simpl.
    + destruct (taps_truthy (out_taps d)); simpl; [by intros [= <- _]|].
      case_bool_decide; simpl; by intros [= <- _].
    + destruct (taps_truthy (out_taps d)); simpl; [done|by intros [= <- _]].
Qed.

Lemma wrap_outs_warnings os : ∀ i0 rs tr r,
  wrap_outs i0 os rs = (tr, inr r) →
  ∀ j, EvWarning j ∈ tr ↔
       ((i0 ≤ j)%nat ∧ ∃ o, os !! (j - i0)%nat = Some o ∧ warned o = true).
Proof.
  induction os as [|o os IH]; intros i0 rs tr r H j; simpl in H.
  - injection H as <- _. split; [by intros ?%elem_of_nil|].
    by intros (_ & o & ? & _).
  - destruct (wrap_out i0 o rs) as [tr1 [e|[d rs1]]] eqn:Hw; [done|].
    pose proof (wrap_out_trace _ _ _ _ _ Hw) as Htr1.
    rewrite bind_ok in H. simpl in H.
    destruct (wrap_outs (S i0) os rs1) as [tr2 [e|[ds rs2]]] eqn:Hws; [done|].
    simpl in H. injection H as <- _. rewrite app_nil_r.
    specialize (IH _ _ _ _ Hws j).
    rewrite elem_of_app, IH, Htr1. split.
    + intros [Hin|(Hle & o' & Ho' & Hwarn)].
      * destruct (warned o) eqn:Hwo; [|by apply elem_of_nil in Hin].
        apply list_elem_of_singleton in Hin. injection Hin as ->.
        split; [done|]. exists o. by rewrite Nat.sub_diag.
      * split; [lia|]. exists o'. split; [|done].
        replace (j - i0)%nat with (S (j - S i0)) by lia. done.
    + intros (Hle & o' & Ho' & Hwarn).
      destruct (decide (j = i0)) as [->|Hne].
      * left. rewrite Nat.sub_diag in Ho'. injection Ho' as ->.
        rewrite Hwarn. apply list_elem_of_here.
      * right. split; [lia|]. exists o'. split; [|done].
        replace (j - i0)%nat with (S (j - S i0)) in Ho' by lia. done.
Qed.

(** X7 (lines 369-378): when step 1 succeeds, it has logged a warning
    for position [j] exactly when entry [j] of [outputs_info] is a
    dictionary with an initial state whose ['taps'] key is present with a
    value that is false in a condition ([None], [[]], [0]), and nothing
    else; such an entry, like one without the key, gets the taps [-1]. *)
Theorem warnings_for_explicit_empty_taps c tr p :
  scan_prepare T c = (tr, inr p) →
  Forall (λ ev, is_warning ev = true) tr
  ∧ (∀ j, EvWarning j ∈ tr ↔
          ∃ o, wrap_into_list (outputs_info c) !! j = Some o
               ∧ warned o = true)
  ∧ (∀ j d, wrap_into_list (outputs_info c) !! j = Some (OutDict d) →
            is_Some (out_initial d) →
            taps_truthy (out_taps d) = false →
            p_outs_info p !! j
            = Some (OutD (out_initial d) (Some (TapsList [-1]))
                         (out_return_steps d))).
Proof.
  intros Hp. pose proof (scan_prepare_trace c) as Htr. rewrite Hp in Htr.
  split; [done|].
  pose proof (wrap_outs_length _ _ _ Hp) as Hoi.
  apply scan_prepare_inv in Hp as (_ & _ & Hw & _). split.
  - intros j. rewrite (wrap_outs_warnings _ _ _ _ _ Hw j), Nat.sub_0_r.
    split; [by intros [_ ?]|]. intros ?. split; [lia|done].
  - intros j d Hj Hini Htaps. rewrite Hoi, list_lookup_fmap, Hj. simpl.
    by rewrite bool_decide_true, Htaps.
Qed.

(** X8 (lines 344-382): step 1 is idempotent.  It changes the
    dictionaries of the caller in place (lines 348, 351 and 378); an entry
    that it has wrapped once is left as it is by a second pass, which
    records the same [return_steps] and logs no warning, and the same
    holds for a sequence. *)
Theorem wrapping_idempotent i o rs tr d rs' s :
  wrap_out i o rs = (tr, inr (d, rs')) →
  wrap_out i (OutDict d) rs = ([], inr (d, rs'))
  ∧ wrap_seq (SeqDict (wrap_seq s)) = wrap_seq s.
Proof.
  intros Hw. split.
  - destruct (wrap_out_cases i o rs) as [Hc|(tr1 & Hc & _ & Hwd)];
      rewrite Hc in Hw; [done|].
    injection Hw as <- <- <-. clear Hc.
    unfold wrap_out, wrapped in *. destruct o as [|e|d0]; simpl; [done|done|].
    unfold wrapped_out in Hwd.
    destruct (out_initial d0) as [ini|] eqn:Hini; simpl in *.
    + destruct (taps_truthy (out_taps d0)) eqn:Htr; simpl in *.
      * rewrite bool_decide_true by (intros ->; done).
        rewrite ?Hini, ?Htr. simpl. unfold record_return_steps.
        destruct (out_return_steps d0); [|done]. by case_decide.
      * unfold record_return_steps. simpl.
        destruct (out_return_steps d0); [|done]. by case_decide.
    + destruct (taps_truthy (out_taps d0)) eqn:Htr; simpl in *.
      { rewrite Hini in Hwd. destruct (Hwd eq_refl) as [? ?]; done. }
      case_bool_decide as Hd; simpl.
      * rewrite ?Hini, ?Htr. simpl. unfold record_return_steps.
        destruct (out_return_steps d0); [|done]. by case_decide.
      * assert (d0 = empty_out_dict) as ->
          by (by destruct (decide (d0 = empty_out_dict))).
        done.
  - unfold wrap_seq. destruct s as [e|[x taps]]; simpl; [done|].
    destruct taps as [[|k|[|k0 l]]|]; try done.
    destruct (decide (k = 0)) as [->|Hk]; [done|].
    simpl. rewrite !(bool_decide_true (k ≠ 0)) by done. done.
Qed.

(** ** The time slices of the sequences *)

Lemma concat_imap_snoc {A B} (f : nat → A → list B) (l : list A) (x : A) :
  concat (imap f (l ++ [x])) = concat (imap f l) ++ f (length l) x.
Proof.
  rewrite imap_app, concat_app. simpl. by rewrite app_nil_r, Nat.add_0_r.
Qed.

(** The loop over the taps of one sequence (lines 408-465) never fails
    and appends one window, one placeholder and one slice per tap. *)
Lemma seq_taps_loop gb i input mintap maxtap taps st :
  ∃ st',
    for_loop (seq_tap gb i input mintap maxtap) (enumerate taps) st = inr st'
    ∧ scan_seqs st'
      = scan_seqs st ++ (seq_window gb input mintap maxtap <$> taps)
    ∧ inner_seqs st'
      = inner_seqs st
        ++ imap (λ j k, ENew (SiteSeq i j) (EIndex input (k - mintap))) taps
    ∧ inner_slices st'
      = inner_slices st ++ ((λ k, EIndex input (k - mintap)) <$> taps)
    ∧ n_seqs st' = (n_seqs st + length taps)%nat.
Proof.
  rewrite enumerate_eq.
  destruct (for_loop_enumerate_ok (seq_tap gb i input mintap maxtap)
              (λ n st',
                 scan_seqs st'
                 = scan_seqs st
                   ++ (seq_window gb input mintap maxtap <$> take n taps)
                 ∧ inner_seqs st'
                   = inner_seqs st
                     ++ imap (λ j k, ENew (SiteSeq i j)
                                          (EIndex input (k - mintap)))
                             (take n taps)
                 ∧ inner_slices st'
                   = inner_slices st
                     ++ ((λ k, EIndex input (k - mintap)) <$> take n taps)
                 ∧ n_seqs st' = (n_seqs st + n)%nat)
              taps 0%nat st) as (st' & Hloop & H1 & H2 & H3 & H4).
  - simpl. rewrite !app_nil_r. split_and!; [done|done|done|lia].
  - simpl. intros n k s1 Hk (H1 & H2 & H3 & H4). eexists. split; [done|].
    simpl. rewrite (take_S_r _ _ _ Hk), H1, H2, H3, H4.
    rewrite !fmap_app, imap_app, <- !app_assoc. simpl.
    rewrite length_take_le by (apply lookup_lt_Some in Hk; lia).
    rewrite Nat.add_0_r. split_and!; try done; try lia.
  - simpl in *. rewrite take_ge in H1, H2, H3 by done. by exists st'.
Qed.

(** What the loop over the sequences (lines 401-465) builds. *)
Lemma seq_slices_spec gb (l : list seq_dict) sq :
  for_loop (seq_slices gb) (enumerate l) empty_seq_state = inr sq →
  scan_seqs sq = concat (seq_windows gb <$> l)
  ∧ inner_seqs sq = concat (imap (seq_placeholders false) l)
  ∧ inner_slices sq = concat (imap (seq_placeholders true) l)
  ∧ n_seqs sq = length (scan_seqs sq).
Proof.
  rewrite enumerate_eq. intros H.
  apply (for_loop_enumerate_inv _
           (λ n sq,
              scan_seqs sq = concat (seq_windows gb <$> take n l)
              ∧ inner_seqs sq = concat (imap (seq_placeholders false) (take n l))
              ∧ inner_slices sq
                = concat (imap (seq_placeholders true) (take n l))
              ∧ n_seqs sq = length (scan_seqs sq))) in H.
  - simpl in H. by rewrite take_ge in H by done.
  - done.
  - intros i d s1 s2 Hd (H1 & H2 & H3 & H4) Hbody.
    change (0 + i)%nat with i in *. cbn beta.
    rewrite (take_S_r _ _ _ Hd), fmap_app, concat_app, !concat_imap_snoc.
    rewrite length_take_le by (apply lookup_lt_Some in Hd; lia).
    simpl. rewrite app_nil_r.
    unfold seq_slices in Hbody.
    unfold seq_windows, seq_placeholders, seq_tap_list.
    destruct (seq_taps d) as [[|k|[|k0 taps]]|]; try done.
    + destruct (seq_taps_loop gb i (seq_input d) (numpy_min k0 taps)
                  (numpy_max k0 taps) (k0 :: taps) s1)
        as (st' & Hloop & E1 & E2 & E3 & E4).
      rewrite Hloop in Hbody. injection Hbody as <-.
      rewrite E1, E2, E3, E4, H1, H2, H3, H4.
      split_and!; try done.
      * f_equal. symmetry. apply imap_const.
      * rewrite length_app, length_fmap, <- H1. done.
    + injection Hbody as <-. by rewrite !app_nil_r.
Qed.

Lemma numpy_min_le k0 l : ∀ k, k ∈ k0 :: l → numpy_min k0 l ≤ k.
Proof.
  unfold numpy_min. revert k0.
  induction l as [|x l IH]; intros k0 k Hk; simpl.
  - apply list_elem_of_singleton in Hk. lia.
  - apply elem_of_cons in Hk as [->|Hk].
    + etrans; [apply (IH (Z.min k0 x) (Z.min k0 x)); by left|]. lia.
    + apply elem_of_cons in Hk as [->|Hk].
      * etrans; [apply (IH (Z.min k0 x) (Z.min k0 x)); by left|]. lia.
      * apply IH. by right.
Qed.

Lemma numpy_max_ge k0 l : ∀ k, k ∈ k0 :: l → k ≤ numpy_max k0 l.
Proof.
  unfold numpy_max. revert k0.
  induction l as [|x l IH]; intros k0 k Hk; simpl.
  - apply list_elem_of_singleton in Hk. lia.
  - apply elem_of_cons in Hk as [->|Hk].
    + etrans; [|apply (IH (Z.max k0 x) (Z.max k0 x)); by left]. lia.
    + apply elem_of_cons in Hk as [->|Hk].
      * etrans; [|apply (IH (Z.max k0 x) (Z.max k0 x)); by left]. lia.
      * apply IH. by right.
Qed.

Lemma py_slice_between {A} (l : list A) (a b : Z) :
  0 ≤ a → 0 < b → a + b ≤ Z.of_nat (length l) →
  py_slice l (Some a) (Some (- b))
  = take (length l - Z.to_nat b - Z.to_nat a) (drop (Z.to_nat a) l).
Proof.
  intros Ha Hb Hab. unfold py_slice, slice_bound.
  rewrite decide_False by lia. rewrite decide_True by done.
  rewrite Nat.min_l by lia. f_equal. lia.
Qed.

(** X9 (lines 445-458): the windows of one sequence are aligned.  When
    the taps of a sequence are not all equal to one non-zero value and the
    sequence is long enough, the window handed to the scan op for each tap
    [k] has the same number of rows, the length of the sequence minus
    [offset + maxtap - mintap], and its row [t] is row
    [t + offset + k - mintap] of the sequence, where [offset] is [|maxtap|]
    for a negative [maxtap] and 0 otherwise; with [go_backwards] the window
    is that one reversed.  When all taps equal one non-zero value, the
    window is the first [|maxtap|] rows of the sequence. *)
Theorem seq_windows_aligned env input buf k0 l k :
  eval env input = Some (TArray buf) →
  k ∈ k0 :: l →
  let mintap := numpy_min k0 l in
  let maxtap := numpy_max k0 l in
  let offset := if decide (maxtap < 0) then Z.abs maxtap else 0 in
  (¬ (maxtap = mintap ∧ maxtap ≠ 0) →
   offset + maxtap - mintap ≤ Z.of_nat (length buf) →
   ∃ w,
     eval env (seq_window false input mintap maxtap k) = Some (TArray w)
     ∧ eval env (seq_window true input mintap maxtap k)
       = Some (TArray (reverse w))
     ∧ Z.of_nat (length w)
       = Z.of_nat (length buf) - (offset + maxtap - mintap)
     ∧ ∀ t, (t < length w)%nat →
            w !! t = buf !! (t + Z.to_nat (offset + k - mintap))%nat)
  ∧ (maxtap = mintap ∧ maxtap ≠ 0 →
     eval env (seq_window false input mintap maxtap k)
     = Some (TArray (take (Z.to_nat (Z.abs maxtap)) buf))).
Proof.
  intros Hev Hk mintap maxtap offset.
  pose proof (numpy_min_le k0 l k Hk) as Hmin.
  pose proof (numpy_max_ge k0 l k Hk) as Hmax.
  fold mintap in Hmin. fold maxtap in Hmax.
  assert (0 ≤ offset) as Hoff by (unfold offset; case_decide; lia).
  split.
  - intros Hne Hlen. unfold seq_window. fold offset.
    rewrite decide_False by done.
    destruct (decide (maxtap - k ≠ 0)) as [Hd|Hd].
    + exists (py_slice buf (Some (offset + k - mintap))
                       (Some (- (maxtap - k)))).
      simpl. rewrite Hev. split; [done|]. split; [done|].
      rewrite py_slice_between by lia. split.
      * rewrite length_take, length_drop. lia.
      * intros t Ht. rewrite length_take, length_drop in Ht.
        rewrite lookup_take_lt by lia.
        rewrite lookup_drop. f_equal. lia.
    + exists (py_slice buf (Some (offset + k - mintap)) None).
      simpl. rewrite Hev. split; [done|]. split; [done|].
      rewrite py_slice_from by lia. split.
      * rewrite length_drop. lia.
      * intros t Ht. rewrite lookup_drop. f_equal. lia.
  - intros Heq. unfold seq_window. rewrite decide_True by done.
    simpl. rewrite Hev. f_equal. f_equal.
    unfold py_slice, slice_bound. rewrite decide_True by lia.
    rewrite Nat.sub_0_r. change (drop 0 buf) with buf.
    destruct (decide (Z.to_nat (Z.abs maxtap) ≤ length buf)%nat).
    + by rewrite Nat.min_l by done.
    + rewrite Nat.min_r by lia.
      rewrite (take_ge buf (length buf)) by lia.
      by rewrite (take_ge buf (Z.to_nat (Z.abs maxtap))) by lia.
Qed.

(** ** The arguments of the step function *)

Lemma for_loop_seq_inv {St} (body : nat → St → R St) (I : nat → St → Prop) :
  ∀ n a s s',
  I a s →
  (∀ i s1 s2, (a ≤ i < a + n)%nat → I i s1 → body i s1 = inr s2 → I (S i) s2) →
  for_loop body (seq a n) s = inr s' → I (a + n)%nat s'.
Proof.
  induction n as [|n IH]; intros a s s' Hs Hbody Hloop; simpl in *.
  - injection Hloop as <-. by rewrite Nat.add_0_r.
  - destruct (body a s) as [e|s1] eqn:Hb; [done|].
    replace (a + S n)%nat with (S a + n)%nat by lia.
    apply (IH (S a) s1 s'); [| |done].
    + apply (Hbody a s s1); [lia|done|done].
    + intros i s2 s3 Hi. apply Hbody. lia.
Qed.

Lemma entries_snoc {A} (P : A → bool) (l : list A) (x : A) :
  entries P (l ++ [x]) = entries P l ++ (if P x then [(length l, x)] else []).
Proof.
  unfold entries, enumerate. rewrite imap_app, filter_app.
  f_equal. simpl. rewrite Nat.add_0_r.
  rewrite filter_cons. simpl. destruct (P x); [|by rewrite decide_False].
  by rewrite decide_True.
Qed.

Lemma entries_take_S {A} (P : A → bool) (l : list A) k x :
  l !! k = Some x →
  entries P (take (S k) l)
  = entries P (take k l) ++ (if P x then [(k, x)] else []).
Proof.
  intros Hx. rewrite (take_S_r _ _ _ Hx), entries_snoc.
  rewrite length_take_le; [done|]. apply lookup_lt_Some in Hx. lia.
Qed.

Lemma elem_of_entries {A} (P : A → bool) (l : list A) i d :
  (i, d) ∈ entries P l ↔ l !! i = Some d ∧ P d = true.
Proof.
  unfold entries, enumerate. rewrite list_elem_of_filter. simpl.
  rewrite elem_of_lookup_imap. split.
  - intros [HP (j & y & [= -> ->] & Hl)]. done.
  - intros [Hl HP]. split; [done|]. by exists i, d.
Qed.

Lemma out_placeholders_length b i d :
  length (out_placeholders b i d) = length (out_placeholders true i d).
Proof.
  unfold out_placeholders. destruct (out_initial d); [|done].
  destruct (is_sit_sot d); [done|].
  destruct (taps_truthy (out_taps d)); [|done].
  destruct (out_taps d) as [[| |[|k0 l]]|]; try done.
  by rewrite !length_imap.
Qed.

Lemma out_placeholders_unclassified b i d :
  is_mit_sot d = false → is_sit_sot d = false → out_placeholders b i d = [].
Proof.
  unfold is_mit_sot, out_placeholders. intros Hm Hs. rewrite Hs in *.
  simpl in Hm. rewrite Hm. by destruct (out_initial d).
Qed.

Lemma out_placeholders_sit b i d ini :
  is_sit_sot d = true → out_initial d = Some ini →
  out_placeholders b i d = [if b then ini else ENew (SiteSit i) ini].
Proof. unfold out_placeholders. by intros -> ->. Qed.

Lemma out_placeholders_mit b i d ini k0 l :
  is_sit_sot d = false → out_taps d = Some (TapsList (k0 :: l)) →
  out_initial d = Some ini →
  out_placeholders b i d
  = imap (λ j k, if b then EIndex ini (k + Z.abs (numpy_min k0 l))
                 else ENew (SiteMit i j)
                        (EIndex ini (k + Z.abs (numpy_min k0 l))))
         (k0 :: l).
Proof. unfold out_placeholders. by intros -> -> ->. Qed.

(** What the loop of lines 539-634 collects for the step function. *)
Lemma classify_outs_chunks actual rs l st :
  classify_outs actual rs l = inr st → chunks_inv l (length l) st.
Proof.
  unfold classify_outs. rewrite enumerate_eq. intros H.
  apply (for_loop_enumerate_inv _ (chunks_inv l)) in H; [done| |].
  { intros []; simpl; done. }
  simpl. intros i x s1 s2 Hx Hinv Hb b. specialize (Hinv b).
  destruct Hinv as (Hcm & Hlen & Hcs).
  rewrite !(entries_take_S _ _ _ _ Hx).
  unfold classify_out in Hb.
  change (bool_decide (out_taps x = Some (TapsList [-1])))
    with (is_sit_sot x) in Hb.
  assert (is_mit_sot x = negb (is_sit_sot x) && taps_truthy (out_taps x))
    as -> by done.
  destruct (is_sit_sot x) eqn:Hsit.
  - destruct (out_initial x) as [ini|] eqn:Hini; [|done]. injection Hb as <-.
    cbn [negb andb]. rewrite !fmap_app, !concat_app.
    cbn [fmap list_fmap concat fst snd].
    rewrite !app_nil_r, (out_placeholders_sit b i x ini Hsit Hini).
    split_and!; [by destruct b|done|].
    rewrite <- Hcs. by destruct b; simpl; rewrite fmap_app.
  - cbn [negb andb]. destruct (taps_truthy (out_taps x)) eqn:Htr.
    + destruct (out_taps x) as [[|k|[|k0 l']]|] eqn:Htaps; try done.
      * destruct (bool_decide (k > 0)); [done|]. by destruct (out_initial x).
      * destruct (bool_decide (k0 > 0) || existsb _ _); [done|].
        destruct (out_initial x) as [ini|] eqn:Hini; [|done].
        injection Hb as <-.
        rewrite !fmap_app, !concat_app.
        cbn [fmap list_fmap concat fst snd].
        rewrite !app_nil_r,
          (out_placeholders_mit b i x ini k0 l' Hsit Htaps Hini).
        cbn [mit_sot_inner_slices mit_sot_inner_inputs mit_sot_tap_array
             sit_sot_inner_slices sit_sot_inner_inputs add_mit_sot].
        split_and!.
        -- destruct b; rewrite Hcm; f_equal.
           symmetry.
           apply (imap_const (λ k, EIndex ini (k + Z.abs (numpy_min k0 l')))).
        -- rewrite fmap_app, Hlen. f_equal. simpl. by rewrite length_imap.
        -- done.
    + injection Hb as <-. rewrite !app_nil_r. done.
Qed.

Lemma list_slice_concat {A} (C : list (list A)) j c :
  C !! j = Some c →
  list_slice (concat C) (length (concat (take j C)))
             (length (concat (take j C)) + length c) = c.
Proof.
  intros Hj. unfold list_slice.
  assert (concat C = concat (take j C) ++ c ++ concat (drop (S j) C)) as ->.
  { rewrite <- (take_drop_middle _ _ _ Hj) at 1. by rewrite concat_app. }
  rewrite drop_app_length.
  replace (length (concat (take j C)) + length c - length (concat (take j C)))%nat
    with (length c) by lia.
  by rewrite take_app_length.
Qed.

Lemma ordered_inv_insert b l n done oa pos d :
  ordered_inv b l n done oa → l !! pos = Some d → (pos < n)%nat →
  ordered_inv b l n (done ++ [(pos, d)])
              (<[pos := out_placeholders b pos d]> oa).
Proof.
  intros (Hlen & Hany & Hdone) Hd Hpos. split_and!.
  - by rewrite length_insert.
  - intros i x Hx. destruct (decide (i = pos)) as [->|Hne].
    + apply list_lookup_insert_Some in Hx as [(_ & <- & _)|[? _]]; [|done].
      right. by exists d.
    + rewrite list_lookup_insert_ne in Hx by done. by apply Hany.
  - intros i d' [Hin|Hin]%elem_of_app.
    + destruct (Hdone i d' Hin) as [Hl Ho]. split; [done|].
      destruct (decide (i = pos)) as [->|Hne].
      * rewrite list_lookup_insert_eq by lia. congruence.
      * by rewrite list_lookup_insert_ne.
    + apply list_elem_of_singleton in Hin. injection Hin as -> ->.
      split; [done|]. by rewrite list_lookup_insert_eq by lia.
Qed.

Lemma numpy_max_le k0 l b :
  k0 ≤ b → Forall (λ x, x ≤ b) l → numpy_max k0 l ≤ b.
Proof.
  unfold numpy_max. revert k0.
  induction l as [|x l IH]; intros k0 Hk Hall; simpl; [done|].
  apply Forall_cons in Hall as [Hx Hall]. apply IH; [lia|done].
Qed.

Lemma max_plus_1_gt l x : x ∈ l → (x < max_plus_1 l)%nat.
Proof.
  intros Hx. unfold max_plus_1.
  assert (Z.of_nat x ≤ numpy_max (-1) (Z.of_nat <$> l)); [|lia].
  apply numpy_max_ge. right. apply list_elem_of_fmap. by exists x.
Qed.

Lemma max_plus_1_le l m : Forall (λ x, (x < m)%nat) l → (max_plus_1 l ≤ m)%nat.
Proof.
  intros Hall. unfold max_plus_1.
  assert (numpy_max (-1) (Z.of_nat <$> l) ≤ Z.of_nat m - 1); [|lia].
  apply numpy_max_le; [lia|].
  apply Forall_fmap. eapply Forall_impl; [done|]. simpl. lia.
Qed.

Lemma concat_all_nil {A} (L : list (list A)) :
  Forall (λ x, x = []) L → concat L = [].
Proof. induction 1 as [|x L -> _ IH]; [done|]. done. Qed.

(** The loops of lines 642-658 put the chunk of every mit_sot and sit_sot
    entry at the position of the entry. *)
Lemma step_args_spec actual rs l b sq st ns args :
  classify_outs actual rs l = inr st →
  step_args b sq st ns = inr args →
  args = (if b then inner_slices sq else inner_seqs sq)
         ++ concat (imap (out_placeholders b) l) ++ ns.
Proof.
  intros Hcl Hargs.
  pose proof (classify_outs_inv _ _ _ _ Hcl) as (Hm & Hs & Hnm & Hns & Hta & _).
  pose proof (classify_outs_chunks _ _ _ _ Hcl b) as (Hcm & Hlen & Hcs).
  rewrite firstn_all in Hm, Hs, Hcm, Hlen, Hcs.
  change (positions is_mit_sot l) with (entries is_mit_sot l).*1 in Hm.
  change (positions is_sit_sot l) with (entries is_sit_sot l).*1 in Hs.
  set (Em := entries is_mit_sot l) in *.
  set (Es := entries is_sit_sot l) in *.
  set (C := (λ p : nat * out_dict, out_placeholders b p.1 p.2) <$> Em) in *.
  unfold step_args in Hargs. cbv zeta in Hargs.
  set (n := Nat.max _ _) in Hargs.
  destruct (for_loop (order_mit_sot b st) _ _) as [e|[off oa1]] eqn:Hl1;
    [done|].
  cbn [rbind snd] in Hargs.
  destruct (for_loop (order_sit_sot b st) _ _) as [e|oa2] eqn:Hl2; [done|].
  cbn [rbind] in Hargs. injection Hargs as <-. f_equal. f_equal.
  assert (∀ i d, (i, d) ∈ Em ++ Es → (i < n)%nat) as Hbound.
  { intros i d [Hin|Hin]%elem_of_app; unfold n.
    - assert (i < max_plus_1 (mit_sot_rightOrder st))%nat; [|lia].
      apply max_plus_1_gt. rewrite Hm. apply list_elem_of_fmap.
      by exists (i, d).
    - assert (i < max_plus_1 (sit_sot_rightOrder st))%nat; [|lia].
      apply max_plus_1_gt. rewrite Hs. apply list_elem_of_fmap.
      by exists (i, d). }
  assert (n ≤ length l)%nat as Hnl.
  { unfold n. apply Nat.max_lub; apply max_plus_1_le, Forall_forall;
      intros i Hi.
    - rewrite Hm in Hi. apply list_elem_of_fmap in Hi as ([i' d] & -> & Hi).
      apply elem_of_entries in Hi as [Hi _]. by eapply lookup_lt_Some.
    - rewrite Hs in Hi. apply list_elem_of_fmap in Hi as ([i' d] & -> & Hi).
      apply elem_of_entries in Hi as [Hi _]. by eapply lookup_lt_Some. }
  (* the loop over the mit_sot entries *)
  apply (for_loop_seq_inv _
           (λ j s, s.1 = length (concat (take j C))
                   ∧ ordered_inv b l n (take j Em) s.2)) in Hl1.
  2:{ simpl. split; [done|]. split_and!.
      - by rewrite length_replicate.
      - intros i x [-> _]%lookup_replicate. by left.
      - intros i d Hin. by apply elem_of_nil in Hin. }
  2:{ intros j [off1 o1] s2 Hj [Hoff Hinv] Hbody. simpl in Hoff, Hinv.
      unfold order_mit_sot in Hbody.
      destruct (list_get (mit_sot_tap_array st) j) as [e|taps] eqn:Htaps;
        [done|].
      cbn [rbind] in Hbody.
      destruct (list_get (mit_sot_rightOrder st) j) as [e|pos] eqn:Hpos;
        [done|].
      cbn [rbind] in Hbody.
      unfold list_get in Htaps, Hpos.
      destruct (mit_sot_tap_array st !! j) as [taps'|] eqn:Htj; [|done].
      injection Htaps as ->.
      destruct (mit_sot_rightOrder st !! j) as [pos'|] eqn:Hpj; [|done].
      injection Hpos as ->.
      rewrite Hm, list_lookup_fmap in Hpj.
      destruct (Em !! j) as [[pos' d]|] eqn:HEj; [|done].
      simpl in Hpj. injection Hpj as ->.
      assert (C !! j = Some (out_placeholders b pos d)) as HCj.
      { unfold C. by rewrite list_lookup_fmap, HEj. }
      assert (length taps = length (out_placeholders b pos d)) as Hlt.
      { assert ((length <$> mit_sot_tap_array st) !! j = Some (length taps))
          as Hx by (by rewrite list_lookup_fmap, Htj).
        rewrite Hlen, list_lookup_fmap, HEj in Hx. simpl in Hx. congruence. }
      rewrite Hcm, Hoff, Hlt, (list_slice_concat C j _ HCj) in Hbody.
      unfold list_set in Hbody. case_decide as Hlt'; [|done].
      cbn [rbind] in Hbody. injection Hbody as <-. simpl.
      assert ((pos, d) ∈ Em) as Hin by (by eapply list_elem_of_lookup_2).
      split.
      - rewrite (take_S_r _ _ _ HCj), concat_app, length_app. simpl.
        by rewrite app_nil_r.
      - rewrite (take_S_r _ _ _ HEj). apply ordered_inv_insert; [done| |].
        + by apply elem_of_entries in Hin as [? _].
        + apply (Hbound pos d). apply elem_of_app. by left. }
  simpl in Hl1. destruct Hl1 as [_ Hinv1].
  rewrite take_ge in Hinv1 by (rewrite Hnm, Hm, length_fmap; lia).
  (* the loop over the sit_sot entries *)
  apply (for_loop_seq_inv _
           (λ j s, ordered_inv b l n (Em ++ take j Es) s)) in Hl2.
  2:{ simpl. by rewrite app_nil_r. }
  2:{ intros j o1 s2 Hj Hinv Hbody.
      unfold order_sit_sot in Hbody.
      destruct (list_get (sit_sot_rightOrder st) j) as [e|pos] eqn:Hpos;
        [done|].
      cbn [rbind] in Hbody.
      destruct (list_get _ j) as [e|x] eqn:Hxj in Hbody; [done|].
      cbn [rbind] in Hbody.
      unfold list_get in Hpos, Hxj.
      destruct (sit_sot_rightOrder st !! j) as [pos'|] eqn:Hpj; [|done].
      injection Hpos as ->.
      rewrite Hs, list_lookup_fmap in Hpj.
      destruct (Es !! j) as [[pos' d]|] eqn:HEj; [|done].
      simpl in Hpj. injection Hpj as ->.
      match type of Hxj with context [?L !! j] =>
        destruct (L !! j) as [x'|] eqn:Hx'; [|done];
        assert (((λ x, [x]) <$> L) !! j = Some [x']) as Hx2
          by (by rewrite list_lookup_fmap, Hx')
      end.
      injection Hxj as ->.
      rewrite Hcs, list_lookup_fmap, HEj in Hx2. simpl in Hx2.
      injection Hx2 as Hx2.
      unfold list_set in Hbody. case_decide as Hlt'; [|done].
      injection Hbody as <-. rewrite <- Hx2.
      assert ((pos, d) ∈ Es) as Hin by (by eapply list_elem_of_lookup_2).
      rewrite (take_S_r _ _ _ HEj), app_assoc.
      apply ordered_inv_insert; [done| |].
      - by apply elem_of_entries in Hin as [? _].
      - apply (Hbound pos d). apply elem_of_app. by right. }
  simpl in Hl2.
  rewrite take_ge in Hl2 by (rewrite Hns, Hs, length_fmap; lia).
  destruct Hl2 as (Hlen2 & Hany & Hdone).
  (* every position holds the chunk of its entry *)
  assert (oa2 = imap (out_placeholders b) (take n l)) as ->.
  { apply list_eq. intros i. rewrite list_lookup_imap.
    destruct (decide (i < n)%nat) as [Hi|Hi].
    - rewrite lookup_take_lt by done.
      destruct (lookup_lt_is_Some_2 l i) as [d Hd]; [lia|].
      destruct (lookup_lt_is_Some_2 oa2 i) as [x Hx]; [lia|].
      rewrite Hd, Hx. simpl. f_equal.
      destruct (is_mit_sot d) eqn:Hdm.
      { destruct (Hdone i d) as [_ Ho]; [|congruence].
        apply elem_of_app. left. by apply elem_of_entries. }
      destruct (is_sit_sot d) eqn:Hds.
      { destruct (Hdone i d) as [_ Ho]; [|congruence].
        apply elem_of_app. right. by apply elem_of_entries. }
      rewrite out_placeholders_unclassified by done.
      destruct (Hany i x Hx) as [->|(d' & Hd' & ->)]; [done|].
      rewrite Hd in Hd'. injection Hd' as <-.
      by apply out_placeholders_unclassified.
    - rewrite lookup_take_ge by lia. simpl.
      apply lookup_ge_None. lia. }
  rewrite <- (take_drop n l) at 2. rewrite imap_app, concat_app.
  rewrite (concat_all_nil (imap _ (drop n l))); [by rewrite app_nil_r|].
  apply Forall_forall. intros x (i & d & -> & Hd)%elem_of_lookup_imap.
  rewrite lookup_drop in Hd. rewrite length_take_le by done.
  apply out_placeholders_unclassified.
  - destruct (is_mit_sot d) eqn:Hdm; [|done].
    assert (n + i < n)%nat; [|lia].
    apply (Hbound _ d), elem_of_app. left. by apply elem_of_entries.
  - destruct (is_sit_sot d) eqn:Hds; [|done].
    assert (n + i < n)%nat; [|lia].
    apply (Hbound _ d), elem_of_app. right. by apply elem_of_entries.
Qed.

Lemma call_fn_in_trace c args :
  EvCallFn args ∈ trace (scan T c) →
  ∃ tr p, scan_prepare T c = (tr, inr p) ∧ args = p_args p.
Proof.
  intros Hin. pose proof (scan_prepare_trace c) as Htr.
  destruct (scan_cases c) as
    [(tr & e & Hp & Hs)
    |(tr0 & p & outputs & updates & Hp & Hfn
        & [[_ Hs]|[_ [(e & _ & Hs)|(a & _ & Hs)]]])];
    rewrite Hp in Htr; rewrite Hs in Hin; simpl in *.
  - apply (Forall_forall _ _) with (x := EvCallFn args) in Htr; done.
  - apply not_warning_in_app in Hin; [|done|done].
    apply list_elem_of_singleton in Hin. injection Hin as ->. by exists tr0, p.
  - apply not_warning_in_app in Hin; [|done|done].
    apply elem_of_cons in Hin as [Hin|Hin];
      [injection Hin as ->; by exists tr0, p|].
    by apply list_elem_of_singleton in Hin.
  - apply not_warning_in_app in Hin; [|done|done].
    apply elem_of_cons in Hin as [Hin|Hin];
      [injection Hin as ->; by exists tr0, p|].
    apply elem_of_cons in Hin as [?|Hin]; [done|].
    apply elem_of_cons in Hin as [?|Hin]; [done|].
    by apply list_elem_of_singleton in Hin.
Qed.

(** X10 (lines 87-100 and 396-671): the order of the arguments of the
    step function.  Whenever [scan] calls the step function, the arguments
    are the time slices of the first sequence, in the order of its taps,
    then those of the next sequences, then the time slices of the initial
    state of the first [outputs_info] entry, in the order of its taps, then
    those of the next entries, then the [non_sequences]; entries without
    taps contribute nothing.  When [n_steps] is a constant 1 or -1 the
    slices are the actual ones, otherwise fresh placeholders for them. *)
Theorem step_function_arguments c args :
  EvCallFn args ∈ trace (scan T c) →
  ∃ nf,
    n_fixed_steps_of T (n_steps c) = inr nf
    ∧ args
      = concat (imap (seq_placeholders (in_1_m1 nf))
                     (wrap_seq <$> wrap_into_list (sequences c)))
        ++ concat (imap (out_placeholders (in_1_m1 nf))
                        (wrapped <$> wrap_into_list (outputs_info c)))
        ++ wrap_into_list (non_sequences c).
Proof.
  intros (tr & p & Hp & ->)%call_fn_in_trace.
  pose proof (wrap_outs_length c tr p Hp) as Ho.
  apply scan_prepare_inv in Hp
    as (Hnf & _ & _ & Hseqs & Hsq & _ & Hcl & Hns & Hargs).
  exists (p_n_fixed_steps p). split; [done|].
  apply seq_slices_spec in Hsq as (_ & Hin & Hsl & _).
  rewrite (step_args_spec _ _ _ _ _ _ _ _ Hcl Hargs).
  rewrite <- Hseqs, <- Ho, <- Hns. f_equal.
  by destruct (in_1_m1 (p_n_fixed_steps p)).
Qed.

(** ** What the single-step path does not look at *)

Lemma for_loop_rel {A St St'} (Rel : St → St' → Prop)
    (body : A → St → R St) (body' : A → St' → R St') (l : list A) :
  ∀ s s',
  Rel s s' →
  (∀ a s s', Rel s s' → sum_rel Rel (body a s) (body' a s')) →
  sum_rel Rel (for_loop body l s) (for_loop body' l s').
Proof.
  induction l as [|a l IH]; intros s s' Hs Hbody; simpl; [done|].
  specialize (Hbody a s s' Hs) as Ha.
  destruct (body a s) as [e|s1], (body' a s') as [e'|s1']; try done.
  by apply IH.
Qed.

Lemma seq_slices_rel gb gb' (l : list (nat * seq_dict)) :
  sum_rel (λ sq sq', inner_slices sq = inner_slices sq')
          (for_loop (seq_slices gb) l empty_seq_state)
          (for_loop (seq_slices gb') l empty_seq_state).
Proof.
  apply for_loop_rel; [done|]. intros [i d] s s' Hs. unfold seq_slices.
  destruct (seq_taps d) as [[| |[|k0 taps]]|]; try done.
  apply for_loop_rel; [done|]. intros [j k] s1 s1' Hs1. simpl. by rewrite Hs1.
Qed.

Lemma classify_outs_rel a a' rs l :
  sum_rel same_inner (classify_outs a rs l) (classify_outs a' rs l).
Proof.
  apply for_loop_rel; [by repeat split|]. intros [i d] s s' Hs.
  unfold classify_out.
  destruct (bool_decide (out_taps d = Some (TapsList [-1]))).
  - destruct (out_initial d); [|done]. simpl.
    destruct Hs as (H1 & H2 & H3 & H4 & H5 & H6 & H7 & H8 & H9 & H10 & H11).
    unfold same_inner. simpl.
    rewrite H1, H2, H3, H4, H5, H6, H7, H8, H9, H10, H11. by repeat split.
  - destruct (taps_truthy (out_taps d)); [|done].
    destruct (out_taps d) as [[|k|[|k0 taps]]|]; try done.
    + destruct (bool_decide (k > 0)); [done|]. by destruct (out_initial d).
    + destruct (existsb _ _); [done|]. destruct (out_initial d); [|done].
      simpl.
      destruct Hs as (H1 & H2 & H3 & H4 & H5 & H6 & H7 & H8 & H9 & H10 & H11).
      unfold same_inner. simpl.
      rewrite H1, H2, H3, H4, H5, H6, H7, H8, H9, H10, H11. by repeat split.
Qed.

Lemma step_args_rel (b : bool) sq sq' st st' ns :
  (if b then inner_slices sq else inner_seqs sq)
  = (if b then inner_slices sq' else inner_seqs sq') →
  same_inner st st' →
  step_args b sq st ns = step_args b sq' st' ns.
Proof.
  intros Hsq (H1 & H2 & H3 & H4 & H5 & H6 & H7 & H8 & H9 & H10 & H11).
  unfold step_args, order_mit_sot, order_sit_sot.
  by rewrite Hsq, H1, H2, H3, H5, H6, H7, H8, H9, H11.
Qed.

Lemma constant_n_steps_is_the_trip_count n nf scan_seqs :
  n_fixed_steps_of T n = inr nf → in_1_m1 nf = true →
  ∃ t, actual_n_steps_of T scan_seqs n = inr t.
Proof.
  intros Hnf H1.
  assert (isNaN_or_Inf_or_None T n = false ∧ ∃ t, as_tensor n = inr t)
    as [Hnan [t Ht]].
  { destruct n as [| z | f | v]; simpl in *.
    - injection Hnf as <-. done.
    - eauto.
    - destruct f; simpl in *; try done. eauto.
    - injection Hnf as <-. split; [|eauto].
      destruct (get_constant_value T v) as [[z|[| |m e]]|]; done. }
  exists t. unfold actual_n_steps_of, lengths_vec_of. rewrite Hnan, Ht. simpl.
  by destruct (map EShape0 scan_seqs).
Qed.

Lemma scan_prepare_single_step c c' nf nf' :
  sequences c' = sequences c →
  outputs_info c' = outputs_info c →
  non_sequences c' = non_sequences c →
  n_fixed_steps_of T (n_steps c) = inr nf → in_1_m1 nf = true →
  check_n_steps_dtype T (n_steps c) = inr tt →
  n_fixed_steps_of T (n_steps c') = inr nf' → in_1_m1 nf' = true →
  check_n_steps_dtype T (n_steps c') = inr tt →
  trace (scan_prepare T c') = trace (scan_prepare T c)
  ∧ sum_rel (λ p' p, p_args p' = p_args p
                     ∧ p_return_steps p' = p_return_steps p
                     ∧ in_1_m1 (p_n_fixed_steps p') = true
                     ∧ in_1_m1 (p_n_fixed_steps p) = true)
            (result (scan_prepare T c')) (result (scan_prepare T c)).
Proof.
  intros Hs Ho Hn Hnf H1 Hck Hnf' H1' Hck'.
  unfold scan_prepare. cbv zeta.
  rewrite Hs, Ho, Hn, Hnf, Hnf', Hck, Hck', !bind_lift_inr.
  destruct (wrap_outs 0 (wrap_into_list (outputs_info c)) ∅)
    as [tr [e|[oi rs]]]; [done|].
  rewrite !bind_ok. cbn [fst snd trace result].
  pose proof (seq_slices_rel (go_backwards c') (go_backwards c)
                (enumerate (wrap_seq <$> wrap_into_list (sequences c))))
    as Hsq.
  destruct (for_loop (seq_slices (go_backwards c')) _ _) as [e'|sq'],
           (for_loop (seq_slices (go_backwards c)) _ _) as [e|sq];
    try done.
  simpl in Hsq. rewrite !bind_lift_inr.
  destruct (constant_n_steps_is_the_trip_count _ _ (scan_seqs sq') Hnf' H1')
    as [t' ->].
  destruct (constant_n_steps_is_the_trip_count _ _ (scan_seqs sq) Hnf H1)
    as [t ->].
  rewrite !bind_lift_inr.
  pose proof (classify_outs_rel t' t rs oi) as Hcl.
  destruct (classify_outs t' rs oi) as [e'|st'],
           (classify_outs t rs oi) as [e|st]; try done.
  simpl in Hcl. rewrite !bind_lift_inr, H1, H1'.
  rewrite (step_args_rel true sq' sq st' st _ Hsq Hcl).
  destruct (step_args true sq st _) as [e|args].
  { by rewrite !bind_lift_inl. }
  rewrite !bind_lift_inr. simpl. by rewrite !app_nil_r.
Qed.

(** X11 (lines 322-330, 445-460 and 689-707): what the single-step path
    does not look at.  Two calls that give the same step function,
    sequences, [outputs_info] and [non_sequences], each with an [n_steps]
    that lines 322-336 accept as a constant equal to 1 or -1, behave
    alike, whatever they give for [go_backwards], [truncate_gradient],
    [mode] and [name]: the same log, the same exception or the same
    outputs and updates.  In particular [n_steps = -1] gives what
    [n_steps = 1] gives: no sequence is read from its end. *)
Theorem single_step_ignores_direction c c' nf nf' :
  fn c' = fn c →
  sequences c' = sequences c →
  outputs_info c' = outputs_info c →
  non_sequences c' = non_sequences c →
  n_fixed_steps_of T (n_steps c) = inr nf → in_1_m1 nf = true →
  check_n_steps_dtype T (n_steps c) = inr tt →
  n_fixed_steps_of T (n_steps c') = inr nf' → in_1_m1 nf' = true →
  check_n_steps_dtype T (n_steps c') = inr tt →
  scan T c' = scan T c.
Proof.
  intros Hf Hs Ho Hn Hnf H1 Hck Hnf' H1' Hck'.
  destruct (scan_prepare_single_step c c' nf nf') as [Htr Hres]; try done.
  unfold scan. rewrite Hf.
  destruct (scan_prepare T c') as [tr' [e'|p']],
           (scan_prepare T c) as [tr [e|p]]; simpl in Htr, Hres; try done.
  { by subst. }
  destruct Hres as (Ha & Hr & Hp' & Hp). subst tr'.
  rewrite !bind_ok. unfold emit. rewrite !bind_ok. cbn [fst snd].
  rewrite Ha, Hr, Hp, Hp'. done.
Qed.

(** ** What the scan op is given *)

Lemma apply_in_trace c scan_inputs :
  EvApplyScanOp scan_inputs ∈ trace (scan T c) →
  ∃ tr0 p outputs updates a,
    scan_prepare T c = (tr0, inr p)
    ∧ fn c (p_args p) = (outputs, updates)
    ∧ arrange T c p outputs (extra_inputs_of T outputs (p_args p))
        (expanded_inputs T
           (filter (λ arg, is_shared arg = false) (p_args p)
            ++ extra_inputs_of T outputs (p_args p)) outputs updates)
      = inr a
    ∧ scan_inputs = a_scan_inputs a
    ∧ scan T c
      = (tr0 ++ [EvCallFn (p_args p);
                 EvCompileProbe
                   (filter (λ arg, is_shared arg = false) (p_args p)
                    ++ extra_inputs_of T outputs (p_args p)) outputs;
                 EvBuildScanOp (a_info a) (a_inner_inputs a) (a_new_outs a);
                 EvApplyScanOp (a_scan_inputs a)],
         unpack p a (scan_op_apply T (a_info a) (a_inner_inputs a)
                                   (a_new_outs a) (a_scan_inputs a))).
Proof.
  intros Hin. pose proof (scan_prepare_trace c) as Htr.
  destruct (scan_cases c) as
    [(tr & e & Hp & Hs)
    |(tr0 & p & outputs & updates & Hp & Hfn
        & [[_ Hs]|[_ [(e & _ & Hs)|(a & Ha & Hs)]]])];
    rewrite Hp in Htr; rewrite Hs in Hin; simpl in *.
  - apply (Forall_forall _ _) with (x := EvApplyScanOp scan_inputs) in Htr;
      done.
  - apply not_warning_in_app in Hin; [|done|done].
    by apply list_elem_of_singleton in Hin.
  - apply not_warning_in_app in Hin; [|done|done].
    apply elem_of_cons in Hin as [?|Hin]; [done|].
    by apply list_elem_of_singleton in Hin.
  - apply not_warning_in_app in Hin; [|done|done].
    apply elem_of_cons in Hin as [?|Hin]; [done|].
    apply elem_of_cons in Hin as [?|Hin]; [done|].
    apply elem_of_cons in Hin as [?|Hin]; [done|].
    apply list_elem_of_singleton in Hin. injection Hin as ->.
    by exists tr0, p, outputs, updates, a.
Qed.

(** The fields of what steps 5 to 8 build. *)
Lemma arrange_inv c p outputs extra_inputs dummy_inputs a :
  arrange T c p outputs extra_inputs dummy_inputs = inr a →
  let sq := p_sq p in
  let st := p_st p in
  let other_scan_args :=
    filter (λ arg, is_shared arg = false) (p_non_seqs p ++ extra_inputs) in
  let other_shared_scan_args :=
    (filter (λ arg : expr * option expr, is_shared arg.1 = true ∧ arg.2 = None)
            dummy_inputs).*1 in
  a_sh a = foldl (λ sh jin, add_shared jin sh) (SharedState [] 0 [] [] [])
                 (enumerate dummy_inputs)
  ∧ a_info a
    = ScanInfo (mit_sot_tap_array st ++ replicate (n_sit_sot st) [-1])
               (n_seqs sq) 0 0 [] (n_mit_sot st) (n_sit_sot st)
               (n_shared_outs (a_sh a)) (n_nit_sot (a_ns a))
               (truncate_gradient c) (name c) (mode c) false false
  ∧ a_inner_inputs a
    = inner_seqs sq ++ mit_sot_inner_inputs st ++ sit_sot_inner_inputs st
      ++ shared_inner_inputs (a_sh a)
      ++ imap (λ j arg, ENew (SiteOtherShared j) arg) other_shared_scan_args
      ++ imap (λ j arg, ENew (SiteNonSeq j) arg) other_scan_args
  ∧ a_scan_inputs a
    = safe_to_cpu T
        <$> (p_actual_n_steps p
             :: scan_seqs sq ++ mit_sot_scan_inputs st
                ++ sit_sot_scan_inputs st ++ shared_scan_inputs (a_sh a)
                ++ replicate (n_nit_sot (a_ns a)) (p_actual_n_steps p)
                ++ other_shared_scan_args ++ other_scan_args).
Proof.
  unfold arrange. cbv zeta. intros H.
  destruct (check_outputs outputs (p_outs_info p)) as [e|oi]; [done|].
  cbn [rbind] in H.
  destruct (pick_outputs taps_not_m1 outputs oi) as [e|mo]; [done|].
  cbn [rbind] in H.
  destruct (pick_outputs taps_m1 outputs oi) as [e|so]; [done|].
  cbn [rbind] in H.
  destruct (for_loop (add_nit_sot outputs (p_return_steps p)) _ _)
    as [e|ns]; [done|].
  cbn [rbind] in H. injection H as <-. done.
Qed.

Lemma enumerate_snoc {A} (l : list A) (x : A) :
  enumerate (l ++ [x]) = enumerate l ++ [(length l, x)].
Proof. unfold enumerate. rewrite imap_app. simpl. by rewrite Nat.add_0_r. Qed.

(** What the loop of lines 785-794 collects: the shared variables that
    come with an update, in the order of the inputs of the probe. *)
Lemma shared_foldl_spec (l : list (expr * option expr)) :
  let sh := foldl (λ sh jin, add_shared jin sh) (SharedState [] 0 [] [] [])
                  (enumerate l) in
  shared_scan_inputs sh
  = (filter (λ arg : expr * option expr,
               is_shared arg.1 = true ∧ is_Some arg.2) l).*1
  ∧ n_shared_outs sh = length (shared_scan_inputs sh)
  ∧ length (shared_inner_inputs sh) = n_shared_outs sh.
Proof.
  induction l as [|[variable update] l IH] using rev_ind; [done|].
  cbv zeta in *. rewrite enumerate_snoc, foldl_app, filter_app, fmap_app.
  simpl. destruct IH as (IH1 & IH2 & IH3).
  set (sh := foldl _ _ (enumerate l)) in *.
  rewrite filter_cons, filter_nil. simpl.
  destruct update as [upd|]; simpl.
  - destruct (is_shared variable) eqn:Hsh; simpl.
    + rewrite IH1 at 1. rewrite !length_app. simpl.
      split_and!; [done|lia|lia].
    + by rewrite app_nil_r.
  - rewrite decide_False by (by intros [_ [? ?]]). simpl.
    by rewrite app_nil_r.
Qed.

Lemma classify_outs_lengths actual rs l st :
  classify_outs actual rs l = inr st →
  length (mit_sot_scan_inputs st) = n_mit_sot st
  ∧ length (sit_sot_scan_inputs st) = n_sit_sot st
  ∧ length (sit_sot_inner_inputs st) = n_sit_sot st
  ∧ length (mit_sot_inner_inputs st) = length (concat (mit_sot_tap_array st)).
Proof.
  unfold classify_outs. rewrite enumerate_eq. intros H.
  apply (for_loop_enumerate_inv _
           (λ _ st,
              length (mit_sot_scan_inputs st) = n_mit_sot st
              ∧ length (sit_sot_scan_inputs st) = n_sit_sot st
              ∧ length (sit_sot_inner_inputs st) = n_sit_sot st
              ∧ length (mit_sot_inner_inputs st)
                = length (concat (mit_sot_tap_array st)))) in H; [done|done|].
  simpl. intros i x s1 s2 _ (H1 & H2 & H3 & H4) Hb.
  unfold classify_out in Hb.
  destruct (bool_decide (out_taps x = Some (TapsList [-1]))).
  - destruct (out_initial x) as [ini|]; [|done]. injection Hb as <-. simpl.
    rewrite !length_app. simpl. split_and!; try done; lia.
  - destruct (taps_truthy (out_taps x)); [|by injection Hb as <-].
    destruct (out_taps x) as [[|k|[|k0 l']]|];
      try (by injection Hb as <-).
    + destruct (bool_decide (k > 0)); [done|]. by destruct (out_initial x).
    + destruct (bool_decide (k0 > 0) || existsb _ _); [done|].
      destruct (out_initial x) as [ini|]; [|done]. injection Hb as <-.
      simpl. rewrite concat_app, !length_app. simpl.
      rewrite app_nil_r, length_imap. simpl. split_and!; try done; lia.
Qed.

(** X12 (lines 840-913): the scan op is given lists that agree with the
    counts it is configured with.  Whenever [scan] applies the scan op,
    the op was built just before with a configuration in which
    [tap_array] has one non-empty entry per mit_sot and sit_sot output;
    the inputs of the op are the trip count, then as many entries as the
    configuration counts sequences, mit_sot, sit_sot, shared and nit_sot
    outputs, then [k] other arguments; the inputs of the inner function
    are one per sequence slice, one per tap of [tap_array], one per shared
    output, and the same number [k] of other arguments; and the input
    given for every nit_sot output is the trip count again. *)
Theorem scan_op_configuration c scan_inputs :
  EvApplyScanOp scan_inputs ∈ trace (scan T c) →
  ∃ info inner_inputs new_outs k,
    EvBuildScanOp info inner_inputs new_outs ∈ trace (scan T c)
    ∧ length (info_tap_array info)
      = (info_n_mit_sot info + info_n_sit_sot info)%nat
    ∧ Forall (λ taps, taps ≠ []) (info_tap_array info)
    ∧ length scan_inputs
      = (1 + info_n_seqs info + info_n_mit_sot info + info_n_sit_sot info
         + info_n_shared_outs info + info_n_nit_sot info + k)%nat
    ∧ length inner_inputs
      = (info_n_seqs info + length (concat (info_tap_array info))
         + info_n_shared_outs info + k)%nat
    ∧ ∀ j, (j < info_n_nit_sot info)%nat →
           scan_inputs !! (1 + info_n_seqs info + info_n_mit_sot info
                           + info_n_sit_sot info + info_n_shared_outs info
                           + j)%nat
           = scan_inputs !! 0%nat.
Proof.
  intros (tr0 & p & outputs & updates & a & Hp & Hfn & Ha & -> & Hs)
    %apply_in_trace.
  apply arrange_inv in Ha. cbv zeta in Ha.
  destruct Ha as (Hsh & Hinfo & Hii & Hsi).
  pose proof (shared_foldl_spec
                (expanded_inputs T
                   (filter (λ arg, is_shared arg = false) (p_args p)
                    ++ extra_inputs_of T outputs (p_args p)) outputs updates))
    as Hshared.
  cbv zeta in Hshared. rewrite <- Hsh in Hshared.
  destruct Hshared as (_ & Hsh1 & Hsh2).
  apply scan_prepare_inv in Hp
    as (_ & _ & _ & _ & Hsq & _ & Hcl & _ & _).
  apply seq_slices_spec in Hsq as (Hq1 & Hq2 & _ & Hq4).
  pose proof (classify_outs_inv _ _ _ _ Hcl)
    as (_ & _ & _ & _ & Hta & Hne & _).
  pose proof (classify_outs_lengths _ _ _ _ Hcl) as (Hl1 & Hl2 & Hl3 & Hl4).
  assert (length (inner_seqs (p_sq p)) = n_seqs (p_sq p)) as Hq5.
  { rewrite Hq4, Hq1, Hq2. clear.
    induction (p_seqs p) as [|d l IH] using rev_ind; [done|].
    rewrite fmap_app, concat_app, concat_imap_snoc, !length_app, IH.
    simpl. rewrite app_nil_r. f_equal.
    unfold seq_windows, seq_placeholders.
    destruct (seq_tap_list d); [done|]. by rewrite length_fmap, length_imap. }
  match type of Hsi with context [replicate _ _ ++ ?oss ++ ?os] =>
    exists (a_info a), (a_inner_inputs a), (a_new_outs a),
           (length oss + length os)%nat
  end.
  split.
  { rewrite Hs. simpl. apply elem_of_app. right.
    do 2 apply list_elem_of_further. apply list_elem_of_here. }
  rewrite Hinfo, Hii, Hsi. simpl.
  split_and!.
  - rewrite length_app, length_replicate. lia.
  - apply Forall_app. split; [done|]. apply Forall_replicate. done.
  - rewrite length_fmap. simpl. rewrite !length_app, length_replicate.
    rewrite Hq4, Hl1, Hl2, <- Hsh1. lia.
  - rewrite !length_app, !length_imap, concat_app, length_app.
    rewrite Hq5, Hl3, Hl4, Hsh2.
    assert (length (concat (replicate (n_sit_sot (p_st p)) [-1]))
            = n_sit_sot (p_st p)) as ->.
    { clear. induction (n_sit_sot (p_st p)) as [|n IH]; [done|].
      simpl. by rewrite IH. }
    lia.
  - intros j Hj.
    rewrite !list_lookup_fmap. simpl. f_equal.
    rewrite Hq4, <- Hl1, <- Hl2, Hsh1.
    rewrite lookup_app_r by lia. rewrite lookup_app_r by lia.
    rewrite lookup_app_r by lia. rewrite lookup_app_r by lia.
    rewrite lookup_app_l by (rewrite length_replicate; lia).
    by rewrite lookup_replicate_2 by lia.
Qed.

(** ** The updates returned on the path through the scan op *)

Lemma dict_set_fst (d : list (expr * expr)) k v :
  (dict_set d k v).*1 = if decide (k ∈ d.*1) then d.*1 else d.*1 ++ [k].
Proof.
  unfold dict_set. case_decide; [|by rewrite fmap_app].
  rewrite <- list_fmap_compose. apply list_fmap_ext. intros i [k' v'] _.
  simpl. by case_decide.
Qed.

Lemma dict_set_elem (d : list (expr * expr)) k v k' v' :
  (k', v') ∈ dict_set d k v → (k', v') ∈ d ∨ (k' = k ∧ v' = v).
Proof.
  unfold dict_set. case_decide.
  - intros ([k2 v2] & Heq & Hin)%list_elem_of_fmap. simpl in Heq.
    case_decide; injection Heq as -> ->; eauto.
  - intros [Hin|Hin]%elem_of_app; [by left|].
    apply list_elem_of_singleton in Hin. injection Hin as -> ->. by right.
Qed.

Lemma dict_set_length (d : list (expr * expr)) k v :
  (length (dict_set d k v) ≤ S (length d))%nat.
Proof.
  unfold dict_set. case_decide.
  - rewrite length_fmap. lia.
  - rewrite length_app. simpl. lia.
Qed.

(** The loop of lines 957-958. *)
Lemma update_map_loop_inv (outs keys : list expr) um :
  for_loop (λ '(idx, update_rule) update_map,
              let? k := list_get keys idx in
              inr (dict_set update_map k update_rule))
           (enumerate outs) [] = inr um →
  NoDup um.*1
  ∧ (length um ≤ length outs)%nat
  ∧ ∀ k v, (k, v) ∈ um →
           ∃ idx, keys !! idx = Some k ∧ outs !! idx = Some v.
Proof.
  rewrite enumerate_eq. intros H.
  apply (for_loop_enumerate_inv _
           (λ n um, NoDup um.*1
                    ∧ (length um ≤ n)%nat
                    ∧ ∀ k v, (k, v) ∈ um →
                             ∃ idx, keys !! idx = Some k
                                    ∧ outs !! idx = Some v)) in H; [done| |].
  { split_and!; [constructor|done|]. intros k v Hin.
    by apply elem_of_nil in Hin. }
  simpl. intros i x s1 s2 Hx (Hnd & Hlen & Hall) Hb.
  unfold list_get in Hb. destruct (keys !! i) as [k|] eqn:Hk; [|done].
  simpl in Hb. injection Hb as <-. split_and!.
  - rewrite dict_set_fst. case_decide; [done|].
    apply NoDup_app. split_and!; [done| |apply NoDup_singleton].
    intros y Hy ->%list_elem_of_singleton. done.
  - pose proof (dict_set_length s1 k x). lia.
  - intros k' v' [Hin|[-> ->]]%dict_set_elem; [by apply Hall|].
    by exists i.
Qed.

Lemma list_slice_lookup {A} (l : list A) a n i x :
  list_slice l a (a + n) !! i = Some x → (i < n)%nat ∧ l !! (a + i)%nat = Some x.
Proof.
  unfold list_slice. replace (a + n - a)%nat with n by lia.
  intros [Hi Hx]%lookup_take_Some. by rewrite lookup_drop in Hi.
Qed.

Lemma unpack_updates p a scan_outs r upd :
  unpack p a scan_outs = inr (r, upd) →
  let off := (n_mit_sot (p_st p) + n_sit_sot (p_st p)
              + n_nit_sot (a_ns a))%nat in
  for_loop (λ '(idx, update_rule) update_map,
              let? k := list_get (shared_scan_inputs (a_sh a)) idx in
              inr (dict_set update_map k update_rule))
           (enumerate (list_slice scan_outs off
                                  (off + n_shared_outs (a_sh a)))) []
  = inr upd.
Proof.
  unfold unpack. cbv zeta. intros H.
  destruct (tap_offsets _) as [e|offs]; [done|]. cbn [rbind] in H.
  destruct (remove_dimensions _ (mit_sot_return_steps _) _) as [e|r1];
    [done|].
  cbn [rbind] in H.
  destruct (remove_dimensions _ (sit_sot_return_steps _) _) as [e|r2];
    [done|].
  cbn [rbind] in H.
  destruct (remove_dimensions _ (nit_sot_return_steps _) _) as [e|r3];
    [done|].
  cbn [rbind] in H.
  change (0 + n_mit_sot (p_st p))%nat with (n_mit_sot (p_st p)) in H.
  destruct (for_loop _ (enumerate (list_slice scan_outs _ _)) [])
    as [e|um]; [done|].
  cbn [rbind] in H.
  destruct (scatter _ _) as [e|res]; [done|]. cbn [rbind] in H.
  by injection H as _ ->.
Qed.

(** X13 (lines 785-794 and 954-958): the updates returned on the path
    through the scan op.  When [scan] has applied the scan op and returns,
    the returned update dictionary has no key twice and at most as many
    entries as the configuration counts shared outputs; each key is a
    shared variable, and its value is the output of the scan op at one of
    the positions that follow those of the mit_sot, sit_sot and nit_sot
    outputs: the update expressions returned by the step function are not
    returned themselves. *)
Theorem loop_updates c tr r upd scan_inputs :
  scan T c = (tr, inr (r, upd)) →
  EvApplyScanOp scan_inputs ∈ tr →
  ∃ info inner_inputs new_outs,
    EvBuildScanOp info inner_inputs new_outs ∈ tr
    ∧ NoDup upd.*1
    ∧ (length upd ≤ info_n_shared_outs info)%nat
    ∧ ∀ k v, (k, v) ∈ upd →
        is_shared k = true
        ∧ ∃ j, (j < info_n_shared_outs info)%nat
               ∧ scan_op_apply T info inner_inputs new_outs scan_inputs
                 !! (info_n_mit_sot info + info_n_sit_sot info
                     + info_n_nit_sot info + j)%nat
                 = Some v.
Proof.
  intros Hscan Hin.
  assert (EvApplyScanOp scan_inputs ∈ trace (scan T c)) as Hin'
    by (by rewrite Hscan).
  apply apply_in_trace in Hin'
    as (tr0 & p & outputs & updates & a & Hp & Hfn & Ha & -> & Hs).
  rewrite Hs in Hscan. injection Hscan as <- Hun.
  apply unpack_updates in Hun. cbv zeta in Hun.
  apply update_map_loop_inv in Hun as (Hnd & Hlen & Hall).
  pose proof (arrange_inv _ _ _ _ _ _ Ha) as Hinv. cbv zeta in Hinv.
  destruct Hinv as (Hsh & Hinfo & _ & _).
  pose proof (shared_foldl_spec
                (expanded_inputs T
                   (filter (λ arg, is_shared arg = false) (p_args p)
                    ++ extra_inputs_of T outputs (p_args p)) outputs updates))
    as Hshared.
  cbv zeta in Hshared. rewrite <- Hsh in Hshared.
  destruct Hshared as (Hkeys & _ & _).
  exists (a_info a), (a_inner_inputs a), (a_new_outs a).
  split.
  { apply elem_of_app. right.
    do 2 apply list_elem_of_further. apply list_elem_of_here. }
  split; [done|].
  assert (info_n_shared_outs (a_info a) = n_shared_outs (a_sh a)
          ∧ info_n_mit_sot (a_info a) = n_mit_sot (p_st p)
          ∧ info_n_sit_sot (a_info a) = n_sit_sot (p_st p)
          ∧ info_n_nit_sot (a_info a) = n_nit_sot (a_ns a))
    as (-> & -> & -> & ->) by (by rewrite Hinfo).
  split.
  { etrans; [done|]. etrans; [apply list_slice_length|]. lia. }
  intros k v (idx & Hk & Hv)%Hall. split.
  - apply list_elem_of_lookup_2 in Hk. rewrite Hkeys in Hk.
    apply list_elem_of_fmap in Hk as ([k' u] & -> & Hk).
    by apply list_elem_of_filter in Hk as [[Hk _] _].
  - apply list_slice_lookup in Hv as [Hlt Hv]. by exists idx.
Qed.

(** ** How many outputs are returned *)

Lemma outputs_count_unwrap l : outputs_count (unwrap_outputs l) = length l.
Proof. by destruct l as [|x [|y l]]. Qed.

Lemma scatter_length rightOrder xs res :
  scatter rightOrder xs = inr res → length res = length rightOrder.
Proof.
  unfold scatter. rewrite enumerate_eq. intros H.
  apply (for_loop_enumerate_inv _
           (λ _ acc, length acc = length rightOrder)) in H; [done| |].
  { by rewrite length_replicate. }
  simpl. intros i pos s1 s2 _ Hl Hb.
  destruct (list_get xs i) as [e|x]; [done|]. simpl in Hb.
  unfold list_set in Hb. case_decide; [|done]. injection Hb as <-.
  by rewrite length_insert.
Qed.

Lemma unpack_scatter p a scan_outs r upd :
  unpack p a scan_outs = inr (r, upd) →
  ∃ xs res,
    scatter (mit_sot_rightOrder (p_st p) ++ sit_sot_rightOrder (p_st p)
             ++ nit_sot_rightOrder (a_ns a)) xs = inr res
    ∧ r = unwrap_outputs res.
Proof.
  unfold unpack. cbv zeta. intros H.
  destruct (tap_offsets _) as [e|offs]; [done|]. cbn [rbind] in H.
  destruct (remove_dimensions _ (mit_sot_return_steps _) _) as [e|r1];
    [done|].
  cbn [rbind] in H.
  destruct (remove_dimensions _ (sit_sot_return_steps _) _) as [e|r2];
    [done|].
  cbn [rbind] in H.
  destruct (remove_dimensions _ (nit_sot_return_steps _) _) as [e|r3];
    [done|].
  cbn [rbind] in H.
  destruct (for_loop _ (enumerate (list_slice scan_outs _ _)) [])
    as [e|um]; [done|].
  cbn [rbind] in H.
  destruct (scatter _ _) as [e|res] eqn:Hsc; [done|]. cbn [rbind] in H.
  injection H as <- _. by exists (r1 ++ r2 ++ r3), res.
Qed.

Lemma arrange_nit_sot c p outputs extra_inputs dummy_inputs a :
  arrange T c p outputs extra_inputs dummy_inputs = inr a →
  ∃ oi, check_outputs outputs (p_outs_info p) = inr oi
        ∧ for_loop (add_nit_sot outputs (p_return_steps p)) (enumerate oi)
                   (NitState 0 [] ∅ []) = inr (a_ns a).
Proof.
  unfold arrange. cbv zeta. intros H.
  destruct (check_outputs outputs (p_outs_info p)) as [e|oi]; [done|].
  cbn [rbind] in H.
  destruct (pick_outputs taps_not_m1 outputs oi) as [e|mo]; [done|].
  cbn [rbind] in H.
  destruct (pick_outputs taps_m1 outputs oi) as [e|so]; [done|].
  cbn [rbind] in H.
  destruct (for_loop (add_nit_sot outputs (p_return_steps p)) _ _)
    as [e|ns] eqn:Hns; [done|].
  cbn [rbind] in H. injection H as <-. exists oi. by rewrite Hns.
Qed.

Lemma check_outputs_inv outputs l oi :
  check_outputs outputs l = inr oi →
  length oi = length outputs
  ∧ ((l = [] ∧ oi = replicate (length outputs) empty_out_dict)
     ∨ (l ≠ [] ∧ oi = l)).
Proof.
  unfold check_outputs, probe_output_count.
  destruct (decide (l = [])) as [->|Hne].
  - rewrite !(bool_decide_true ([] = [])) by done. rewrite orb_true_r.
    simpl. intros [= <-]. rewrite length_replicate. split; [done|by left].
  - rewrite (bool_decide_false (l = [])) by done. rewrite orb_false_r.
    case_bool_decide as Hlen; [|done]. simpl. intros [= <-].
    split; [done|by right].
Qed.

Lemma positions_length {A} (P : A → bool) (l : list A) :
  length (positions P l) = length (filter (λ x, P x = true) l).
Proof.
  induction l as [|x l IH] using rev_ind; [done|].
  rewrite positions_snoc, filter_app, !length_app, IH. f_equal.
  rewrite filter_cons, filter_nil. by destruct (P x).
Qed.

Lemma filter_cons_length {A} (P : A → bool) (x : A) (l : list A) :
  length (filter (λ y, P y = true) (x :: l))
  = ((if P x then 1 else 0)
     + length (filter (λ y, P y = true) l))%nat.
Proof. rewrite filter_cons. by destruct (P x). Qed.

Lemma categories_disjoint (l : list out_dict) :
  (length (filter (λ d, is_mit_sot d = true) l)
   + length (filter (λ d, is_sit_sot d = true) l)
   + length (filter (λ d, is_nit_sot d = true) l))%nat
  = length (filter (λ d, classified d = true) l).
Proof.
  induction l as [|d l IH]; [done|].
  rewrite !filter_cons_length, <- IH.
  assert (((if is_mit_sot d then 1 else 0) + (if is_sit_sot d then 1 else 0)
           + (if is_nit_sot d then 1 else 0))%nat
          = (if classified d then 1 else 0)%nat) as Hex; [|lia].
  unfold classified, is_mit_sot, is_nit_sot.
  destruct (is_sit_sot d) eqn:Hsit; simpl.
  - apply bool_decide_eq_true in Hsit. rewrite Hsit.
    by rewrite bool_decide_true by (by eexists).
  - destruct (taps_truthy (out_taps d)) eqn:Htr; simpl.
    + rewrite bool_decide_true; [done|].
      destruct (out_taps d); [by eexists|done].
    + by destruct (negb _).
Qed.

(** X14 (lines 539-634, 756-807 and 960-974): how many outputs the path
    through the scan op returns.  When no output is declared, as many as
    the step function returned.  Otherwise as many as there are
    [outputs_info] entries in one of the categories mit_sot, sit_sot and
    nit_sot: an entry whose key ['taps'] is present with a value that is
    false in a condition and that has no initial state is in none, and no
    position is returned for it, although the step function has returned
    an output for it. *)
Theorem returned_outputs_count c tr r upd scan_inputs :
  scan T c = (tr, inr (r, upd)) →
  EvApplyScanOp scan_inputs ∈ tr →
  ∃ args,
    EvCallFn args ∈ tr
    ∧ (wrap_into_list (outputs_info c) = [] →
       outputs_count r = length (fn c args).1)
    ∧ (wrap_into_list (outputs_info c) ≠ [] →
       length (fn c args).1 = length (wrap_into_list (outputs_info c))
       ∧ outputs_count r
         = length (filter (λ d, classified d = true)
                          (wrapped <$> wrap_into_list (outputs_info c)))).
Proof.
  intros Hscan Hin.
  assert (EvApplyScanOp scan_inputs ∈ trace (scan T c)) as Hin'
    by (by rewrite Hscan).
  apply apply_in_trace in Hin'
    as (tr0 & p & outputs & updates & a & Hp & Hfn & Ha & -> & Hs).
  rewrite Hs in Hscan. injection Hscan as <- Hun.
  apply unpack_scatter in Hun as (xs & res & Hsc & ->).
  apply scatter_length in Hsc. rewrite outputs_count_unwrap, Hsc.
  apply arrange_nit_sot in Ha as (oi & Hoi & Hnit).
  apply check_outputs_inv in Hoi as [Hlen Hcases].
  destruct (nit_sot_loop outputs (p_return_steps p) oi) as (ns & Hns & Hinv);
    [lia|].
  rewrite Hns in Hnit. injection Hnit as ->.
  destruct Hinv as (Hro & _). rewrite firstn_all in Hro.
  pose proof (wrap_outs_length c tr0 p Hp) as Hw.
  apply scan_prepare_inv in Hp
    as (_ & _ & _ & _ & _ & _ & Hcl & _ & _).
  apply classify_outs_inv in Hcl as (Hm & Hsi & _).
  rewrite firstn_all in Hm, Hsi.
  exists (p_args p). rewrite Hfn. simpl. split.
  { apply elem_of_app. right. apply list_elem_of_here. }
  rewrite !length_app, Hm, Hsi, Hro, !positions_length.
  split.
  - intros Hnil. rewrite Hnil in Hw. simpl in Hw.
    destruct Hcases as [[_ ->]|[Hne _]]; [|done].
    rewrite Hw. simpl. clear.
    induction (length outputs) as [|n IH]; [done|].
    simpl. by rewrite IH.
  - intros Hne.
    assert (p_outs_info p ≠ []) as Hne'.
    { rewrite Hw. by destruct (wrap_into_list (outputs_info c)). }
    destruct Hcases as [[? _]|[_ ->]]; [done|].
    split; [by rewrite <- Hlen, Hw, length_fmap|].
    rewrite <- Hw, <- categories_disjoint. lia.
Qed.

(** C3: the code does not do what the claim and the documentation of
    [return_steps] say when [return_steps] exceeds the number of computed
    steps.  With [outputs_info=[dict(initial=y0, taps=[-1],
    return_steps=3)]] and [n_steps=2] the buffer of the scan op has three
    rows, the initial state and the two computed steps; line 927 returns
    [out[-3:]], all three rows, initial state included, where the claim has
    the two rows that are left once the padding is dropped.  The sibling
    branch of line 934 does drop the padding: without [return_steps] the
    same call returns [out[1:]], the two computed rows, and so does
    [return_steps=2].  The same holds for the taps [[-2, -1]], whose
    padding is two rows: [return_steps=4] returns the two rows of the
    initial state with the two computed steps. *)
Theorem return_steps_beyond_history env env' a0 a1 s1 s2 :
  env "scan_outs" = Some (TArray [TArray [a0; s1; s2]]) →
  env' "scan_outs" = Some (TArray [TArray [a0; a1; s1; s2]]) →
  (returned_value buffers_theano (history_call [-1] (Some 3)) env
   = Some (TArray [a0; s1; s2])
   ∧ py_slice (py_slice [a0; s1; s2] (Some 1) None) (Some (-3)) None
     = [s1; s2]
   ∧ returned_value buffers_theano (history_call [-1] None) env
     = Some (TArray [s1; s2])
   ∧ returned_value buffers_theano (history_call [-1] (Some 2)) env
     = Some (TArray [s1; s2]))
  ∧ (returned_value buffers_theano (history_call [-2; -1] (Some 4)) env'
     = Some (TArray [a0; a1; s1; s2])
     ∧ py_slice (py_slice [a0; a1; s1; s2] (Some 2) None) (Some (-4)) None
       = [s1; s2]
     ∧ returned_value buffers_theano (history_call [-2; -1] None) env'
       = Some (TArray [s1; s2])
     ∧ returned_value buffers_theano (history_call [-2; -1] (Some 2)) env'
       = Some (TArray [s1; s2])).
Proof.
  intros H H'. unfold returned_value.
  split; split_and!; try done;
    match goal with
    | |- context [scan ?T0 ?c] =>
        let r := eval vm_compute in (scan T0 c) in
        change (scan T0 c) with r
    end;
    cbn [eval]; rewrite ?H, ?H'; done.
Qed.

End Facts.

(** ** The theorems at concrete calls *)

(** [n_steps] a graph node of dtype float32. *)
Lemma n_steps_dtype_checked_witness :
  scan plain_theano (running_sum (NodeSteps (EVar "steps_f")))
  = ([], inl (ValueError msg_n_steps_int))
  ∧ ∀ f, check_n_steps_dtype plain_theano (FloatSteps f) = inr tt.
Proof.
  apply (n_steps_dtype_checked plain_theano _ (EVar "steps_f")); reflexivity.
Defined.

(** [outputs_info=[dict(taps=[-2, -1])]]: taps and no initial state. *)
Lemma taps_without_initial_rejected_witness :
  ∃ tr msg,
    scan plain_theano
         (ScanCall add_fn (ArgList [SeqNode (EVar "x")])
                   (ArgList [OutDict (OutD None (Some (TapsList [-2; -1])) None)])
                   ArgNone NoneSteps (-1) false None None)
    = (tr, inl (ValueError msg))
    ∧ Forall (λ ev, is_warning ev = true) tr
    ∧ (∀ nf, n_fixed_steps_of plain_theano NoneSteps = inr nf →
             check_n_steps_dtype plain_theano NoneSteps = inr tt →
             msg = msg_need_initial).
Proof.
  apply (taps_without_initial_rejected plain_theano
           (ScanCall add_fn (ArgList [SeqNode (EVar "x")])
                     (ArgList [OutDict (OutD None (Some (TapsList [-2; -1])) None)])
                     ArgNone NoneSteps (-1) false None None)
           0%nat (OutD None (Some (TapsList [-2; -1])) None));
    [reflexivity | reflexivity | reflexivity | intros b; discriminate].
Defined.


(** [sequences=[x]] and a symbolic [n_steps = n]: the trip count is [n]. *)
Lemma trip_count_is_n_steps_witness :
  ∃ tr p,
    scan_prepare plain_theano (running_sum (NodeSteps (EVar "n"))) = (tr, inr p)
    ∧ p_actual_n_steps p = EVar "n".
Proof.
  eexists _, _. split; [reflexivity|].
  refine (proj2 (proj1 (trip_count_is_n_steps plain_theano
                          (running_sum (NodeSteps (EVar "n"))) _ _ eq_refl)
                       eq_refl) _ eq_refl).
Defined.

(** One buffer of three rows, [return_steps = 2], one row of padding. *)
Lemma remove_dimensions_returns_witness :
  ∃ res r,
    remove_dimensions [EVar "x"] {[0%nat := 2]} (Some [1]) = inr res
    ∧ res !! 0%nat = Some r
    ∧ r = ESlice (EVar "x") (Some (-2)) None
    ∧ eval env_3_rows_5_steps r = Some (TArray [TScalar 8; TScalar 9]).
Proof.
  assert (remove_dimensions [EVar "x"] {[0%nat := 2]} (Some [1])
          = inr [ESlice (EVar "x") (Some (-2)) None]) as Hrd
    by (vm_compute; reflexivity).
  destruct (remove_dimensions_returns _ _ _ _ 0%nat (EVar "x")
              env_3_rows_5_steps [TScalar 7; TScalar 8; TScalar 9]
              Hrd eq_refl eq_refl) as (r & Hr & Hspec).
  exists [ESlice (EVar "x") (Some (-2)) None], r.
  split; [exact Hrd|]. split; [exact Hr|].
  destruct Hspec as (Hr' & Hev & _). split; [exact Hr'|exact Hev].
Defined.

(** [scan(add_fn, sequences=[x], outputs_info=[acc0], n_steps=1)]. *)
Lemma single_step_shortcut_witness :
  ∃ tr0 p outputs updates,
    scan_prepare plain_theano (running_sum (IntSteps 1)) = (tr0, inr p)
    ∧ fn (running_sum (IntSteps 1)) (p_args p) = (outputs, updates)
    ∧ scan plain_theano (running_sum (IntSteps 1))
      = (tr0 ++ [EvCallFn (p_args p)],
         inr (single_step_outputs plain_theano (p_return_steps p) outputs,
              updates)).
Proof.
  destruct (single_step_shortcut plain_theano (running_sum (IntSteps 1))
              (Some (SInt 1)) eq_refl eq_refl) as [_ H].
  destruct (H _ _ eq_refl) as (outputs & updates & Hfn & Hscan & _).
  eexists _, _, outputs, updates. split; [reflexivity|]. split; [exact Hfn|].
  exact Hscan.
Defined.

(** Two outputs declared, one returned, [n_steps = 5]. *)
Lemma probe_output_count_checked_witness :
  ∃ tr, scan plain_theano (two_declared_one_returned (IntSteps 5))
        = (tr, inl (ValueError msg_provide_none)).
Proof.
  destruct (probe_output_count_checked plain_theano
              (two_declared_one_returned (IntSteps 5)) _ _ _ _
              eq_refl eq_refl eq_refl) as [H _].
  destruct H as [dummy_args H]; [discriminate | simpl; lia |].
  eexists. exact H.
Defined.

(** Two outputs declared, one returned: [n_steps = 1] against
    [n_steps = 5]. *)
Lemma single_step_skips_count_check_witness :
  (∃ tr r, scan plain_theano (two_declared_one_returned (IntSteps 1))
           = (tr, inr r))
  ∧ result (scan plain_theano (two_declared_one_returned (IntSteps 5)))
    = inl (ValueError msg_provide_none).
Proof.
  split.
  - destruct (single_step_skips_count_check plain_theano
                (two_declared_one_returned (IntSteps 1)) _ _ _ _
                eq_refl eq_refl ltac:(discriminate) ltac:(simpl; lia))
      as [H _].
    eexists _, _. exact (H eq_refl).
  - destruct (single_step_skips_count_check plain_theano
                (two_declared_one_returned (IntSteps 5)) _ _ _ _
                eq_refl eq_refl ltac:(discriminate) ltac:(simpl; lia))
      as [_ H].
    exact (H eq_refl).
Defined.

(** One output of each category, declared in the order nit_sot, mit_sot,
    sit_sot. *)
Lemma outputs_scattered_in_order_witness :
  ∃ tr res upd,
    scan plain_theano one_of_each = (tr, inr (unwrap_outputs res, upd))
    ∧ length res = 3%nat
    ∧ unwrap_outputs res = OutsList res.
Proof.
  destruct (outputs_scattered_in_order plain_theano one_of_each _ _ _ _
              eq_refl eq_refl eq_refl)
    as (oi & a & tr & res & upd & _ & Hscan & _ & Hlen & _ & _ & _ & Hlist).
  - left. reflexivity.
  - repeat constructor.
  - intros info ii no si. simpl. rewrite length_fmap, length_seq. lia.
  - exists tr, res, upd. split; [exact Hscan|]. split; [exact Hlen|].
    apply Hlist. simpl. lia.
Defined.

(** No sequence and no [n_steps]. *)
Lemma no_step_information_witness :
  ∃ tr, scan plain_theano (plain_call ArgNone ArgNone NoneSteps)
        = (tr, inl (ValueError msg_no_steps)).
Proof.
  destruct (no_step_information plain_theano
              (plain_call ArgNone ArgNone NoneSteps) eq_refl)
    as (tr & msg & Hscan & _ & _ & Hmsg).
  - constructor.
  - exists tr. rewrite Hscan. by rewrite (Hmsg ([], ∅) eq_refl).
Defined.

(** [n_steps = float('nan')]. *)
Lemma non_finite_float_n_steps_witness :
  scan plain_theano (double_each (FloatSteps FNaN))
  = ([], inl (ValueError msg_nan_to_int)).
Proof.
  exact (non_finite_float_n_steps plain_theano
           (double_each (FloatSteps FNaN)) FNaN eq_refl eq_refl).
Defined.

(** [sequences=[dict(input=x, taps=[])]]. *)
Lemma falsy_sequence_taps_fail_witness :
  ∃ tr e,
    scan plain_theano
         (plain_call (ArgList [SeqDict (SeqD (EVar "x") (Some (TapsList [])))])
                     ArgNone (IntSteps 5))
    = (tr, inl e).
Proof.
  destruct (falsy_sequence_taps_fail plain_theano
              (plain_call (ArgList [SeqDict (SeqD (EVar "x") (Some (TapsList [])))])
                          ArgNone (IntSteps 5))
              0%nat (SeqD (EVar "x") (Some (TapsList []))) eq_refl
              (or_introl eq_refl)) as [_ (tr & e & Hscan & _)].
  exists tr, e. exact Hscan.
Defined.

(** [outputs_info=[dict(initial=y0, taps=-1)]]. *)
Lemma integer_output_taps_fail_witness :
  ∃ tr e,
    scan plain_theano
         (plain_call (ArgList [SeqNode (EVar "x")])
            (ArgList [OutDict (OutD (Some (EVar "y0")) (Some (TapsInt (-1)))
                                    None)])
            NoneSteps)
    = (tr, inl e).
Proof.
  destruct (integer_output_taps_fail plain_theano
              (plain_call (ArgList [SeqNode (EVar "x")])
                 (ArgList [OutDict (OutD (Some (EVar "y0"))
                                         (Some (TapsInt (-1))) None)])
                 NoneSteps)
              0%nat (OutD (Some (EVar "y0")) (Some (TapsInt (-1))) None)
              (-1) (EVar "x") eq_refl eq_refl ltac:(discriminate))
    as [_ (tr & e & Hscan & _)].
  exists tr, e. exact Hscan.
Defined.

(** The probe of [scan(add_fn, sequences=[x], outputs_info=[acc0])]. *)
Lemma probe_inputs_witness :
  Forall (λ x, is_shared x = false)
         [ENew (SiteSeq 0 0) (EIndex (EVar "x") 0);
          ENew (SiteSit 0) (EVar "acc0")].
Proof.
  assert (EvCompileProbe
            [ENew (SiteSeq 0 0) (EIndex (EVar "x") 0);
             ENew (SiteSit 0) (EVar "acc0")]
            [EOp2 "add" (ENew (SiteSit 0) (EVar "acc0"))
                  (ENew (SiteSeq 0 0) (EIndex (EVar "x") 0))]
          ∈ trace (scan plain_theano (running_sum NoneSteps))) as Hin.
  { apply list_elem_of_further, list_elem_of_here. }
  destruct (probe_inputs plain_theano (running_sum NoneSteps) _ _ Hin)
    as (args & updates & _ & _ & Hall & _).
  exact Hall.
Defined.

(** [outputs_info=[dict(initial=y0, taps=None)]]: one warning, for
    position 0. *)
Lemma warnings_for_explicit_empty_taps_witness :
  ∃ tr p,
    scan_prepare plain_theano
      (plain_call (ArgList [SeqNode (EVar "x")])
         (ArgList [OutDict (OutD (Some (EVar "y0")) (Some TapsNone) None)])
         NoneSteps) = (tr, inr p)
    ∧ EvWarning 0 ∈ tr.
Proof.
  eexists _, _. split; [reflexivity|].
  apply (proj1 (proj2 (warnings_for_explicit_empty_taps plain_theano
                         (plain_call (ArgList [SeqNode (EVar "x")])
                            (ArgList [OutDict (OutD (Some (EVar "y0"))
                                                    (Some TapsNone) None)])
                            NoneSteps) _ _ eq_refl))).
  eexists. split; reflexivity.
Defined.

(** A second pass over the wrapped form of a bare node. *)
Lemma wrapping_idempotent_witness :
  wrap_out 0 (OutDict (OutD (Some (EVar "y0")) (Some (TapsList [-1])) None)) ∅
  = ([], inr (OutD (Some (EVar "y0")) (Some (TapsList [-1])) None, ∅)).
Proof.
  exact (proj1 (wrapping_idempotent 0%nat (OutNode (EVar "y0")) ∅ [] _ ∅
                  (SeqNode (EVar "x")) eq_refl)).
Defined.

(** A sequence of three rows with the taps [-1, 0]: the window of the tap
    [-1] has two rows. *)
Lemma seq_windows_aligned_witness :
  ∃ w, eval env_3_rows_5_steps (seq_window false (EVar "x") (-1) 0 (-1))
       = Some (TArray w)
       ∧ Z.of_nat (length w) = 2.
Proof.
  destruct (seq_windows_aligned env_3_rows_5_steps (EVar "x")
              [TScalar 7; TScalar 8; TScalar 9] (-1) [0] (-1) eq_refl)
    as [H _].
  - apply list_elem_of_here.
  - destruct H as (w & Hw & _ & Hlen & _).
    + simpl. lia.
    + simpl. lia.
    + exists w. split; [exact Hw|exact Hlen].
Defined.

(** One sequence, an output without taps, one with the taps [-2, -1] and
    one with the taps [-1]: the step function gets [x[t]], [y[t-2]],
    [y[t-1]] and [acc[t-1]]. *)
Lemma step_function_arguments_witness :
  ∃ nf,
    n_fixed_steps_of plain_theano (n_steps one_of_each) = inr nf
    ∧ [ENew (SiteSeq 0 0) (EIndex (EVar "x") 0);
       ENew (SiteMit 1 0) (EIndex (EVar "y0") 0);
       ENew (SiteMit 1 1) (EIndex (EVar "y0") 1);
       ENew (SiteSit 2) (EVar "acc0")]
      = concat (imap (seq_placeholders (in_1_m1 nf))
                     (wrap_seq <$> wrap_into_list (sequences one_of_each)))
        ++ concat (imap (out_placeholders (in_1_m1 nf))
                        (wrapped <$> wrap_into_list (outputs_info one_of_each)))
        ++ wrap_into_list (non_sequences one_of_each).
Proof.
  apply (step_function_arguments plain_theano one_of_each).
  apply list_elem_of_here.
Defined.

(** The running sum with [n_steps = -1], backwards, and with
    [n_steps = 1], forwards. *)
Lemma single_step_ignores_direction_witness :
  scan plain_theano running_sum_backwards
  = scan plain_theano (running_sum (IntSteps 1)).
Proof.
  apply (single_step_ignores_direction plain_theano (running_sum (IntSteps 1))
           running_sum_backwards (Some (SInt 1)) (Some (SInt (-1))));
    reflexivity.
Defined.

(** The running sum over five steps: the scan op gets the trip count, one
    sequence and one sit_sot buffer. *)
Lemma scan_op_configuration_witness :
  ∃ info inner_inputs new_outs k,
    EvBuildScanOp info inner_inputs new_outs
    ∈ trace (scan plain_theano (running_sum (IntSteps 5)))
    ∧ length (info_tap_array info)
      = (info_n_mit_sot info + info_n_sit_sot info)%nat
    ∧ length inner_inputs
      = (info_n_seqs info + length (concat (info_tap_array info))
         + info_n_shared_outs info + k)%nat.
Proof.
  destruct (scan_op_configuration plain_theano (running_sum (IntSteps 5))
              [EConstant (SInt 5);
               ESlice (EVar "x") (Some 0) None;
               EExpand (EUnbroadcast (EShapePadLeft (EVar "acc0")) 0)
                       (EConstant (SInt 5))])
    as (info & ii & no & k & H1 & H2 & _ & _ & H5 & _).
  - do 3 apply list_elem_of_further. apply list_elem_of_here.
  - by exists info, ii, no, k.
Defined.

(** The counter: one update, for the shared variable [count], whose value
    is the only output of the scan op. *)
Lemma loop_updates_witness :
  is_shared (EShared "count") = true
  ∧ ∃ j, scan_op_apply updating_theano
           (ScanInfo [] 0 0 0 [] 0 0 1 0 (-1) None None false false)
           [ENew (SiteShared 0) (EShared "count")]
           [EOp2 "add" (EShared "count") (EConstant (SInt 1))]
           [EConstant (SInt 5); EShared "count"] !! j
         = Some (EOp1 "scan_out" (EConstant (SInt 0))).
Proof.
  assert (scan updating_theano counter
          = ([EvCallFn []; EvCompileProbe [] [];
              EvBuildScanOp
                (ScanInfo [] 0 0 0 [] 0 0 1 0 (-1) None None false false)
                [ENew (SiteShared 0) (EShared "count")]
                [EOp2 "add" (EShared "count") (EConstant (SInt 1))];
              EvApplyScanOp [EConstant (SInt 5); EShared "count"]],
             inr (OutsNone,
                  [(EShared "count", EOp1 "scan_out" (EConstant (SInt 0)))])))
    as Hscan by (vm_compute; reflexivity).
  destruct (loop_updates updating_theano counter _ _ _
              [EConstant (SInt 5); EShared "count"] Hscan)
    as (info & ii & no & Hb & _ & _ & Hall).
  - do 3 apply list_elem_of_further. apply list_elem_of_here.
  - destruct (Hall (EShared "count") (EOp1 "scan_out" (EConstant (SInt 0))))
      as [Hsh (j & _ & Hj)]; [apply list_elem_of_here|].
    split; [exact Hsh|].
    apply elem_of_cons in Hb as [?|Hb]; [done|].
    apply elem_of_cons in Hb as [?|Hb]; [done|].
    apply elem_of_cons in Hb as [Hb|Hb].
    + injection Hb as <- <- <-. eexists. exact Hj.
    + apply list_elem_of_singleton in Hb. done.
Defined.

(** Two entries declared, the second in no category: one output is
    returned. *)
Lemma returned_outputs_count_witness :
  outputs_count
    (OutsSingle
       (Some (ESlice (EOp1 "scan_out" (EConstant (SInt 0))) (Some 1) None)))
  = length (filter (λ d, classified d = true)
                   (wrapped
                      <$> wrap_into_list
                            (outputs_info one_entry_without_category))).
Proof.
  assert (scan plain_theano one_entry_without_category
          = ([EvCallFn [ENew (SiteSit 0) (EVar "y0")];
              EvCompileProbe [ENew (SiteSit 0) (EVar "y0")]
                [EOp1 "f" (EVar "a"); EOp1 "g" (EVar "b")];
              EvBuildScanOp
                (ScanInfo [[-1]] 0 0 0 [] 0 1 0 0 (-1) None None false false)
                [ENew (SiteSit 0) (EVar "y0")]
                [EOp1 "g" (EVar "b"); EOp1 "f" (EVar "a")];
              EvApplyScanOp
                [EConstant (SInt 5);
                 EExpand (EUnbroadcast (EShapePadLeft (EVar "y0")) 0)
                         (EConstant (SInt 5))]],
             inr (OutsSingle
                    (Some (ESlice (EOp1 "scan_out" (EConstant (SInt 0)))
                                  (Some 1) None)),
                  [])))
    as Hscan by (vm_compute; reflexivity).
  destruct (returned_outputs_count plain_theano one_entry_without_category
              _ _ _
              [EConstant (SInt 5);
               EExpand (EUnbroadcast (EShapePadLeft (EVar "y0")) 0)
                       (EConstant (SInt 5))] Hscan)
    as (args & _ & _ & Hne).
  - do 3 apply list_elem_of_further. apply list_elem_of_here.
  - destruct Hne as [_ Hcount]; [discriminate|]. exact Hcount.
Defined.

(** The rows 6, 8, 9 for the taps [[-1]] and 6, 7, 8, 9 for the taps
    [[-2, -1]]: with [return_steps=3] the initial row 6 is returned. *)
Lemma return_steps_beyond_history_witness :
  returned_value buffers_theano (history_call [-1] (Some 3))
    (λ _, Some (TArray [TArray [TScalar 6; TScalar 8; TScalar 9]]))
  = Some (TArray [TScalar 6; TScalar 8; TScalar 9])
  ∧ returned_value buffers_theano (history_call [-1] None)
      (λ _, Some (TArray [TArray [TScalar 6; TScalar 8; TScalar 9]]))
    = Some (TArray [TScalar 8; TScalar 9]).
Proof.
  destruct (return_steps_beyond_history
              (λ _, Some (TArray [TArray [TScalar 6; TScalar 8; TScalar 9]]))
              (λ _, Some (TArray [TArray [TScalar 6; TScalar 7; TScalar 8;
                                          TScalar 9]]))
              (TScalar 6) (TScalar 7) (TScalar 8) (TScalar 9)
              eq_refl eq_refl) as [(H1 & _ & H2 & _) _].
  split; [exact H1|exact H2].
Defined.
